(** * Credit-history baseline: count aggregation, K-fold training, scoring

    A shallow embedding of the notebook [gb_baseline/baseline.ipynb]:
    the [CountAggregator] class (cell 15), the cross-validation loop
    (cell 28) and the scoring cell (cell 33), with the pandas, numpy and
    scikit-learn operations they call written out as list functions. *)

From Stdlib Require Import ZArith QArith String Ascii Bool Arith Lia.
From Stdlib Require Import DecimalString DecimalZ DecimalPos.
From Stdlib Require PrimFloat Uint63.
From Stdlib Require Import Sorting.Sorted Permutation List.
Import ListNotations.

Local Open Scope nat_scope.
Local Open Scope list_scope.

(* ================================================================== *)
(** * Exceptions and results *)

Inductive exn : Type :=
| AssertionError (msg : string)
| ValueError (msg : string)
| TypeError (msg : string)
| OSError (msg : string)
| KeyError.

Inductive result (A : Type) : Type :=
| Ok (a : A)
| Raise (e : exn).
Arguments Ok {A} a.
Arguments Raise {A} e.

Definition not_fitted : exn := AssertionError "Transformer not fitted".
Definition no_objects : exn := ValueError "No objects to concatenate".
Definition zero_step : exn := ValueError "range() arg 3 must not be zero".
Definition bad_mode : exn := AssertionError "Unrecognized mode".
(** [IOError] is [OSError] in Python 3. *)
Definition missing_partition : exn := OSError "partition path is missing".
Definition missing_directory : exn :=
  OSError "Cannot save file into a non-existent directory".

Definition is_ok {A} (r : result A) : bool :=
  match r with Ok _ => true | Raise _ => false end.

(* ================================================================== *)
(** * Tables *)

Module Frame.

(** One history record: the [id] and [rn] cells and the categorical
    cells by column name; a column with no entry holds a missing value. *)
Record record : Type := mkRecord {
  r_id : Z;
  r_rn : Z;
  r_cats : list (string * Z)
}.

(** The frame the chunk reader returns: columns [id], [rn] and
    [feature_columns], one [record] per row.  Parquet column names are
    distinct. *)
Record DataFrame : Type := mkDataFrame {
  feature_columns : list string;
  records : list record
}.

Fixpoint cat_value (cats : list (string * Z)) (c : string) : option Z :=
  match cats with
  | [] => None
  | (c', v) :: rest => if String.eqb c' c then Some v else cat_value rest c
  end.

(** A column of a frame is read as [int64] when every row has a value,
    and as [float64], the missing cells being NaN, as soon as one row
    lacks it. *)
Definition has_missing (rs : list record) (c : string) : bool :=
  existsb (fun r => match cat_value (r_cats r) c with
                    | Some _ => false
                    | None => true
                    end) rs.

(** A one-hot column.  pandas names it [column_value], the value
    printed as the column's dtype prints it: [b_1] from an integer
    column, [b_1.0] from a float one.  The two are different columns. *)
Record label : Type := mkLabel {
  l_column : string;
  l_value : Z;
  l_float : bool
}.

Definition label_eqb (a b : label) : bool :=
  String.eqb (l_column a) (l_column b)
  && Z.eqb (l_value a) (l_value b)
  && Bool.eqb (l_float a) (l_float b).

(** [str] of an integer: its decimal digits, [-] first when negative. *)
Definition format_int (v : Z) : string :=
  NilZero.string_of_int (Z.to_int v).

(** [str] of a cell.  Category codes are small integers, which
    [float64] holds exactly and prints as the integer followed by [.0]. *)
Definition format_value (v : Z) (as_float : bool) : string :=
  if as_float then (format_int v ++ ".0")%string else format_int v.

(** The column name [pd.get_dummies] builds: prefix, separator [_],
    level. *)
Definition name (l : label) : string :=
  (l_column l ++ String "_" (format_value (l_value l) (l_float l)))%string.

(** The character does not occur in the string. *)
Fixpoint absent (a : ascii) (s : string) : bool :=
  match s with
  | EmptyString => true
  | String b s' => negb (Ascii.eqb a b) && absent a s'
  end.

Definition mem (l : label) (ls : list label) : bool :=
  existsb (label_eqb l) ls.

Definition mem_name (n : string) (ns : list string) : bool :=
  existsb (String.eqb n) ns.

(** Sorted distinct values, the category order [pd.get_dummies] uses. *)
Fixpoint insert_level (v : Z) (l : list Z) : list Z :=
  match l with
  | [] => [v]
  | x :: l' =>
      if (v <? x)%Z then v :: l
      else if (v =? x)%Z then l
      else x :: insert_level v l'
  end.

Definition sorted_unique (l : list Z) : list Z :=
  fold_right insert_level [] l.

Definition observed (rs : list record) (c : string) : list Z :=
  flat_map (fun r => match cat_value (r_cats r) c with
                     | Some v => [v]
                     | None => []
                     end) rs.

Definition levels (rs : list record) (c : string) : list Z :=
  sorted_unique (observed rs c).

(** [pd.get_dummies(df[cols], columns=cols).columns]: per column in
    order, one indicator per observed value in ascending order, named
    after the column's dtype in this frame; missing values get no
    indicator. *)
Definition get_dummies_columns (df : DataFrame) : list label :=
  flat_map (fun c => map (fun v => mkLabel c v (has_missing (records df) c))
                         (levels (records df) c))
           (feature_columns df).

(** The indicator cell of a row in a one-hot column of its own frame. *)
Definition takes (r : record) (l : label) : bool :=
  match cat_value (r_cats r) (l_column l) with
  | Some v => Z.eqb v (l_value l)
  | None => false
  end.

Definition indicator (r : record) (l : label) : nat :=
  if takes r l then 1 else 0.

(** A feature table: the [id] column first, then [columns]; a row is
    its id and one cell per column. *)
Record Table (A : Type) : Type := mkTable {
  columns : list label;
  rows : list (Z * list A)
}.
Arguments mkTable {A} columns rows.
Arguments columns {A} t.
Arguments rows {A} t.

Inductive column_name : Type :=
| Id
| Dummy (l : label).

Definition header {A} (t : Table A) : list column_name :=
  Id :: map Dummy (columns t).

Definition ids {A} (t : Table A) : list Z := map fst (rows t).

Fixpoint cell_at {A} (cols : list label) (cells : list A) (l : label)
  : option A :=
  match cols, cells with
  | c :: cols', x :: cells' =>
      if label_eqb c l then Some x else cell_at cols' cells' l
  | _, _ => None
  end.

(** [df.groupby("id")[cols].sum().reset_index()]: one row per distinct id
    in ascending order, each cell the sum of the column over the rows of
    the group.  pandas accumulates the sums in 64 bits and narrows the
    result only where that loses nothing, so the counts are naturals. *)
Definition group_sum (rs : list record) (e : Z) (l : label) : nat :=
  list_sum (map (fun r => indicator r l)
                (filter (fun r => Z.eqb (r_id r) e) rs)).

Definition groupby_sum (rs : list record) (cols : list label)
  : list (Z * list nat) :=
  map (fun e => (e, map (group_sum rs e) cols))
      (sorted_unique (map r_id rs)).

(** Column union of [pd.concat]: first appearance order. *)
Fixpoint union_columns (seen : list label) (l : list label) : list label :=
  match l with
  | [] => []
  | x :: l' =>
      if mem x seen then union_columns seen l'
      else x :: union_columns (x :: seen) l'
  end.

Definition reindex {A} (cols : list label) (t : Table A)
  : list (Z * list (option A)) :=
  map (fun row => (fst row, map (cell_at (columns t) (snd row)) cols))
      (rows t).

(** [pd.concat(frames)]: rows in order, columns united, cells of columns
    a frame lacks missing; no frame at all is an error. *)
Definition concat {A} (frames : list (Table A))
  : result (Table (option A)) :=
  match frames with
  | [] => Raise no_objects
  | _ =>
      let cols := union_columns [] (flat_map columns frames) in
      Ok (mkTable cols (flat_map (reindex cols) frames))
  end.

Definition fillna {A} (v : A) (t : Table (option A)) : Table A :=
  mkTable (columns t)
          (map (fun row =>
                  (fst row,
                   map (fun c => match c with Some x => x | None => v end)
                       (snd row)))
               (rows t)).

Fixpoint set_cell {A} (cols : list label) (cells : list A) (l : label)
  (v : A) : list A :=
  match cols, cells with
  | c :: cols', x :: cells' =>
      if label_eqb c l then v :: set_cell cols' cells' l v
      else x :: set_cell cols' cells' l v
  | _, _ => cells
  end.

(** [t[col] = v] with a scalar: an existing column is overwritten, a new
    one is appended. *)
Definition set_column {A} (t : Table A) (l : label) (v : A) : Table A :=
  if mem l (columns t)
  then mkTable (columns t)
               (map (fun row => (fst row, set_cell (columns t) (snd row) l v))
                    (rows t))
  else mkTable (columns t ++ [l])
               (map (fun row => (fst row, snd row ++ [v])) (rows t)).

(** [t[["id"] + cols]]: a label the table lacks is a [KeyError]. *)
Definition select (t : Table nat) (cols : list label) : result (Table nat) :=
  if forallb (fun l => mem l (columns t)) cols
  then Ok (mkTable cols
             (map (fun row =>
                     (fst row,
                      map (fun l => match cell_at (columns t) (snd row) l with
                                    | Some x => x
                                    | None => 0
                                    end) cols))
                  (rows t)))
  else Raise KeyError.

(** [range(0, stop, step)] for naturals. *)
Definition range (stop step : nat) : result (list nat) :=
  match step with
  | 0 => Raise zero_step
  | _ => Ok (map (fun k => k * step) (seq 0 ((stop + step - 1) / step)))
  end.

End Frame.

(* ================================================================== *)
(** * The chunk reader *)

Module Reader.
Import Frame.

(** The stored dataset behind a path: ordered partitions of records over
    one set of categorical columns. *)
Record dataset : Type := mkDataset {
  ds_columns : list string;
  partitions : list (list record)
}.

(** Modelled from the spec: [utils.read_parquet_dataset_from_local] is
    imported by the notebook and not part of it.  Section 4.1: given a
    starting partition offset and a count of partitions, returns one table
    formed by concatenating those partitions' rows, preserving row order
    within and across partitions; fails with [IOError] if a path is
    missing.  Sections 4.1 and 7 know no partial read: a partition asked
    for and not stored is a missing path. *)
Definition read_parquet_dataset_from_local (ds : dataset)
  (start_from num_parts_to_read : nat) : result DataFrame :=
  if start_from + num_parts_to_read <=? length (partitions ds)
  then Ok (mkDataFrame (ds_columns ds)
             (List.concat (firstn num_parts_to_read
                                  (skipn start_from (partitions ds)))))
  else Raise missing_partition.

End Reader.

(* ================================================================== *)
(** * CountAggregator (cell 15) *)

Module Aggregator.
Import Frame Reader.

Record CountAggregator : Type := mkAggregator {
  encoded_features : option (list label)
}.

(** [CountAggregator.__init__] *)
Definition init : CountAggregator := mkAggregator None.

(** A file [processed_chunk_<step>.pq] written under a directory. *)
Record artifact : Type := mkArtifact {
  art_dir : string;
  art_step : nat;
  art_table : Table nat
}.

(** What a call can see and change: the aggregator object, and outside
    it the directories that exist, the reads issued to the chunk reader
    (offset, count) and the files written, both in order of occurrence. *)
Record world : Type := mkWorld {
  self : CountAggregator;
  dirs : list string;
  read_log : list (nat * nat);
  sink : list artifact
}.

(** Computations that may raise; the world at the raise is kept, as a
    Python exception keeps the side effects before it. *)
Definition M (A : Type) : Type := world -> result A * world.

Definition ret {A} (a : A) : M A := fun w => (Ok a, w).
Definition raise {A} (e : exn) : M A := fun w => (Raise e, w).
Definition bind {A B} (m : M A) (k : A -> M B) : M B :=
  fun w => match m w with
           | (Ok a, w') => k a w'
           | (Raise e, w') => (Raise e, w')
           end.
Definition lift {A} (r : result A) : M A := fun w => (r, w).
Definition get_encoded : M (option (list label)) :=
  fun w => (Ok (encoded_features (self w)), w).
Definition set_encoded (cols : list label) : M unit :=
  fun w => (Ok tt, mkWorld (mkAggregator (Some cols)) (dirs w)
                           (read_log w) (sink w)).
Definition log_read (start_from n : nat) : M unit :=
  fun w => (Ok tt, mkWorld (self w) (dirs w)
                           (read_log w ++ [(start_from, n)]) (sink w)).

(** [features.to_parquet(os.path.join(dir, ...))]: the file is created
    in a directory that exists; pandas refuses a directory that does
    not. *)
Definition to_parquet (dir : string) (step : nat) (t : Table nat) : M unit :=
  fun w => if mem_name dir (dirs w)
           then (Ok tt, mkWorld (self w) (dirs w) (read_log w)
                                (sink w ++ [mkArtifact dir step t]))
           else (Raise missing_directory, w).

Declare Scope agg_scope.
Delimit Scope agg_scope with agg.
Notation "x <- m ;; k" := (bind m (fun x => k))
  (at level 100, m at next level, right associativity) : agg_scope.
Notation "m ;;; k" := (bind m (fun _ => k))
  (at level 100, right associativity) : agg_scope.
Local Open Scope agg_scope.

Fixpoint for_each {A B} (body : A -> M B) (l : list A) : M (list B) :=
  match l with
  | [] => ret []
  | x :: l' =>
      y <- body x ;;
      ys <- for_each body l' ;;
      ret (y :: ys)
  end.

(** [frame.drop(columns=names)]: every column carrying one of the names
    goes. *)
Definition drop_columns (names : list string) (cols : list string)
  : list string :=
  filter (fun n => negb (mem_name n names)) cols.

(** [__extract_count_aggregations]: one-hot encoding of every
    categorical column, then the per-id sum of the indicators.
    [pd.get_dummies] of no column at all raises [ValueError] (it
    concatenates an empty list of encodings); the original columns are
    dropped by name after the indicators were appended, so an indicator
    named like a categorical column goes with it and the selection
    [groupby("id")[dummy_features]] fails with [KeyError]. *)
Definition extract_count_aggregations (data_frame : DataFrame)
  (mode : string) : result (Table nat) :=
  let feature_columns := feature_columns data_frame in
  match feature_columns with
  | [] => Raise no_objects
  | _ =>
      let dummy_features := get_dummies_columns data_frame in
      let ohe_features :=
        ("id" :: "rn" :: feature_columns ++ map name dummy_features)%string in
      let ohe_features := drop_columns feature_columns ohe_features in
      if forallb (fun l => mem_name (name l) ohe_features) dummy_features
      then Ok (mkTable dummy_features
                       (groupby_sum (records data_frame) dummy_features))
      else Raise KeyError
  end.

(** Truthiness of [save_to_path]: [None] and the empty string are false. *)
Definition truthy (save_to_path : option string) : option string :=
  match save_to_path with
  | Some EmptyString => None
  | other => other
  end.

(** The body of the loop over the batch offsets. *)
Definition process_step (ds : dataset) (num_parts_to_preprocess_at_once : nat)
  (mode : string) (save_to_path : option string) (step : nat)
  : M (Table nat) :=
  log_read step num_parts_to_preprocess_at_once ;;;
  data_frame <-
    lift (read_parquet_dataset_from_local
            ds step num_parts_to_preprocess_at_once) ;;
  features <- lift (extract_count_aggregations data_frame mode) ;;
  match truthy save_to_path with
  | Some dir => to_parquet dir step features
  | None => ret tt
  end ;;;
  ret features.

(** The loop itself: it stops at the first batch that raises. *)
Definition batch_loop (ds : dataset) (num_parts_to_preprocess_at_once : nat)
  (mode : string) (save_to_path : option string) (steps : list nat)
  : M (list (Table nat)) :=
  for_each (process_step ds num_parts_to_preprocess_at_once mode save_to_path)
           steps.

Definition valid_mode (mode : string) : bool :=
  String.eqb mode "fit_transform" || String.eqb mode "transform".

(** The loop [for col in self.encoded_features] of transform mode. *)
Definition zero_fill (dummy_features encoded : list label) (t : Table nat)
  : Table nat :=
  fold_left (fun features col => if negb (mem col dummy_features)
                                 then set_column features col 0 else features)
            encoded t.

(** [__transform_data] *)
Definition transform_data (ds : dataset)
  (num_parts_to_preprocess_at_once num_parts_total : nat)
  (mode : string) (save_to_path : option string) : M (Table nat) :=
  if negb (valid_mode mode) then raise bad_mode else
  steps <- lift (range num_parts_total num_parts_to_preprocess_at_once) ;;
  preprocessed_frames <-
    batch_loop ds num_parts_to_preprocess_at_once mode save_to_path steps ;;
  features <- lift (concat preprocessed_frames) ;;
  let features := fillna 0 features in
  let dummy_features := columns features in
  features <-
    (if String.eqb mode "fit_transform"
     then set_encoded dummy_features ;;; ret features
     else
       enc <- get_encoded ;;
       match enc with
       | None => raise not_fitted
       | Some encoded =>
           ret (zero_fill dummy_features encoded features)
       end) ;;
  enc <- get_encoded ;;
  match enc with
  | None => raise (TypeError "can only concatenate list to list")
  | Some encoded => lift (select features encoded)
  end.

Definition fit_transform (ds : dataset)
  (num_parts_to_preprocess_at_once num_parts_total : nat)
  (save_to_path : option string) : M (Table nat) :=
  transform_data ds num_parts_to_preprocess_at_once num_parts_total
                 "fit_transform" save_to_path.

Definition transform (ds : dataset)
  (num_parts_to_preprocess_at_once num_parts_total : nat)
  (save_to_path : option string) : M (Table nat) :=
  transform_data ds num_parts_to_preprocess_at_once num_parts_total
                 "transform" save_to_path.

(** ** Sample data *)

Definition rec (i n : Z) (a b : Z) : record :=
  mkRecord i n [("a"%string, a); ("b"%string, b)].

(** The one-hot column of an integer column, and of a float one. *)
Definition onehot (c : string) (v : Z) : label := mkLabel c v false.
Definition onehot_float (c : string) (v : Z) : label := mkLabel c v true.

(** A toy dataset: 2 partitions, 3 entities, columns [a] and [b] with
    values 1 and 2 each. *)
Definition toy : dataset :=
  mkDataset ["a"%string; "b"%string]
    [ [rec 10 0 1 1; rec 10 1 2 1; rec 11 0 1 2];
      [rec 12 0 2 2; rec 12 1 2 1; rec 12 2 1 1] ].

(** Two partitions; the second record of the first lacks its [b], so
    the first batch reads [b] as floats and the second as integers. *)
Definition toy_missing : dataset :=
  mkDataset ["a"%string; "b"%string]
    [ [rec 10 0 1 1; mkRecord 10 1 [("a"%string, 1%Z)]];
      [rec 11 0 1 1] ].

(** One partition whose column [a] takes the value 1 beside a column
    called [a_1]. *)
Definition toy_clash : dataset :=
  mkDataset ["a"%string; "a_1"%string]
    [ [mkRecord 10 0 [("a"%string, 1%Z); ("a_1"%string, 5%Z)]] ].

(** One partition with ids and no categorical column. *)
Definition toy_bare : dataset :=
  mkDataset [] [ [mkRecord 10 0 []] ].

(** A new aggregator in a session where the directory [out] exists and
    nothing was read or written. *)
Definition fresh : world := mkWorld init ["out"%string] [] [].

(** An aggregator fitted elsewhere: its schema lacks the columns of [b]
    and holds a value of a column [c] the toy data never shows. *)
Definition toy_schema : list label :=
  [onehot "a" 1; onehot "c" 7].

Definition fitted : world :=
  mkWorld (mkAggregator (Some toy_schema)) ["out"%string] [] [].

End Aggregator.

(* ================================================================== *)
(** * Numeric arrays *)

Module Array.

(** The arithmetic of array cells: a carrier with zero, addition,
    division, and the conversion of a Python [int] operand. *)
Record Arith : Type := mkArith {
  num : Type;
  zero : num;
  add : num -> num -> num;
  div : num -> num -> num;
  of_nat : nat -> num
}.

(** numpy's [float64]: IEEE 754 binary64 with round-to-nearest-even. *)
Definition binary64 : Arith :=
  mkArith PrimFloat.float PrimFloat.zero PrimFloat.add PrimFloat.div
          (fun n => PrimFloat.of_uint63 (Uint63.of_Z (Z.of_nat n))).

(** The same expressions over the rationals, without rounding. *)
Definition exact : Arith :=
  mkArith Q 0%Q Qplus Qdiv (fun n => inject_Z (Z.of_nat n)).

Definition zeros (A : Arith) (n : nat) : list (num A) := repeat (zero A) n.

Fixpoint zip_with {A B C} (f : A -> B -> C) (xs : list A) (ys : list B)
  : list C :=
  match xs, ys with
  | x :: xs', y :: ys' => f x y :: zip_with f xs' ys'
  | _, _ => []
  end.

Fixpoint set_nth {A} (i : nat) (v : A) (l : list A) : list A :=
  match l, i with
  | [], _ => []
  | _ :: l', O => v :: l'
  | x :: l', S i' => x :: set_nth i' v l'
  end.

(** [a[idx]] with an index array. *)
Definition take (A : Arith) (a : list (num A)) (idx : list nat)
  : list (num A) :=
  map (fun i => nth i a (zero A)) idx.

(** [a[idx] = vals]: element by element, a later write wins. *)
Definition assign {T} (a : list T) (idx : list nat) (vals : list T) : list T :=
  fold_left (fun acc iv => set_nth (fst iv) (snd iv) acc) (combine idx vals) a.

(** [a[idx] += vals] is [a[idx] = a[idx] + vals]. *)
Definition add_at (A : Arith) (a : list (num A)) (idx : list nat)
  (vals : list (num A)) : list (num A) :=
  assign a idx (zip_with (add A) (take A a idx) vals).

(** The sum from left to right, and the mean as sum over count. *)
Definition sum (A : Arith) (l : list (num A)) : num A :=
  fold_left (add A) l (zero A).

Definition mean (A : Arith) (l : list (num A)) : num A :=
  div A (sum A l) (of_nat A (length l)).

End Array.

(* ================================================================== *)
(** * sklearn.model_selection.KFold *)

Module KFold.

(** [fold_sizes]: [n // k] each, the first [n % k] folds one more. *)
Definition fold_sizes (n_samples n_splits : nat) : list nat :=
  map (fun i => n_samples / n_splits
                + (if i <? n_samples mod n_splits then 1 else 0))
      (seq 0 n_splits).

(** [_iter_test_indices]: consecutive slices of the (shuffled) indices. *)
Fixpoint iter_test_indices (indices : list nat) (sizes : list nat)
  : list (list nat) :=
  match sizes with
  | [] => []
  | fold_size :: rest =>
      firstn fold_size indices :: iter_test_indices (skipn fold_size indices) rest
  end.

Definition in_fold (test_index : list nat) (i : nat) : bool :=
  existsb (Nat.eqb i) test_index.

(** [split]: each slice becomes a boolean mask over [arange(n)]; the
    pair is (indices outside the mask, indices inside it), both
    ascending.  [shuffled] is [arange(n)] after the seeded shuffle. *)
Definition split (n_samples n_splits : nat) (shuffled : list nat)
  : result (list (list nat * list nat)) :=
  if n_splits <=? 1
  then Raise (ValueError "k-fold cross-validation requires at least one train/test split")
  else if n_samples <? n_splits
  then Raise (ValueError "Cannot have number of splits greater than the number of samples")
  else Ok (map (fun test_index =>
                  (filter (fun i => negb (in_fold test_index i)) (seq 0 n_samples),
                   filter (in_fold test_index) (seq 0 n_samples)))
               (iter_test_indices shuffled (fold_sizes n_samples n_splits))).

End KFold.

(* ================================================================== *)
(** * Cross-validated training (cell 28) and scoring (cell 33) *)

Module Trainer.
Import Array.

Section CrossValidation.

(** The arithmetic of the prediction arrays, a row of
    [train_data_target] (features and flag), a fitted classifier,
    [LGBMClassifier.fit] with its evaluation set, and
    [predict_proba(...)[:, 1]] for one row. *)
Variable A : Arith.
Variable sample : Type.
Variable model : Type.
Variable fit : list sample -> list sample -> model.
Variable predict_proba1 : model -> sample -> num A.

(** [frame.iloc[idx]] *)
Definition iloc (frame : list sample) (idx : list nat) : list sample :=
  flat_map (fun i => match nth_error frame i with
                     | Some x => [x]
                     | None => []
                     end) idx.

Record run : Type := mkRun {
  oof : list (num A);
  train_preds : list (num A);
  models : list model
}.

(** One iteration of the loop over [cv.split]. *)
Definition fold_step (train_data_target : list sample) (n_splits : nat)
  (st : run) (fold : list nat * list nat) : run :=
  let '(train_idx, val_idx) := fold in
  let train := iloc train_data_target train_idx in
  let val := iloc train_data_target val_idx in
  let lgb_model := fit train val in
  mkRun (assign (oof st) val_idx (map (predict_proba1 lgb_model) val))
        (add_at A (train_preds st) train_idx
                (map (fun x => div A (predict_proba1 lgb_model x)
                                     (of_nat A (n_splits - 1)))
                     train))
        (models st ++ [lgb_model]).

Definition cross_validate (train_data_target : list sample)
  (n_splits : nat) (shuffled : list nat) : result run :=
  let n := length train_data_target in
  match KFold.split n n_splits shuffled with
  | Raise e => Raise e
  | Ok folds =>
      Ok (fold_left (fold_step train_data_target n_splits) folds
                    (mkRun (zeros A n) (zeros A n) []))
  end.

(** The classifier the loop fits for a fold. *)
Definition model_of (train_data_target : list sample)
  (fold : list nat * list nat) : model :=
  fit (iloc train_data_target (fst fold)) (iloc train_data_target (snd fold)).

(** The positions assigned by [oof[val_idx] = ...] over a run, in
    order of assignment. *)
Definition oof_assignments (folds : list (list nat * list nat)) : list nat :=
  flat_map snd folds.

(** The scoring loop of cell 33 over the selected rows. *)
Definition score (models : list model) (test_data : list sample)
  : list (num A) :=
  fold_left
    (fun score m =>
       zip_with (add A) score
         (map (fun x => div A (predict_proba1 m x) (of_nat A (length models)))
              test_data))
    models (zeros A (length test_data)).

End CrossValidation.

Arguments iloc {sample} frame idx.
Arguments mkRun {A model} oof train_preds models.
Arguments oof {A model} r.
Arguments train_preds {A model} r.
Arguments models {A model} r.
Arguments model_of {sample model} fit train_data_target fold.
Arguments fold_step {A sample model} fit predict_proba1 train_data_target n_splits st fold.
Arguments cross_validate {A sample model} fit predict_proba1 train_data_target n_splits shuffled.
Arguments score {A sample model} predict_proba1 models test_data.

(** A classifier that predicts probability 1 for every row. *)
Definition sure (A : Arith) (m : unit) (x : unit) : num A := of_nat A 1.

End Trainer.

(* ================================================================== *)
(** * Vocabulary of the statements *)

Module Schema.
Import Frame Reader Aggregator.

(** Every row has one cell per column. *)
Definition well_formed {A} (t : Table A) : Prop :=
  Forall (fun row => length (snd row) = length (columns t)) (rows t).

(** The frame read at offset [step] when the dataset stores every
    partition asked for. *)
Definition batch (ds : dataset) (num_parts_to_preprocess_at_once step : nat)
  : DataFrame :=
  mkDataFrame (ds_columns ds)
    (List.concat (firstn num_parts_to_preprocess_at_once
                         (skipn step (partitions ds)))).

(** The frames one call reads, in order. *)
Definition batches (ds : dataset) (num_parts_to_preprocess_at_once : nat)
  (steps : list nat) : list DataFrame :=
  map (batch ds num_parts_to_preprocess_at_once) steps.

(** The offsets [range(0, stop, step)] yields for a positive step. *)
Definition steps_of (stop step : nat) : list nat :=
  map (fun k => k * step) (seq 0 ((stop + step - 1) / step)).

(** The per-id count table of a frame. *)
Definition count_table (df : DataFrame) : Table nat :=
  mkTable (get_dummies_columns df)
          (groupby_sum (records df) (get_dummies_columns df)).

(** The dataset stores every partition of the read at [step]. *)
Definition in_range (ds : dataset) (num_parts_to_preprocess_at_once step : nat)
  : bool :=
  step + num_parts_to_preprocess_at_once <=? length (partitions ds).

(** The frame has a categorical column and none of its one-hot names is
    the name of one. *)
Definition encodable (df : DataFrame) : bool :=
  match feature_columns df with
  | [] => false
  | _ => forallb (fun l => negb (mem_name (name l) (feature_columns df)))
                 (get_dummies_columns df)
  end.

(** The call has no sink, or its sink directory exists. *)
Definition writable (save_to_path : option string) (w : world) : bool :=
  match truthy save_to_path with
  | Some dir => mem_name dir (dirs w)
  | None => true
  end.

Definition step_ready (ds : dataset) (num_parts_to_preprocess_at_once : nat)
  (step : nat) : bool :=
  in_range ds num_parts_to_preprocess_at_once step
  && encodable (batch ds num_parts_to_preprocess_at_once step).

(** Every batch of the call can be read and encoded, and the sink can
    be written. *)
Definition call_ready (ds : dataset)
  (num_parts_to_preprocess_at_once num_parts_total : nat)
  (save_to_path : option string) (w : world) : bool :=
  forallb (step_ready ds num_parts_to_preprocess_at_once)
          (steps_of num_parts_total num_parts_to_preprocess_at_once)
  && writable save_to_path w.

(** The errors the body of the batch loop can raise. *)
Definition loop_errors : list exn :=
  [missing_partition; no_objects; KeyError; missing_directory].

(** The union of the batches' one-hot columns, in order of appearance. *)
Definition observed_columns (dfs : list DataFrame) : list label :=
  union_columns [] (flat_map get_dummies_columns dfs).

(** The row of entity [e] of batch [df], laid out on [schema]. *)
Definition aligned_row (schema : list label) (df : DataFrame) (e : Z)
  : Z * list nat :=
  (e, map (fun l => if mem l (get_dummies_columns df)
                    then group_sum (records df) e l else 0) schema).

Definition aligned_rows (schema : list label) (dfs : list DataFrame)
  : list (Z * list nat) :=
  flat_map (fun df => map (aligned_row schema df)
                          (sorted_unique (map r_id (records df)))) dfs.

(** The world after a series of [transform] calls, each given by its
    dataset, batch size, partition count and sink. *)
Definition after_transforms
  (calls : list (dataset * nat * nat * option string)) (w : world) : world :=
  fold_left (fun w call =>
               match call with
               | (ds, chunk, total, save_to_path) =>
                   snd (transform ds chunk total save_to_path w)
               end) calls w.

(** No id has records in two partitions. *)
Fixpoint entity_aligned (parts : list (list record)) : bool :=
  match parts with
  | [] => true
  | p :: rest =>
      forallb (fun r =>
                 forallb (fun r' => negb (Z.eqb (r_id r) (r_id r')))
                         (List.concat rest)) p
      && entity_aligned rest
  end.

(** The table has no id twice, and the id of every record of the first
    [total] partitions once. *)
Definition each_id_once (ds : dataset) (total : nat) (t : Table nat) : Prop :=
  NoDup (ids t)
  /\ forall i p r,
       i < total -> nth_error (partitions ds) i = Some p -> In r p ->
       count_occ Z.eq_dec (ids t) (r_id r) = 1.

Definition all_records (dfs : list DataFrame) : list record :=
  flat_map records dfs.

(** The number of records of entity [e] whose column [l_column l] holds
    the value [l_value l]. *)
Definition record_count (rs : list record) (e : Z) (l : label) : nat :=
  length (filter (fun r => Z.eqb (r_id r) e && takes r l) rs).

(** The number of records of entity [e]. *)
Definition history_length (rs : list record) (e : Z) : nat :=
  length (filter (fun r => Z.eqb (r_id r) e) rs).

Definition has_entity (e : Z) (rs : list record) : bool :=
  existsb (fun r => Z.eqb (r_id r) e) rs.

Definition rows_of {A} (t : Table A) (e : Z) : list (Z * list A) :=
  filter (fun row => Z.eqb (fst row) e) (rows t).

(** Every record has a value in every listed column. *)
Definition no_missing (cols : list string) (rs : list record) : bool :=
  forallb (fun r =>
             forallb (fun c => match cat_value (r_cats r) c with
                               | Some _ => true
                               | None => false
                               end) cols) rs.

(** The toy scenario: 2 partitions, 3 entities, 2 distinct categorical
    columns, each taking exactly 2 values and none missing, every entity
    within one partition. *)
Definition toy_shaped (ds : dataset) : bool :=
  let rs := List.concat (partitions ds) in
  (length (partitions ds) =? 2)
  && (length (sorted_unique (map r_id rs)) =? 3)
  && match ds_columns ds with
     | [c1; c2] => negb (String.eqb c1 c2)
     | _ => false
     end
  && forallb (fun c => length (levels rs c) =? 2) (ds_columns ds)
  && no_missing (ds_columns ds) rs
  && entity_aligned (partitions ds).

(** The files a call writes when its loop runs over [steps]. *)
Definition artifacts (save_to_path : option string) (ds : dataset)
  (num_parts_to_preprocess_at_once : nat) (steps : list nat)
  : list artifact :=
  match truthy save_to_path with
  | Some dir =>
      map (fun step =>
             mkArtifact dir step
               (count_table (batch ds num_parts_to_preprocess_at_once step)))
          steps
  | None => []
  end.

(** The world after the loop ran over [steps]. *)
Definition after_loop (save_to_path : option string) (ds : dataset)
  (num_parts_to_preprocess_at_once : nat) (steps : list nat) (w : world)
  : world :=
  mkWorld (self w) (dirs w)
          (read_log w
             ++ map (fun step => (step, num_parts_to_preprocess_at_once)) steps)
          (sink w ++ artifacts save_to_path ds num_parts_to_preprocess_at_once
                               steps).

(** [t] holds the per-id counts of the frame: one row per id of the
    frame, a column for every (column, value) some record shows, and in
    every cell the number of the id's records that show it. *)
Definition aggregates (df : DataFrame) (t : Table nat) : Prop :=
  NoDup (ids t)
  /\ (forall e, In e (ids t) <-> exists r, In r (records df) /\ r_id r = e)
  /\ (forall r c v,
        In r (records df) -> In c (feature_columns df) ->
        cat_value (r_cats r) c = Some v ->
        exists l, In l (columns t) /\ l_column l = c /\ l_value l = v)
  /\ (forall row l,
        In row (rows t) -> In l (columns t) ->
        cell_at (columns t) (snd row) l
        = Some (record_count (records df) (fst row) l)).

End Schema.

(* ================================================================== *)
(** * Joining labels and writing the submission (cells 25, 27 and 33) *)

Module Pipeline.
Import Frame Array Trainer.

(** A row of [train_data_target]: the id, the flag, then the feature
    cells. *)
Record sample : Type := mkSample {
  s_id : Z;
  s_flag : Z;
  s_cells : list nat
}.

(** [train_target.merge(train_data, on="id")]: the inner join on [id];
    the rows follow the order of the left keys, and a left row pairs with
    every right row of its id, in the right table's order. *)
Definition merge (train_target : list (Z * Z)) (train_data : Table nat)
  : list sample :=
  flat_map (fun tr =>
              map (fun row => mkSample (fst tr) (snd tr) (snd row))
                  (filter (fun row => Z.eqb (fst row) (fst tr))
                          (rows train_data)))
           train_target.

(** The column names of [train_data_target]. *)
Inductive merged_column : Type :=
| MId
| MFlag
| MFeature (l : label).

Definition merged_column_eqb (a b : merged_column) : bool :=
  match a, b with
  | MId, MId => true
  | MFlag, MFlag => true
  | MFeature l, MFeature l' => label_eqb l l'
  | _, _ => false
  end.

Definition merged_columns (train_data : Table nat) : list merged_column :=
  MId :: MFlag :: map MFeature (columns train_data).

(** Python's [list.remove]: drops the first occurrence, and raises when
    there is none. *)
Fixpoint list_remove (x : merged_column) (l : list merged_column)
  : result (list merged_column) :=
  match l with
  | [] => Raise (ValueError "list.remove(x): x not in list")
  | y :: l' =>
      if merged_column_eqb y x then Ok l'
      else match list_remove x l' with
           | Ok r => Ok (y :: r)
           | Raise e => Raise e
           end
  end.

(** Cell 27: [feature_cols] is the column list without [id] and [flag]. *)
Definition feature_cols (train_data : Table nat) : result (list merged_column) :=
  match list_remove MId (merged_columns train_data) with
  | Ok l => list_remove MFlag l
  | Raise e => Raise e
  end.

Section Scoring.

Variable A : Arith.
Variable model : Type.
Variable predict_proba1 : model -> list nat -> num A.

(** One iteration of the loop of cell 33: the columns are selected from
    [test_data] anew for every model, and the model's probabilities over
    the number of models are added to the scores. *)
Definition score_step (models : list model) (feature_cols : list label)
  (test_data : Table nat) (acc : result (list (num A))) (m : model)
  : result (list (num A)) :=
  match acc with
  | Raise e => Raise e
  | Ok score =>
      match select test_data feature_cols with
      | Raise e => Raise e
      | Ok X =>
          Ok (zip_with (add A) score
                (map (fun row => div A (predict_proba1 m (snd row))
                                       (of_nat A (length models)))
                     (rows X)))
      end
  end.

(** Cell 33: the scores start at zero, one per row of [test_data]; the
    submission pairs the ids of [test_data] with them. *)
Definition submission (models : list model) (feature_cols : list label)
  (test_data : Table nat) : result (list (Z * num A)) :=
  match fold_left (score_step models feature_cols test_data) models
                  (Ok (zeros A (length (rows test_data)))) with
  | Raise e => Raise e
  | Ok score => Ok (combine (ids test_data) score)
  end.

End Scoring.

Arguments score_step {A model} predict_proba1 models feature_cols test_data acc m.
Arguments submission {A model} predict_proba1 models feature_cols test_data.

End Pipeline.

(* ================================================================== *)
(** * Further vocabulary *)

Module Measures.
Import Frame Reader Aggregator Schema.

(** The values of column [l], one per row; a row without the column
    counts as 0. *)
Definition column_of (t : Table nat) (l : label) : list nat :=
  map (fun row => match cell_at (columns t) (snd row) l with
                  | Some x => x
                  | None => 0
                  end) (rows t).

(** The records whose column [l_column l] holds the value [l_value l]. *)
Definition taking (l : label) (rs : list record) : list record :=
  filter (fun r => takes r l) rs.

(** The records of a batch that its one-hot column [l] counts: those
    holding the value, when the batch reads the column in the number
    format of [l]; none otherwise. *)
Definition counted_under (l : label) (df : DataFrame) : list record :=
  if Bool.eqb (l_float l) (has_missing (records df) (l_column l))
  then taking l (records df)
  else [].

(** The batches that hold a record of entity [e]. *)
Definition batches_with (e : Z) (dfs : list DataFrame) : list DataFrame :=
  filter (fun df => has_entity e (records df)) dfs.

(** The number of batches of a call: [ceil(total / chunk)]. *)
Definition batch_count (total chunk : nat) : nat := (total + chunk - 1) / chunk.

(** No record of entity [e] has a value in any of the columns. *)
Definition all_missing (cols : list string) (e : Z) (rs : list record) : bool :=
  forallb (fun r =>
             negb (Z.eqb (r_id r) e)
             || forallb (fun c => match cat_value (r_cats r) c with
                                  | Some _ => false
                                  | None => true
                                  end) cols) rs.

End Measures.

(* ================================================================== *)
(** * Facts about lists *)

Module ListFacts.

Lemma Forall2_map_r {A B} (R : A -> B -> Prop) (f : A -> B) (l : list A) :
  (forall x, In x l -> R x (f x)) -> Forall2 R l (map f l).
Proof.
  induction l as [|x l IH]; intros H; simpl; constructor.
  - apply H; left; reflexivity.
  - apply IH. intros y Hy. apply H; right; assumption.
Qed.

Lemma Forall2_compose {A B C} (R : A -> B -> Prop) (S : B -> C -> Prop)
  (T : A -> C -> Prop) (l1 : list A) (l2 : list B) (l3 : list C) :
  (forall a b c, R a b -> S b c -> T a c) ->
  Forall2 R l1 l2 -> Forall2 S l2 l3 -> Forall2 T l1 l3.
Proof.
  intros H H12. revert l3.
  induction H12 as [|a b l1 l2 Hab _ IH]; intros l3 H23;
    inversion H23; subst; constructor; eauto.
Qed.

Lemma Forall2_map_eq {A B C} (R : A -> B -> Prop) (f : A -> C) (g : B -> C)
  (l1 : list A) (l2 : list B) :
  (forall a b, R a b -> f a = g b) ->
  Forall2 R l1 l2 -> map f l1 = map g l2.
Proof.
  intros H. induction 1; simpl; [reflexivity|].
  f_equal; [apply H; assumption | assumption].
Qed.

Lemma flat_map_map {A B C} (f : B -> list C) (g : A -> B) (l : list A) :
  flat_map f (map g l) = flat_map (fun x => f (g x)) l.
Proof. induction l; simpl; [reflexivity | rewrite IHl; reflexivity]. Qed.

Lemma map_flat_map {A B C} (f : B -> C) (g : A -> list B) (l : list A) :
  map f (flat_map g l) = flat_map (fun x => map f (g x)) l.
Proof.
  induction l; simpl; [reflexivity | rewrite map_app, IHl; reflexivity].
Qed.

Lemma flat_map_ext_in {A B} (f g : A -> list B) (l : list A) :
  (forall x, In x l -> f x = g x) -> flat_map f l = flat_map g l.
Proof.
  induction l as [|x l IH]; intros H; simpl; [reflexivity|].
  rewrite H by (left; reflexivity). rewrite IH; [reflexivity|].
  intros y Hy. apply H; right; assumption.
Qed.

Lemma NoDup_flat_map {A B} (f : A -> list B) (l : list A) :
  NoDup l ->
  (forall x, In x l -> NoDup (f x)) ->
  (forall x y b, In x l -> In y l -> In b (f x) -> In b (f y) -> x = y) ->
  NoDup (flat_map f l).
Proof.
  induction 1 as [|x l Hx Hnd IH]; intros Heach Hsep; simpl.
  - constructor.
  - apply NoDup_app.
    + apply Heach; left; reflexivity.
    + apply IH.
      * intros y Hy. apply Heach; right; assumption.
      * intros y z b Hy Hz. apply Hsep; right; assumption.
    + intros b Hb Hb'. apply in_flat_map in Hb'. destruct Hb' as [y [Hy Hby]].
      assert (x = y) by (eapply Hsep; eauto; [left; reflexivity | right; assumption]).
      subst y. contradiction.
Qed.

Lemma filter_none {A} (f : A -> bool) (l : list A) :
  (forall x, In x l -> f x = false) -> filter f l = [].
Proof.
  induction l as [|x l IH]; intros H; simpl; [reflexivity|].
  rewrite (H x) by (left; reflexivity).
  apply IH. intros y Hy. apply H; right; assumption.
Qed.

Lemma filter_map_swap {A B} (f : B -> bool) (g : A -> B) (l : list A) :
  filter f (map g l) = map g (filter (fun x => f (g x)) l).
Proof.
  induction l as [|x l IH]; simpl; [reflexivity|].
  destruct (f (g x)); simpl; rewrite IH; reflexivity.
Qed.

Lemma list_sum_map_add {A} (f g : A -> nat) (l : list A) :
  list_sum (map (fun x => f x + g x) l)
  = list_sum (map f l) + list_sum (map g l).
Proof. induction l as [|x l IH]; simpl; [reflexivity | rewrite IH; lia]. Qed.

Lemma list_sum_map_zero {A} (f : A -> nat) (l : list A) :
  (forall x, In x l -> f x = 0) -> list_sum (map f l) = 0.
Proof.
  induction l as [|x l IH]; intros H; simpl; [reflexivity|].
  rewrite (H x) by (left; reflexivity). rewrite IH; [reflexivity|].
  intros y Hy. apply H; right; assumption.
Qed.

Lemma list_sum_map_const {A} (k : nat) (l : list A) :
  list_sum (map (fun _ => k) l) = length l * k.
Proof. induction l as [|x l IH]; simpl; [reflexivity | rewrite IH; reflexivity]. Qed.

Lemma list_sum_permutation (l l' : list nat) :
  Permutation l l' -> list_sum l = list_sum l'.
Proof. induction 1; simpl; lia. Qed.

Lemma list_sum_map_filter {A} (f : A -> bool) (g : A -> nat) (l : list A) :
  list_sum (map (fun x => if f x then g x else 0) l)
  = list_sum (map g (filter f l)).
Proof.
  induction l as [|x l IH]; simpl; [reflexivity|].
  destruct (f x); simpl; rewrite IH; reflexivity.
Qed.

Lemma list_sum_single {A} (f : A -> nat) (l : list A) (x : A) :
  NoDup l -> In x l -> (forall y, In y l -> y <> x -> f y = 0) ->
  list_sum (map f l) = f x.
Proof.
  induction 1 as [|z l Hz Hnd IH]; intros Hin Hzero; [contradiction|].
  simpl. destruct Hin as [->|Hin].
  - rewrite list_sum_map_zero; [lia|].
    intros y Hy. apply Hzero; [right; assumption|]. intros ->. contradiction.
  - rewrite (Hzero z) by (try (left; reflexivity); intros ->; contradiction).
    simpl. apply IH; [assumption|].
    intros y Hy. apply Hzero. right; assumption.
Qed.

Lemma NoDup_app_disjoint {A} (l l' : list A) (a : A) :
  NoDup (l ++ l') -> In a l -> ~ In a l'.
Proof.
  induction l as [|x l IH]; intros Hnd Hin Hin'; [contradiction|].
  simpl in Hnd. inversion Hnd as [|? ? Hx Hnd']; subst.
  destruct Hin as [->|Hin].
  - apply Hx. apply in_or_app. right; assumption.
  - apply IH; assumption.
Qed.

Lemma fold_left_filter {A B} (f : B -> bool) (g : A -> B -> A) (l : list B) (a : A) :
  fold_left (fun acc x => if f x then g acc x else acc) l a
  = fold_left g (filter f l) a.
Proof.
  revert a. induction l as [|x l IH]; intros a; simpl; [reflexivity|].
  destruct (f x); simpl; apply IH.
Qed.

End ListFacts.

(* ================================================================== *)
(** * Facts about tables *)

Module FrameFacts.
Import Frame ListFacts.

Lemma label_eqb_eq (a b : label) : label_eqb a b = true <-> a = b.
Proof.
  destruct a as [c v f], b as [c' v' f']; unfold label_eqb; simpl.
  rewrite !andb_true_iff, String.eqb_eq, Z.eqb_eq, Bool.eqb_true_iff.
  split; [intros [[-> ->] ->]; reflexivity | intros H; inversion H; auto].
Qed.

Lemma label_eqb_refl (a : label) : label_eqb a a = true.
Proof. apply label_eqb_eq; reflexivity. Qed.

Lemma label_eqb_neq (a b : label) : label_eqb a b = false <-> a <> b.
Proof.
  rewrite <- label_eqb_eq. destruct (label_eqb a b); split; congruence.
Qed.

Lemma label_eqb_sym (a b : label) : label_eqb a b = label_eqb b a.
Proof.
  destruct (label_eqb b a) eqn:H.
  - apply label_eqb_eq in H. subst. apply label_eqb_refl.
  - apply label_eqb_neq. apply label_eqb_neq in H. congruence.
Qed.

Lemma mem_In (l : label) (ls : list label) : mem l ls = true <-> In l ls.
Proof.
  unfold mem. rewrite existsb_exists. split.
  - intros [x [Hin Heq]]. apply label_eqb_eq in Heq. subst; assumption.
  - intros Hin. exists l. split; [assumption | apply label_eqb_refl].
Qed.

Lemma mem_not_In (l : label) (ls : list label) : mem l ls = false <-> ~ In l ls.
Proof.
  rewrite <- mem_In. destruct (mem l ls); split; congruence.
Qed.

Lemma mem_app (l : label) (xs ys : list label) :
  mem l (xs ++ ys) = mem l xs || mem l ys.
Proof. unfold mem. apply existsb_app. Qed.

Lemma mem_snoc (l c : label) (xs : list label) :
  mem l (xs ++ [c]) = mem l xs || label_eqb l c.
Proof. rewrite mem_app. unfold mem at 2. simpl. rewrite orb_false_r. reflexivity. Qed.

(** ** Sorted distinct values *)

Lemma insert_level_In (v y : Z) (l : list Z) :
  In y (insert_level v l) <-> y = v \/ In y l.
Proof.
  induction l as [|x l IH]; simpl.
  - intuition.
  - destruct (v <? x)%Z eqn:Hlt; [simpl; intuition|].
    destruct (v =? x)%Z eqn:Heq.
    + apply Z.eqb_eq in Heq. subst. simpl. intuition.
    + simpl. rewrite IH. intuition.
Qed.

Lemma sorted_unique_In (y : Z) (l : list Z) :
  In y (sorted_unique l) <-> In y l.
Proof.
  induction l as [|x l IH]; simpl; [reflexivity|].
  rewrite insert_level_In, IH. intuition.
Qed.

Lemma insert_level_sorted (v : Z) (l : list Z) :
  StronglySorted Z.lt l -> StronglySorted Z.lt (insert_level v l).
Proof.
  induction 1 as [|x l Hs IH Hall]; simpl.
  - repeat constructor.
  - destruct (v <? x)%Z eqn:Hlt.
    + apply Z.ltb_lt in Hlt. constructor.
      * constructor; assumption.
      * constructor; [assumption|].
        eapply Forall_impl; [|exact Hall]. intros; lia.
    + destruct (v =? x)%Z eqn:Heq.
      * constructor; assumption.
      * apply Z.ltb_ge in Hlt. apply Z.eqb_neq in Heq.
        constructor; [assumption|].
        apply Forall_forall. intros y Hy.
        apply insert_level_In in Hy. destruct Hy as [->|Hy]; [lia|].
        rewrite Forall_forall in Hall. auto.
Qed.

Lemma sorted_unique_sorted (l : list Z) : StronglySorted Z.lt (sorted_unique l).
Proof.
  induction l; simpl; [constructor | apply insert_level_sorted; assumption].
Qed.

Lemma strictly_sorted_NoDup (l : list Z) : StronglySorted Z.lt l -> NoDup l.
Proof.
  induction 1 as [|x l Hs IH Hall]; constructor; [|assumption].
  intros Hin. rewrite Forall_forall in Hall. specialize (Hall _ Hin). lia.
Qed.

Lemma sorted_unique_NoDup (l : list Z) : NoDup (sorted_unique l).
Proof. apply strictly_sorted_NoDup, sorted_unique_sorted. Qed.

(** ** Column union *)

Lemma union_columns_In (l : label) (xs seen : list label) :
  In l (union_columns seen xs) <-> In l xs /\ ~ In l seen.
Proof.
  revert seen. induction xs as [|x xs IH]; intros seen; simpl.
  - tauto.
  - destruct (mem x seen) eqn:Hm.
    + apply mem_In in Hm. rewrite IH. split.
      * intros [H1 H2]. auto.
      * intros [[->|H1] H2]; [contradiction | auto].
    + apply mem_not_In in Hm. simpl. rewrite IH. simpl. split.
      * intros [->|[H1 H2]]; [auto|]. split; [auto|]. intros H; apply H2; auto.
      * intros [[->|H1] H2]; [auto|].
        destruct (label_eqb x l) eqn:He.
        -- apply label_eqb_eq in He. auto.
        -- apply label_eqb_neq in He. right. split; [assumption|].
           intros [H|H]; [contradiction | contradiction].
Qed.

Lemma union_columns_NoDup (xs seen : list label) :
  NoDup (union_columns seen xs).
Proof.
  revert seen. induction xs as [|x xs IH]; intros seen; simpl.
  - constructor.
  - destruct (mem x seen); [apply IH|].
    constructor; [|apply IH].
    rewrite union_columns_In. simpl. tauto.
Qed.

(** ** Cell lookup *)

Lemma cell_at_map {A} (g : label -> A) (cols : list label) (l : label) :
  cell_at cols (map g cols) l = if mem l cols then Some (g l) else None.
Proof.
  induction cols as [|c cols IH]; simpl; [reflexivity|].
  destruct (label_eqb c l) eqn:He.
  - apply label_eqb_eq in He. subst. unfold mem. simpl.
    rewrite label_eqb_refl. reflexivity.
  - rewrite IH. unfold mem. simpl.
    rewrite (label_eqb_sym l c), He. reflexivity.
Qed.

Lemma cell_at_None {A} (cols : list label) (cells : list A) (l : label) :
  ~ In l cols -> cell_at cols cells l = None.
Proof.
  revert cells. induction cols as [|c cols IH]; intros cells Hn; simpl.
  - reflexivity.
  - destruct cells as [|x cells]; [reflexivity|].
    destruct (label_eqb c l) eqn:He.
    + apply label_eqb_eq in He. subst. exfalso. apply Hn. left; reflexivity.
    + apply IH. intros H. apply Hn. right; assumption.
Qed.

Lemma cell_at_set_cell {A} (cols : list label) (cells : list A)
  (l l' : label) (v : A) :
  length cells = length cols ->
  cell_at cols (set_cell cols cells l v) l' =
    if label_eqb l l' then (if mem l cols then Some v else None)
    else cell_at cols cells l'.
Proof.
  revert cells. induction cols as [|c cols IH]; intros cells Hlen.
  - destruct cells; simpl; destruct (label_eqb l l'); reflexivity.
  - destruct cells as [|x cells]; [discriminate|]. simpl in Hlen.
    injection Hlen as Hlen. specialize (IH cells Hlen). simpl.
    destruct (label_eqb c l) eqn:Hcl.
    + apply label_eqb_eq in Hcl. subst c. simpl. rewrite label_eqb_refl. simpl.
      destruct (label_eqb l l') eqn:Hll; [reflexivity | apply IH].
    + simpl. destruct (label_eqb c l') eqn:Hcl'.
      * apply label_eqb_eq in Hcl'. subst c.
        rewrite (label_eqb_sym l l'), Hcl. reflexivity.
      * rewrite IH. unfold mem. simpl.
        rewrite (label_eqb_sym l c), Hcl. reflexivity.
Qed.

Lemma set_cell_length {A} (cols : list label) (cells : list A) l v :
  length (set_cell cols cells l v) = length cells.
Proof.
  revert cells. induction cols as [|c cols IH]; intros [|x cells]; simpl; auto.
  destruct (label_eqb c l); simpl; rewrite IH; reflexivity.
Qed.

Lemma cell_at_snoc {A} (cols : list label) (cells : list A)
  (l l' : label) (v : A) :
  length cells = length cols ->
  cell_at (cols ++ [l]) (cells ++ [v]) l' =
    match cell_at cols cells l' with
    | Some x => Some x
    | None => if label_eqb l l' then Some v else None
    end.
Proof.
  revert cells. induction cols as [|c cols IH]; intros cells Hlen.
  - destruct cells; [|discriminate]. simpl. reflexivity.
  - destruct cells as [|x cells]; [discriminate|]. simpl in Hlen.
    injection Hlen as Hlen. simpl.
    destruct (label_eqb c l'); [reflexivity | apply IH; assumption].
Qed.

Lemma mem_name_In (n : string) (ns : list string) :
  mem_name n ns = true <-> In n ns.
Proof.
  unfold mem_name. rewrite existsb_exists. split.
  - intros [x [Hin Heq]]. apply String.eqb_eq in Heq. subst; assumption.
  - intros Hin. exists n. split; [assumption | apply String.eqb_refl].
Qed.

Lemma mem_name_not_In (n : string) (ns : list string) :
  mem_name n ns = false <-> ~ In n ns.
Proof.
  rewrite <- mem_name_In. destruct (mem_name n ns); split; congruence.
Qed.

(** ** Column names *)

Lemma absent_append (a : ascii) (s s' : string) :
  absent a (s ++ s') = absent a s && absent a s'.
Proof.
  induction s as [|b s IH]; simpl; [reflexivity|].
  rewrite IH. apply andb_assoc.
Qed.

Lemma absent_separator (a : ascii) (s s' : string) :
  absent a (s ++ String a s') = false.
Proof.
  rewrite absent_append. simpl. rewrite Ascii.eqb_refl. simpl.
  apply andb_false_r.
Qed.

(** A string is cut in one way only at a separator that does not occur
    after the cut. *)
Lemma append_separator_inj (a : ascii) (c1 c2 s1 s2 : string) :
  absent a s1 = true -> absent a s2 = true ->
  (c1 ++ String a s1)%string = (c2 ++ String a s2)%string ->
  c1 = c2 /\ s1 = s2.
Proof.
  intros H1 H2. revert c2.
  induction c1 as [|b c1 IH]; intros [|b' c2] Heq; simpl in Heq.
  - injection Heq as ->. auto.
  - injection Heq as <- ->. rewrite absent_separator in H1. discriminate.
  - injection Heq as -> <-. rewrite absent_separator in H2. discriminate.
  - injection Heq as -> Heq. destruct (IH c2 Heq) as [-> ->]. auto.
Qed.

Lemma digits_plain (a : ascii) (d : Decimal.uint) :
  (a = "_" \/ a = ".")%char ->
  absent a (NilEmpty.string_of_uint d) = true.
Proof.
  intros Ha. induction d; simpl; try reflexivity; rewrite IHd;
    destruct Ha as [-> | ->]; reflexivity.
Qed.

(** The decimal digits of an integer hold neither [_] nor [.]. *)
Lemma format_int_plain (a : ascii) (v : Z) :
  (a = "_" \/ a = ".")%char -> absent a (format_int v) = true.
Proof.
  intros Ha. unfold format_int.
  assert (Hu : forall d, absent a (NilZero.string_of_uint d) = true).
  { intros d. destruct d; try (apply (digits_plain a _ Ha)).
    destruct Ha as [-> | ->]; reflexivity. }
  destruct (Z.to_int v) as [d|d]; simpl; [apply Hu|].
  rewrite Hu. destruct Ha as [-> | ->]; reflexivity.
Qed.

Lemma format_int_inj (v v' : Z) : format_int v = format_int v' -> v = v'.
Proof.
  unfold format_int. intros H.
  assert (Hparse : forall z, NilZero.int_of_string
                               (NilZero.string_of_int (Z.to_int z))
                             = Some (Z.to_int z)).
  { intros z. apply NilZero.isi; destruct z; simpl; try discriminate;
      intros Heq; injection Heq as Heq;
      exact (Unsigned.to_uint_nonnil _ Heq). }
  apply DecimalZ.to_int_inj.
  pose proof (Hparse v) as Hv. rewrite H, Hparse in Hv.
  injection Hv as Hv. symmetry. exact Hv.
Qed.

Lemma format_value_plain (v : Z) (f : bool) :
  absent "_" (format_value v f) = true.
Proof.
  unfold format_value. destruct f.
  - rewrite absent_append, format_int_plain by auto. reflexivity.
  - apply format_int_plain. auto.
Qed.

Lemma format_value_inj (v v' : Z) (f f' : bool) :
  format_value v f = format_value v' f' -> v = v' /\ f = f'.
Proof.
  unfold format_value. intros H.
  assert (Hdot : forall z z' s, (format_int z ++ String "." s)%string
                                <> format_int z').
  { intros z z' s Heq.
    pose proof (format_int_plain "." z' (or_intror eq_refl)) as Hp.
    rewrite <- Heq, absent_separator in Hp. discriminate. }
  destruct f, f'.
  - apply (append_separator_inj "." _ _ "0" "0") in H;
      [|reflexivity|reflexivity].
    destruct H as [H _]. split; [apply format_int_inj; assumption | reflexivity].
  - exfalso. exact (Hdot v v' "0"%string H).
  - exfalso. symmetry in H. exact (Hdot v' v "0"%string H).
  - split; [apply format_int_inj; assumption | reflexivity].
Qed.

(** Different one-hot columns carry different pandas names: comparing
    labels is comparing column names. *)
Lemma name_inj (a b : label) : name a = name b -> a = b.
Proof.
  destruct a as [c v f], b as [c' v' f']. unfold name. simpl. intros H.
  apply append_separator_inj in H; try apply format_value_plain.
  destruct H as [-> H]. apply format_value_inj in H.
  destruct H as [-> ->]. reflexivity.
Qed.

Lemma names_NoDup (ls : list label) : NoDup ls -> NoDup (map name ls).
Proof.
  intros H. apply NoDup_map_NoDup_ForallPairs; [|assumption].
  intros a b _ _. apply name_inj.
Qed.

End FrameFacts.

(* ================================================================== *)
(** * Facts about the aggregator *)

Module AggregatorFacts.
Import Frame Reader Aggregator Schema ListFacts FrameFacts.

(** What [t[l] = v] does to the columns, the ids and every cell. *)
Lemma set_column_spec {A} (t : Table A) (l : label) (v : A) :
  well_formed t ->
  well_formed (set_column t l v)
  /\ (forall x, In x (columns (set_column t l v)) <-> In x (columns t) \/ x = l)
  /\ Forall2 (fun row row' =>
                fst row' = fst row
                /\ forall l', cell_at (columns (set_column t l v)) (snd row') l'
                              = if label_eqb l l' then Some v
                                else cell_at (columns t) (snd row) l')
             (rows t) (rows (set_column t l v)).
Proof.
  intros Hwf. unfold well_formed in *. unfold set_column.
  destruct (mem l (columns t)) eqn:Hm; simpl.
  - split; [|split].
    + rewrite Forall_map. eapply Forall_impl; [|exact Hwf].
      intros row Hrow. simpl in Hrow |- *. rewrite set_cell_length. assumption.
    + intros x. apply mem_In in Hm. split; [auto|].
      intros [H| ->]; assumption.
    + apply Forall2_map_r. intros row Hin. simpl. split; [reflexivity|].
      intros l'. rewrite Forall_forall in Hwf.
      rewrite cell_at_set_cell by (apply Hwf; assumption).
      rewrite Hm. reflexivity.
  - split; [|split].
    + rewrite Forall_map. eapply Forall_impl; [|exact Hwf].
      intros row Hrow. simpl in Hrow |- *. rewrite !length_app. simpl. lia.
    + intros x. rewrite in_app_iff. simpl. intuition.
    + apply Forall2_map_r. intros row Hin. simpl. split; [reflexivity|].
      intros l'. rewrite Forall_forall in Hwf.
      rewrite cell_at_snoc by (apply Hwf; assumption).
      destruct (label_eqb l l') eqn:He.
      * apply label_eqb_eq in He. subst l'.
        rewrite cell_at_None; [reflexivity|]. apply mem_not_In; assumption.
      * destruct (cell_at (columns t) (snd row) l'); reflexivity.
Qed.

(** The zero-fill loop adds exactly the schema columns the call did not
    observe, as zeros, and leaves every other cell alone. *)
Lemma zero_fill_spec (dummy_features encoded : list label) (t0 t : Table nat)
  (done : list label) :
  well_formed t ->
  (forall x, In x (columns t) <->
             In x (columns t0) \/ (In x done /\ ~ In x dummy_features)) ->
  Forall2 (fun row0 row =>
             fst row = fst row0
             /\ forall l', cell_at (columns t) (snd row) l'
                           = if mem l' done && negb (mem l' dummy_features)
                             then Some 0
                             else cell_at (columns t0) (snd row0) l')
          (rows t0) (rows t) ->
  let t' := zero_fill dummy_features encoded t in
  well_formed t'
  /\ (forall x, In x (columns t') <->
                In x (columns t0)
                \/ (In x (done ++ encoded) /\ ~ In x dummy_features))
  /\ Forall2 (fun row0 row =>
                fst row = fst row0
                /\ forall l', cell_at (columns t') (snd row) l'
                              = if mem l' (done ++ encoded)
                                   && negb (mem l' dummy_features)
                                then Some 0
                                else cell_at (columns t0) (snd row0) l')
             (rows t0) (rows t').
Proof.
  revert t done. induction encoded as [|col encoded IH];
    intros t done Hwf Hcols Hrows; simpl.
  - rewrite app_nil_r. auto.
  - unfold zero_fill in *. simpl.
    replace (done ++ col :: encoded) with ((done ++ [col]) ++ encoded)
      by (rewrite <- app_assoc; reflexivity).
    destruct (mem col dummy_features) eqn:Hm; simpl.
    + apply IH; [assumption| |].
      * intros x. rewrite Hcols, in_app_iff. simpl.
        apply mem_In in Hm. split; [tauto|].
        intros [H|[[H|[->|[]]] Hn]]; tauto.
      * eapply Forall2_impl; [|exact Hrows].
        intros row0 row [Hid Hcell]. split; [assumption|].
        intros l'. rewrite Hcell, mem_snoc.
        destruct (label_eqb l' col) eqn:He; [|rewrite orb_false_r; reflexivity].
        apply label_eqb_eq in He. subst l'. rewrite Hm. simpl.
        rewrite !andb_false_r. reflexivity.
    + destruct (set_column_spec t col 0 Hwf) as [Hwf' [Hcols' Hrows']].
      apply IH; [assumption| |].
      * intros x. rewrite Hcols', Hcols, in_app_iff. simpl.
        apply mem_not_In in Hm. split.
        -- intros [[H|[H1 H2]]| ->]; tauto.
        -- intros [H|[[H|[->|[]]] Hn]]; tauto.
      * eapply Forall2_compose; [|exact Hrows|exact Hrows'].
        intros row0 row row' [Hid Hcell] [Hid' Hcell']. simpl in *.
        split; [congruence|].
        intros l'. rewrite Hcell', Hcell, mem_snoc, (label_eqb_sym l' col).
        destruct (label_eqb col l') eqn:He.
        -- apply label_eqb_eq in He. subst l'. rewrite Hm, orb_true_r.
           reflexivity.
        -- rewrite orb_false_r. reflexivity.
Qed.

(** Concatenating the per-batch aggregates and filling the gaps lays
    every batch row out on the union of the batches' columns. *)
Lemma concat_fillna (dfs : list DataFrame) :
  dfs <> [] ->
  exists T,
    concat (map count_table dfs) = Ok T
    /\ fillna 0 T = mkTable (observed_columns dfs)
                            (aligned_rows (observed_columns dfs) dfs).
Proof.
  intros Hne. destruct dfs as [|df0 dfs']; [congruence|].
  remember (df0 :: dfs') as dfs eqn:Hdfs.
  assert (Hc : concat (map count_table dfs)
               = Ok (mkTable
                       (union_columns []
                          (flat_map columns (map count_table dfs)))
                       (flat_map
                          (reindex
                             (union_columns []
                                (flat_map columns (map count_table dfs))))
                          (map count_table dfs)))).
  { subst dfs. reflexivity. }
  eexists. split; [exact Hc|]. clear Hc Hdfs Hne.
  unfold fillna, observed_columns. simpl.
  rewrite !flat_map_map. simpl.
  f_equal. rewrite map_flat_map. unfold aligned_rows.
  apply flat_map_ext_in. intros df _.
  unfold reindex, count_table, groupby_sum. simpl.
  rewrite !map_map. apply map_ext. intros e. simpl.
  unfold aligned_row. f_equal. rewrite map_map. apply map_ext. intros l.
  rewrite cell_at_map.
  destruct (mem l (get_dummies_columns df)); reflexivity.
Qed.

Lemma aligned_rows_well_formed (schema : list label) (dfs : list DataFrame) :
  well_formed (mkTable schema (aligned_rows schema dfs)).
Proof.
  unfold well_formed, aligned_rows. simpl.
  apply Forall_forall. intros row Hin.
  apply in_flat_map in Hin. destruct Hin as [df [_ Hin]].
  apply in_map_iff in Hin. destruct Hin as [e [<- _]].
  simpl. apply length_map.
Qed.

Lemma batch_columns_observed (dfs : list DataFrame) (df : DataFrame) (l : label) :
  In df dfs -> In l (get_dummies_columns df) -> In l (observed_columns dfs).
Proof.
  intros Hdf Hl. unfold observed_columns. apply union_columns_In.
  split; [|intros []]. apply in_flat_map. exists df. auto.
Qed.

(** Selecting observed columns from the laid-out table lays the rows out
    on the selection. *)
Lemma select_aligned (dfs : list DataFrame) (schema cols : list label) :
  (forall l, In l cols -> In l schema) ->
  select (mkTable schema (aligned_rows schema dfs)) cols
  = Ok (mkTable cols (aligned_rows cols dfs)).
Proof.
  intros Hsub. unfold select. simpl.
  replace (forallb (fun l => mem l schema) cols) with true.
  2:{ symmetry. apply forallb_forall. intros l Hl. apply mem_In. auto. }
  f_equal. f_equal. unfold aligned_rows. rewrite map_flat_map.
  apply flat_map_ext_in. intros df _. rewrite map_map.
  apply map_ext. intros e. unfold aligned_row. simpl. f_equal.
  apply map_ext_in. intros l Hl. rewrite cell_at_map.
  replace (mem l schema) with true; [reflexivity|].
  symmetry. apply mem_In. auto.
Qed.

(** Transform mode: after the zero-fill loop, selecting the frozen
    schema lays every batch row out on that schema. *)
Lemma select_zero_fill (dfs : list DataFrame) (encoded : list label) :
  select (zero_fill (observed_columns dfs) encoded
            (mkTable (observed_columns dfs)
                     (aligned_rows (observed_columns dfs) dfs)))
         encoded
  = Ok (mkTable encoded (aligned_rows encoded dfs)).
Proof.
  set (U := observed_columns dfs).
  set (t0 := mkTable U (aligned_rows U dfs)).
  destruct (zero_fill_spec U encoded t0 t0 [])
    as [Hwf [Hcols Hrows]].
  - apply aligned_rows_well_formed.
  - intros x. simpl. tauto.
  - apply Forall2_flip. simpl.
    replace (aligned_rows U dfs) with (map (fun x => x) (aligned_rows U dfs)) at 2
      by apply map_id.
    apply Forall2_map_r. intros row _. split; reflexivity.
  - simpl in Hcols, Hrows. unfold select.
    replace (forallb _ encoded) with true.
    2:{ symmetry. apply forallb_forall. intros l Hl. apply mem_In, Hcols.
        destruct (mem l U) eqn:Hm.
        - left. apply mem_In; assumption.
        - right. split; [assumption | apply mem_not_In; assumption]. }
    f_equal. f_equal.
    transitivity
      (map (fun row0 : Z * list nat =>
              (fst row0,
               map (fun l => if mem l U
                             then match cell_at U (snd row0) l with
                                  | Some x => x
                                  | None => 0
                                  end
                             else 0) encoded))
           (aligned_rows U dfs)).
    + symmetry. eapply Forall2_map_eq; [|exact Hrows].
      intros row0 row [Hid Hcell]. simpl. rewrite Hid. f_equal.
      apply map_ext_in. intros l Hl. rewrite Hcell.
      replace (mem l encoded) with true by (symmetry; apply mem_In; assumption).
      simpl. destruct (mem l U); reflexivity.
    + unfold aligned_rows. rewrite map_flat_map.
      apply flat_map_ext_in. intros df Hdf. rewrite map_map.
      apply map_ext. intros e. unfold aligned_row. simpl. f_equal.
      apply map_ext. intros l. rewrite cell_at_map.
      destruct (mem l U) eqn:Hm; [reflexivity|].
      destruct (mem l (get_dummies_columns df)) eqn:Hm'; [|reflexivity].
      exfalso. apply mem_not_In in Hm. apply Hm.
      apply (batch_columns_observed dfs df); [assumption|].
      apply mem_In; assumption.
Qed.

(** ** The loop body *)

Lemma read_in_range (ds : dataset) (start n : nat) :
  in_range ds n start = true ->
  read_parquet_dataset_from_local ds start n = Ok (batch ds n start).
Proof.
  unfold in_range, read_parquet_dataset_from_local, batch. intros ->.
  reflexivity.
Qed.

Lemma read_out_of_range (ds : dataset) (start n : nat) :
  in_range ds n start = false ->
  read_parquet_dataset_from_local ds start n = Raise missing_partition.
Proof.
  unfold in_range, read_parquet_dataset_from_local. intros ->. reflexivity.
Qed.

(** After the drop, the selection of the one-hot columns succeeds
    exactly when none of them is named like a categorical column. *)
Lemma selection_after_drop (cols : list string) (dummies : list label) :
  forallb (fun l => mem_name (name l)
                      (drop_columns cols
                         ("id"%string :: "rn"%string
                            :: cols ++ map name dummies))) dummies
  = forallb (fun l => negb (mem_name (name l) cols)) dummies.
Proof.
  assert (H : forall l, In l dummies ->
            mem_name (name l)
              (drop_columns cols
                 ("id"%string :: "rn"%string :: cols ++ map name dummies))
            = negb (mem_name (name l) cols)).
  { intros l Hl. destruct (mem_name (name l) cols) eqn:Hc; cbn [negb].
    - apply mem_name_not_In. unfold drop_columns. rewrite filter_In.
      intros [_ Hn]. rewrite Hc in Hn. discriminate.
    - apply mem_name_In. unfold drop_columns. apply filter_In.
      split; [|rewrite Hc; reflexivity].
      right. right. apply in_or_app. right. apply in_map. assumption. }
  revert H. generalize (drop_columns cols
                          ("id"%string :: "rn"%string
                             :: cols ++ map name dummies)) as kept.
  intros kept H. induction dummies as [|l dummies IH]; [reflexivity|].
  simpl. rewrite (H l) by (left; reflexivity).
  rewrite IH; [reflexivity|]. intros l' Hl'. apply H. right; assumption.
Qed.

Lemma extract_encodable (df : DataFrame) (mode : string) :
  encodable df = true ->
  extract_count_aggregations df mode = Ok (count_table df).
Proof.
  unfold encodable, extract_count_aggregations, count_table.
  destruct (feature_columns df) as [|c cols] eqn:Hcols; [discriminate|].
  intros H. rewrite selection_after_drop, H. reflexivity.
Qed.

Lemma extract_not_encodable (df : DataFrame) (mode : string) :
  encodable df = false ->
  (feature_columns df = []
   /\ extract_count_aggregations df mode = Raise no_objects)
  \/ (feature_columns df <> []
      /\ extract_count_aggregations df mode = Raise KeyError).
Proof.
  unfold encodable, extract_count_aggregations.
  destruct (feature_columns df) as [|c cols] eqn:Hcols; [auto|].
  intros H. rewrite selection_after_drop, H. right.
  split; [discriminate | reflexivity].
Qed.

Lemma writable_dirs (save_to_path : option string) (w w' : world) :
  dirs w' = dirs w -> writable save_to_path w' = writable save_to_path w.
Proof. unfold writable. intros ->. reflexivity. Qed.

Lemma artifacts_app (save_to_path : option string) (ds : dataset)
  (chunk : nat) (steps steps' : list nat) :
  artifacts save_to_path ds chunk (steps ++ steps')
  = artifacts save_to_path ds chunk steps
    ++ artifacts save_to_path ds chunk steps'.
Proof.
  unfold artifacts. destruct (truthy save_to_path); [apply map_app | reflexivity].
Qed.

Lemma process_step_ready (ds : dataset) (chunk : nat) (mode : string)
  (save_to_path : option string) (step : nat) (w : world) :
  step_ready ds chunk step = true -> writable save_to_path w = true ->
  process_step ds chunk mode save_to_path step w
  = (Ok (count_table (batch ds chunk step)),
     after_loop save_to_path ds chunk [step] w).
Proof.
  unfold step_ready, writable, after_loop, artifacts. intros Hready Hw.
  apply andb_true_iff in Hready. destruct Hready as [Hin Henc].
  unfold process_step, bind, log_read, lift.
  rewrite (read_in_range _ _ _ Hin), (extract_encodable _ mode Henc).
  destruct (truthy save_to_path) as [dir|].
  - unfold to_parquet. cbn [dirs]. rewrite Hw. reflexivity.
  - unfold ret. simpl. rewrite app_nil_r. reflexivity.
Qed.

Lemma process_step_stuck (ds : dataset) (chunk : nat) (mode : string)
  (save_to_path : option string) (step : nat) (w : world) :
  step_ready ds chunk step && writable save_to_path w = false ->
  exists e,
    process_step ds chunk mode save_to_path step w
    = (Raise e, mkWorld (self w) (dirs w) (read_log w ++ [(step, chunk)])
                        (sink w))
    /\ In e loop_errors.
Proof.
  unfold step_ready, writable, loop_errors. intros Hstuck.
  unfold process_step, bind, log_read, lift.
  destruct (in_range ds chunk step) eqn:Hin.
  2:{ rewrite (read_out_of_range _ _ _ Hin). eexists. split; [reflexivity|].
      simpl. auto. }
  rewrite (read_in_range _ _ _ Hin).
  destruct (encodable (batch ds chunk step)) eqn:Henc.
  2:{ destruct (extract_not_encodable _ mode Henc) as [[_ ->]|[_ ->]];
        eexists; (split; [reflexivity|]); simpl; auto. }
  rewrite (extract_encodable _ mode Henc). simpl in Hstuck.
  destruct (truthy save_to_path) as [dir|]; [|discriminate].
  unfold to_parquet. cbn [dirs]. rewrite Hstuck.
  eexists. split; [reflexivity|]. simpl. auto.
Qed.

(** ** The loop *)

(** When every batch can be read and encoded and the sink written,
    the loop returns the batches' count tables, having logged every read
    and written every file. *)
Lemma batch_loop_ready (ds : dataset) (chunk : nat) (mode : string)
  (save_to_path : option string) (steps : list nat) (w : world) :
  forallb (step_ready ds chunk) steps = true ->
  writable save_to_path w = true ->
  batch_loop ds chunk mode save_to_path steps w
  = (Ok (map count_table (batches ds chunk steps)),
     after_loop save_to_path ds chunk steps w).
Proof.
  unfold batch_loop. revert w.
  induction steps as [|step steps IH]; intros w Hall Hw.
  - simpl. unfold ret, after_loop, artifacts. destruct w as [a d r s]; simpl.
    destruct (truthy save_to_path); simpl; rewrite !app_nil_r; reflexivity.
  - simpl in Hall. apply andb_true_iff in Hall. destruct Hall as [Hstep Hall].
    simpl for_each. unfold bind at 1.
    rewrite (process_step_ready _ _ _ _ _ _ Hstep Hw).
    unfold bind at 1. rewrite IH; [|assumption|].
    + unfold ret, after_loop. cbn [self dirs read_log sink].
      change (step :: steps) with ([step] ++ steps).
      rewrite artifacts_app, map_app, <- !app_assoc. reflexivity.
    + rewrite (writable_dirs _ w); [assumption | reflexivity].
Qed.

(** Otherwise the loop stops at the first batch that cannot be
    processed: that batch is the last one read, the batches before it
    are written, and the error is one of the loop body's. *)
Lemma batch_loop_stuck (ds : dataset) (chunk : nat) (mode : string)
  (save_to_path : option string) (steps : list nat) (w : world) :
  steps <> [] ->
  forallb (step_ready ds chunk) steps && writable save_to_path w = false ->
  exists e done step rest,
    steps = done ++ step :: rest
    /\ batch_loop ds chunk mode save_to_path steps w
       = (Raise e,
          mkWorld (self w) (dirs w)
                  (read_log w ++ map (fun s => (s, chunk)) (done ++ [step]))
                  (sink w ++ artifacts save_to_path ds chunk done))
    /\ In e loop_errors.
Proof.
  unfold batch_loop. revert w.
  induction steps as [|step steps IH]; intros w Hne Hstuck; [congruence|].
  destruct (step_ready ds chunk step && writable save_to_path w) eqn:Hstep.
  - apply andb_true_iff in Hstep. destruct Hstep as [Hstep Hw].
    simpl in Hstuck. rewrite Hstep, Hw in Hstuck. simpl in Hstuck.
    rewrite andb_true_r in Hstuck.
    assert (Hne' : steps <> []) by (intros ->; discriminate).
    assert (Hw' : writable save_to_path
                    (after_loop save_to_path ds chunk [step] w) = true).
    { rewrite (writable_dirs _ w); [assumption | reflexivity]. }
    destruct (IH (after_loop save_to_path ds chunk [step] w) Hne')
      as [e [done [step' [rest [Hsteps [Hrun He]]]]]].
    { rewrite Hstuck. reflexivity. }
    exists e, (step :: done), step', rest.
    split; [rewrite Hsteps; reflexivity|]. split; [|exact He].
    simpl for_each. unfold bind at 1.
    rewrite (process_step_ready _ _ _ _ _ _ Hstep Hw).
    unfold bind at 1. rewrite Hrun.
    unfold after_loop. cbn [self dirs read_log sink].
    change (step :: done) with ([step] ++ done).
    rewrite artifacts_app, <- !app_assoc, !map_app, <- ?app_assoc.
    reflexivity.
  - destruct (process_step_stuck _ _ mode _ _ _ Hstep) as [e [Hrun He]].
    exists e, [], step, steps.
    split; [reflexivity|]. split; [|exact He].
    simpl for_each. unfold bind at 1. rewrite Hrun.
    unfold artifacts. destruct (truthy save_to_path); simpl;
      rewrite app_nil_r; reflexivity.
Qed.

(** The outcome of the loop body depends on the world through the
    directories only, and it leaves the aggregator and the directories
    as they are. *)
Lemma process_step_ext (ds : dataset) (chunk : nat) (mode : string)
  (save_to_path : option string) (step : nat) (w1 w2 : world) :
  dirs w1 = dirs w2 ->
  fst (process_step ds chunk mode save_to_path step w1)
  = fst (process_step ds chunk mode save_to_path step w2)
  /\ dirs (snd (process_step ds chunk mode save_to_path step w1)) = dirs w1
  /\ dirs (snd (process_step ds chunk mode save_to_path step w2)) = dirs w2.
Proof.
  intros Hd. unfold process_step, bind, log_read, lift.
  destruct (read_parquet_dataset_from_local ds step chunk) as [df|e];
    [|simpl; auto].
  destruct (extract_count_aggregations df mode) as [f|e]; [|simpl; auto].
  destruct (truthy save_to_path) as [dir|]; [|simpl; auto].
  unfold to_parquet. cbn [dirs]. rewrite Hd.
  destruct (mem_name dir (dirs w2)); simpl; auto.
Qed.

Lemma batch_loop_ext (ds : dataset) (chunk : nat) (mode : string)
  (save_to_path : option string) (steps : list nat) (w1 w2 : world) :
  dirs w1 = dirs w2 ->
  fst (batch_loop ds chunk mode save_to_path steps w1)
  = fst (batch_loop ds chunk mode save_to_path steps w2).
Proof.
  unfold batch_loop. revert w1 w2.
  induction steps as [|step steps IH]; intros w1 w2 Hd; [reflexivity|].
  simpl for_each. unfold bind at 1 3.
  destruct (process_step_ext ds chunk mode save_to_path step w1 w2 Hd)
    as [Hfst [Hd1 Hd2]].
  destruct (process_step ds chunk mode save_to_path step w1) as [r1 w1'].
  destruct (process_step ds chunk mode save_to_path step w2) as [r2 w2'].
  simpl in Hfst, Hd1, Hd2. subst r2.
  destruct r1 as [y|e]; [|reflexivity].
  unfold bind.
  specialize (IH w1' w2' ltac:(congruence)).
  destruct (for_each _ steps w1') as [r1 w1''].
  destruct (for_each _ steps w2') as [r2 w2''].
  simpl in IH. subst r2. destruct r1; reflexivity.
Qed.

Lemma call_ready_dirs (ds : dataset) (chunk total : nat)
  (save_to_path : option string) (w1 w2 : world) :
  dirs w1 = dirs w2 ->
  call_ready ds chunk total save_to_path w1
  = call_ready ds chunk total save_to_path w2.
Proof.
  intros Hd. unfold call_ready. rewrite (writable_dirs _ w2 w1 Hd).
  reflexivity.
Qed.

Lemma range_positive (stop step : nat) :
  0 < step -> range stop step = Ok (steps_of stop step).
Proof. intros H. unfold range. destruct step; [lia | reflexivity]. Qed.

Lemma steps_of_nil (stop step : nat) :
  0 < step -> (steps_of stop step = [] <-> stop = 0).
Proof.
  intros Hstep. unfold steps_of. split.
  - intros H. apply map_eq_nil in H.
    destruct ((stop + step - 1) / step) eqn:Hq; [|discriminate].
    apply Nat.div_small_iff in Hq; lia.
  - intros ->. replace ((0 + step - 1) / step) with 0; [reflexivity|].
    symmetry. apply Nat.div_small. lia.
Qed.

(** ** The call as a whole *)

(** What one call does when every batch is processed. *)
Lemma fit_transform_run (ds : dataset) (chunk total : nat)
  (save_to_path : option string) (w : world) :
  0 < chunk -> 0 < total ->
  call_ready ds chunk total save_to_path w = true ->
  let steps := steps_of total chunk in
  let dfs := batches ds chunk steps in
  fit_transform ds chunk total save_to_path w
  = (Ok (mkTable (observed_columns dfs) (aligned_rows (observed_columns dfs) dfs)),
     mkWorld (mkAggregator (Some (observed_columns dfs)))
             (dirs w)
             (read_log w ++ map (fun step => (step, chunk)) steps)
             (sink w ++ artifacts save_to_path ds chunk steps)).
Proof.
  intros Hc Ht Hready steps dfs.
  unfold call_ready in Hready. apply andb_true_iff in Hready.
  destruct Hready as [Hall Hw].
  assert (Hne : dfs <> []).
  { unfold dfs, batches. intros H. apply map_eq_nil in H.
    apply steps_of_nil in H; lia. }
  destruct (concat_fillna dfs Hne) as [T [HT Hfill]].
  unfold fit_transform, transform_data.
  change (negb (valid_mode "fit_transform")) with false. cbv iota.
  rewrite (range_positive _ _ Hc).
  unfold bind at 1. unfold lift at 1.
  unfold bind at 1. rewrite (batch_loop_ready _ _ _ _ _ _ Hall Hw).
  fold steps. fold dfs. rewrite HT.
  unfold bind at 1. unfold lift at 1.
  rewrite Hfill. simpl columns.
  change (String.eqb "fit_transform" "fit_transform") with true. cbv iota.
  unfold bind, set_encoded, ret, get_encoded, lift, after_loop. simpl.
  rewrite select_aligned by auto. reflexivity.
Qed.

Lemma transform_run (ds : dataset) (chunk total : nat)
  (save_to_path : option string) (w : world) :
  0 < chunk -> 0 < total ->
  call_ready ds chunk total save_to_path w = true ->
  let steps := steps_of total chunk in
  let dfs := batches ds chunk steps in
  transform ds chunk total save_to_path w
  = (match encoded_features (self w) with
     | None => Raise not_fitted
     | Some encoded => Ok (mkTable encoded (aligned_rows encoded dfs))
     end,
     after_loop save_to_path ds chunk steps w).
Proof.
  intros Hc Ht Hready steps dfs.
  unfold call_ready in Hready. apply andb_true_iff in Hready.
  destruct Hready as [Hall Hw].
  assert (Hne : dfs <> []).
  { unfold dfs, batches. intros H. apply map_eq_nil in H.
    apply steps_of_nil in H; lia. }
  destruct (concat_fillna dfs Hne) as [T [HT Hfill]].
  unfold transform, transform_data.
  change (negb (valid_mode "transform")) with false. cbv iota.
  rewrite (range_positive _ _ Hc).
  unfold bind at 1. unfold lift at 1.
  unfold bind at 1. rewrite (batch_loop_ready _ _ _ _ _ _ Hall Hw).
  fold steps. fold dfs. rewrite HT.
  unfold bind at 1. unfold lift at 1.
  rewrite Hfill. simpl columns.
  change (String.eqb "transform" "fit_transform") with false. cbv iota.
  unfold bind, ret, get_encoded, lift, raise, after_loop. cbn [self].
  destruct (encoded_features (self w)) as [encoded|] eqn:He; [|reflexivity].
  cbn [self]. rewrite He. rewrite select_zero_fill. reflexivity.
Qed.

(** When a batch cannot be processed, the call raises the loop's
    error, in either mode, with the world the loop left. *)
Lemma call_stuck (ds : dataset) (chunk total : nat) (mode : string)
  (save_to_path : option string) (w : world) :
  mode = "fit_transform"%string \/ mode = "transform"%string ->
  0 < chunk -> 0 < total ->
  call_ready ds chunk total save_to_path w = false ->
  exists e done step rest,
    steps_of total chunk = done ++ step :: rest
    /\ transform_data ds chunk total mode save_to_path w
       = (Raise e,
          mkWorld (self w) (dirs w)
                  (read_log w ++ map (fun s => (s, chunk)) (done ++ [step]))
                  (sink w ++ artifacts save_to_path ds chunk done))
    /\ In e loop_errors
    /\ fst (batch_loop ds chunk mode save_to_path (steps_of total chunk) w)
       = Raise e.
Proof.
  intros Hmode Hc Ht Hstuck.
  assert (Hne : steps_of total chunk <> []).
  { intros H. apply steps_of_nil in H; lia. }
  destruct (batch_loop_stuck ds chunk mode save_to_path _ w Hne Hstuck)
    as [e [done [step [rest [Hsteps [Hrun He]]]]]].
  exists e, done, step, rest. split; [exact Hsteps|].
  split; [|split; [exact He | rewrite Hrun; reflexivity]].
  unfold transform_data.
  replace (negb (valid_mode mode)) with false
    by (destruct Hmode as [-> | ->]; reflexivity).
  rewrite (range_positive _ _ Hc).
  unfold bind at 1. unfold lift at 1.
  unfold bind at 1. rewrite Hrun. reflexivity.
Qed.

(** When every batch can be read and encoded and the sink directory
    does not exist, the call stops at the first write. *)
Lemma call_unwritable (ds : dataset) (chunk total : nat) (mode : string)
  (save_to_path : option string) (w : world) :
  mode = "fit_transform"%string \/ mode = "transform"%string ->
  0 < chunk -> 0 < total ->
  forallb (step_ready ds chunk) (steps_of total chunk) = true ->
  writable save_to_path w = false ->
  fst (transform_data ds chunk total mode save_to_path w)
  = Raise missing_directory.
Proof.
  intros Hmode Hc Ht Hall Hw.
  unfold transform_data.
  replace (negb (valid_mode mode)) with false
    by (destruct Hmode as [-> | ->]; reflexivity).
  rewrite (range_positive _ _ Hc).
  destruct (steps_of total chunk) as [|step steps] eqn:Hsteps.
  { apply steps_of_nil in Hsteps; lia. }
  simpl in Hall. apply andb_true_iff in Hall. destruct Hall as [Hstep _].
  unfold step_ready in Hstep. apply andb_true_iff in Hstep.
  destruct Hstep as [Hin Henc].
  unfold bind at 1. unfold lift at 1.
  unfold bind at 1. unfold batch_loop. simpl for_each. unfold bind at 1.
  unfold process_step, bind, log_read, lift.
  rewrite (read_in_range _ _ _ Hin), (extract_encodable _ mode Henc).
  unfold writable in Hw.
  destruct (truthy save_to_path) as [dir|]; [|discriminate].
  unfold to_parquet. cbn [dirs]. rewrite Hw. reflexivity.
Qed.

(** With no batch to read the call stops before the schema is looked
    at: at [range] when the batch size is 0, at [pd.concat] when there
    is no partition to process. *)
Lemma transform_data_zero_step (ds : dataset) (total : nat) (mode : string)
  (save_to_path : option string) (w : world) :
  mode = "fit_transform"%string \/ mode = "transform"%string ->
  transform_data ds 0 total mode save_to_path w = (Raise zero_step, w).
Proof. intros [-> | ->]; reflexivity. Qed.

Lemma transform_data_no_batch (ds : dataset) (chunk : nat) (mode : string)
  (save_to_path : option string) (w : world) :
  mode = "fit_transform"%string \/ mode = "transform"%string ->
  0 < chunk ->
  transform_data ds chunk 0 mode save_to_path w = (Raise no_objects, w).
Proof.
  intros Hmode Hc. unfold transform_data.
  replace (negb (valid_mode mode)) with false
    by (destruct Hmode as [-> | ->]; reflexivity).
  rewrite (range_positive _ _ Hc).
  replace (steps_of 0 chunk) with (@nil nat)
    by (symmetry; apply steps_of_nil; lia).
  reflexivity.
Qed.

(** The four ways a call can go. *)
Lemma call_cases (ds : dataset) (chunk total : nat)
  (save_to_path : option string) (w : world) :
  chunk = 0
  \/ (0 < chunk /\ total = 0)
  \/ (0 < chunk /\ 0 < total
      /\ call_ready ds chunk total save_to_path w = false)
  \/ (0 < chunk /\ 0 < total
      /\ call_ready ds chunk total save_to_path w = true).
Proof.
  destruct chunk as [|c]; [auto|]. destruct total as [|t]; [right; left; lia|].
  destruct (call_ready ds (S c) (S t) save_to_path w); [right; right; right | right; right; left];
    repeat split; lia.
Qed.

(** A call that returns a table has processed every batch. *)
Lemma fit_transform_inv (ds : dataset) (chunk total : nat)
  (save_to_path : option string) (w w' : world) (t : Table nat) :
  fit_transform ds chunk total save_to_path w = (Ok t, w') ->
  let dfs := batches ds chunk (steps_of total chunk) in
  0 < chunk /\ 0 < total
  /\ call_ready ds chunk total save_to_path w = true
  /\ t = mkTable (observed_columns dfs) (aligned_rows (observed_columns dfs) dfs)
  /\ w' = mkWorld (mkAggregator (Some (observed_columns dfs)))
                  (dirs w)
                  (read_log w ++ map (fun step => (step, chunk)) (steps_of total chunk))
                  (sink w ++ artifacts save_to_path ds chunk (steps_of total chunk)).
Proof.
  intros Hrun dfs. unfold fit_transform in Hrun.
  destruct (call_cases ds chunk total save_to_path w)
    as [-> | [[Hc ->] | [[Hc [Ht Hr]] | [Hc [Ht Hr]]]]].
  - rewrite transform_data_zero_step in Hrun by auto. discriminate.
  - rewrite transform_data_no_batch in Hrun by auto. discriminate.
  - destruct (call_stuck ds chunk total "fit_transform" save_to_path w
                (or_introl eq_refl) Hc Ht Hr)
      as [e [done [step [rest [_ [He _]]]]]].
    rewrite He in Hrun. discriminate.
  - fold (fit_transform ds chunk total save_to_path w) in Hrun.
    rewrite (fit_transform_run ds chunk total save_to_path w Hc Ht Hr) in Hrun.
    injection Hrun as <- <-. auto.
Qed.

Lemma transform_inv (ds : dataset) (chunk total : nat)
  (save_to_path : option string) (w w' : world) (t : Table nat) :
  transform ds chunk total save_to_path w = (Ok t, w') ->
  let dfs := batches ds chunk (steps_of total chunk) in
  0 < chunk /\ 0 < total
  /\ call_ready ds chunk total save_to_path w = true
  /\ exists schema,
       encoded_features (self w) = Some schema
       /\ t = mkTable schema (aligned_rows schema dfs)
       /\ w' = after_loop save_to_path ds chunk (steps_of total chunk) w.
Proof.
  intros Hrun dfs. unfold transform in Hrun.
  destruct (call_cases ds chunk total save_to_path w)
    as [-> | [[Hc ->] | [[Hc [Ht Hr]] | [Hc [Ht Hr]]]]].
  - rewrite transform_data_zero_step in Hrun by auto. discriminate.
  - rewrite transform_data_no_batch in Hrun by auto. discriminate.
  - destruct (call_stuck ds chunk total "transform" save_to_path w
                (or_intror eq_refl) Hc Ht Hr)
      as [e [done [step [rest [_ [He _]]]]]].
    rewrite He in Hrun. discriminate.
  - fold (transform ds chunk total save_to_path w) in Hrun.
    rewrite (transform_run ds chunk total save_to_path w Hc Ht Hr) in Hrun.
    destruct (encoded_features (self w)) as [schema|]; [|discriminate].
    injection Hrun as <- <-. eauto 7.
Qed.

(** A returned table lays the batches out on some column list. *)
Lemma returned_table (ds : dataset) (chunk total : nat)
  (save_to_path : option string) (w w' : world) (t : Table nat) :
  fit_transform ds chunk total save_to_path w = (Ok t, w')
  \/ transform ds chunk total save_to_path w = (Ok t, w') ->
  exists schema,
    t = mkTable schema
          (aligned_rows schema (batches ds chunk (steps_of total chunk))).
Proof.
  intros [Hrun|Hrun].
  - apply fit_transform_inv in Hrun. destruct Hrun as [_ [_ [_ [-> _]]]]. eauto.
  - apply transform_inv in Hrun.
    destruct Hrun as [_ [_ [_ [schema [_ [-> _]]]]]]. eauto.
Qed.

End AggregatorFacts.

(* ================================================================== *)
(** * The aggregator's contract *)

Module AggregatorSpec.
Import Frame Reader Aggregator Schema ListFacts FrameFacts AggregatorFacts.

Lemma in_aligned_rows (schema : list label) (dfs : list DataFrame)
  (row : Z * list nat) :
  In row (aligned_rows schema dfs) ->
  exists df e, In df dfs /\ In e (map r_id (records df))
               /\ row = aligned_row schema df e.
Proof.
  unfold aligned_rows. intros Hin.
  apply in_flat_map in Hin. destruct Hin as [df [Hdf Hin]].
  apply in_map_iff in Hin. destruct Hin as [e [<- He]].
  exists df, e. rewrite sorted_unique_In in He. auto.
Qed.

(** ** What a call leaves behind *)

Lemma transform_keeps (ds : dataset) (chunk total : nat)
  (save_to_path : option string) (w : world) :
  self (snd (transform ds chunk total save_to_path w)) = self w
  /\ dirs (snd (transform ds chunk total save_to_path w)) = dirs w.
Proof.
  unfold transform.
  destruct (call_cases ds chunk total save_to_path w)
    as [-> | [[Hc ->] | [[Hc [Ht Hr]] | [Hc [Ht Hr]]]]].
  - rewrite transform_data_zero_step by auto. auto.
  - rewrite transform_data_no_batch by auto. auto.
  - destruct (call_stuck ds chunk total "transform" save_to_path w
                (or_intror eq_refl) Hc Ht Hr)
      as [e [done [step [rest [_ [He _]]]]]].
    rewrite He. auto.
  - fold (transform ds chunk total save_to_path w).
    rewrite (transform_run ds chunk total save_to_path w Hc Ht Hr). auto.
Qed.

(** The result of [transform] depends on the world through the
    aggregator and the directories only. *)
Lemma transform_result_ext (ds : dataset) (chunk total : nat)
  (save_to_path : option string) (w1 w2 : world) :
  self w1 = self w2 -> dirs w1 = dirs w2 ->
  fst (transform ds chunk total save_to_path w1)
  = fst (transform ds chunk total save_to_path w2).
Proof.
  intros Hself Hdirs.
  pose proof (call_ready_dirs ds chunk total save_to_path w1 w2 Hdirs) as Hready.
  unfold transform.
  destruct (call_cases ds chunk total save_to_path w1)
    as [-> | [[Hc ->] | [[Hc [Ht Hr]] | [Hc [Ht Hr]]]]].
  - rewrite !transform_data_zero_step by auto. reflexivity.
  - rewrite !transform_data_no_batch by auto. reflexivity.
  - destruct (call_stuck ds chunk total "transform" save_to_path w1
                (or_intror eq_refl) Hc Ht Hr)
      as [e1 [done1 [step1 [rest1 [_ [He1 [_ Hl1]]]]]]].
    rewrite Hready in Hr.
    destruct (call_stuck ds chunk total "transform" save_to_path w2
                (or_intror eq_refl) Hc Ht Hr)
      as [e2 [done2 [step2 [rest2 [_ [He2 [_ Hl2]]]]]]].
    rewrite He1, He2. simpl.
    pose proof (batch_loop_ext ds chunk "transform" save_to_path
                  (steps_of total chunk) w1 w2 Hdirs) as Hloop.
    rewrite Hl1, Hl2 in Hloop. injection Hloop as ->. reflexivity.
  - fold (transform ds chunk total save_to_path w1).
    fold (transform ds chunk total save_to_path w2).
    rewrite (transform_run ds chunk total save_to_path w1 Hc Ht Hr).
    rewrite Hready in Hr.
    rewrite (transform_run ds chunk total save_to_path w2 Hc Ht Hr).
    simpl. rewrite Hself. reflexivity.
Qed.

Lemma after_transforms_keeps calls (w : world) :
  self (after_transforms calls w) = self w
  /\ dirs (after_transforms calls w) = dirs w.
Proof.
  revert w. induction calls as [|[[[ds chunk] total] save] calls IH]; intros w.
  - split; reflexivity.
  - unfold after_transforms in *. simpl.
    destruct (IH (snd (transform ds chunk total save w))) as [Hs Hd].
    rewrite Hs, Hd. apply transform_keeps.
Qed.

(** C1: on a fitted aggregator, the table [transform] returns has the
    columns [id] followed by the frozen schema, in the schema's order: an
    observed column outside the schema is not in the result, and a schema
    column the call did not observe is zero in every row. *)
Theorem transform_columns_are_schema (ds : dataset) (chunk total : nat)
  (save_to_path : option string) (w : world) (schema : list label) :
  encoded_features (self w) = Some schema ->
  let seen := observed_columns (batches ds chunk (steps_of total chunk)) in
  forall t w',
    transform ds chunk total save_to_path w = (Ok t, w') ->
    header t = Id :: map Dummy schema
    /\ well_formed t
    /\ (forall l, In l seen -> ~ In l schema -> ~ In (Dummy l) (header t))
    /\ (forall l, In l schema -> ~ In l seen ->
                  forall row, In row (rows t) ->
                              cell_at (columns t) (snd row) l = Some 0).
Proof.
  intros Hfit seen t w' Hrun.
  apply transform_inv in Hrun.
  destruct Hrun as [_ [_ [_ [schema' [Hs [-> _]]]]]].
  rewrite Hfit in Hs. injection Hs as <-.
  split; [reflexivity|]. split; [apply aligned_rows_well_formed|].
  split.
  - intros l _ Hl Hin. simpl in Hin. destruct Hin as [Hin|Hin]; [discriminate|].
    apply in_map_iff in Hin. destruct Hin as [l' [Heq Hl']].
    injection Heq as ->. contradiction.
  - intros l Hl Hunseen row Hrow. simpl in Hrow |- *.
    apply in_aligned_rows in Hrow. destruct Hrow as [df [e [Hdf [_ ->]]]].
    unfold aligned_row. simpl. rewrite cell_at_map.
    replace (mem l schema) with true by (symmetry; apply mem_In; assumption).
    destruct (mem l (get_dummies_columns df)) eqn:Hm; [|reflexivity].
    exfalso. apply Hunseen. apply (batch_columns_observed _ df); [assumption|].
    apply mem_In; assumption.
Qed.

Lemma transform_columns_are_schema_witness :
  encoded_features (self fitted) = Some toy_schema
  /\ exists t w',
       transform toy 2 2 None fitted = (Ok t, w')
       /\ header t = Id :: map Dummy toy_schema
       /\ ~ In (Dummy (onehot "b" 1)) (header t)
       /\ forall row, In row (rows t) ->
                      cell_at (columns t) (snd row) (onehot "c" 7) = Some 0.
Proof.
  split; [reflexivity|].
  pose proof (transform_columns_are_schema toy 2 2 None fitted toy_schema eq_refl
                (mkTable toy_schema [(10%Z, [1; 0]); (11%Z, [1; 0]); (12%Z, [1; 0])])
                (mkWorld (mkAggregator (Some toy_schema)) ["out"%string]
                         [(0, 2)] [])
                eq_refl) as [Hheader [_ [Hdrop Hzero]]].
  exists (mkTable toy_schema [(10%Z, [1; 0]); (11%Z, [1; 0]); (12%Z, [1; 0])]),
         (mkWorld (mkAggregator (Some toy_schema)) ["out"%string] [(0, 2)] []).
  split; [reflexivity|]. split; [exact Hheader|]. split.
  - apply Hdrop.
    + vm_compute. right. right. left. reflexivity.
    + vm_compute. intuition discriminate.
  - apply Hzero.
    + right. left. reflexivity.
    + vm_compute. intuition discriminate.
Defined.

(** C4: [transform] never changes the aggregator, so after any series of
    [transform] calls the schema is the one it was, and a [transform] call
    returns what the same call returned before them; in particular, the
    same call made twice returns the same table. *)
Theorem transform_idempotent
  (calls : list (dataset * nat * nat * option string))
  (ds : dataset) (chunk total : nat) (save_to_path : option string)
  (w : world) :
  encoded_features (self (after_transforms calls w)) = encoded_features (self w)
  /\ fst (transform ds chunk total save_to_path (after_transforms calls w))
     = fst (transform ds chunk total save_to_path w)
  /\ fst (transform ds chunk total save_to_path
            (snd (transform ds chunk total save_to_path w)))
     = fst (transform ds chunk total save_to_path w).
Proof.
  split; [|split].
  - rewrite (proj1 (after_transforms_keeps calls w)). reflexivity.
  - apply transform_result_ext; apply after_transforms_keeps.
  - apply transform_result_ext; apply transform_keeps.
Qed.

Lemma steps_cover (chunk total p : nat) :
  0 < chunk -> p < total ->
  exists step, In step (steps_of total chunk) /\ step <= p < step + chunk.
Proof.
  intros Hc Hp. exists (p / chunk * chunk). split.
  - unfold steps_of. apply in_map_iff. exists (p / chunk). split; [reflexivity|].
    apply in_seq. split; [lia|]. simpl.
    replace (total + chunk - 1) with (total - 1 + 1 * chunk) by lia.
    rewrite Nat.div_add by lia.
    assert (p / chunk <= (total - 1) / chunk)
      by (apply Nat.Div0.div_le_mono; lia).
    lia.
  - pose proof (Nat.div_mod_eq p chunk) as Hdm.
    pose proof (Nat.mod_upper_bound p chunk) as Hmod.
    nia.
Qed.

(** C5, as stated: every [transform] call on an unfitted aggregator fails
    with the not-fitted error.  A call over zero partitions fails earlier,
    in [pd.concat], with another error. *)
Lemma no_batch_error_is_not_not_fitted :
  ~ (forall (ds : dataset) (chunk total : nat) (save_to_path : option string)
            (w : world),
        encoded_features (self w) = None ->
        fst (transform ds chunk total save_to_path w) = Raise not_fitted).
Proof.
  intros H. specialize (H toy 1 0 None fresh eq_refl).
  vm_compute in H. discriminate.
Qed.

(** C5, amended: on an unfitted aggregator [transform] never returns a
    table.  The error is the not-fitted assertion whenever the batch loop
    completes, that is, there is at least one batch and every batch is
    read, encoded and written.  Before the loop the error is the
    [ValueError] of [range] for a batch size of 0; with no partition to
    process it is the [ValueError] of [pd.concat]; and when a batch
    cannot be processed it is the error of the loop body. *)
Theorem unfitted_transform_raises (ds : dataset) (chunk total : nat)
  (save_to_path : option string) (w : world) :
  encoded_features (self w) = None ->
  let out := transform ds chunk total save_to_path w in
  is_ok (fst out) = false
  /\ (chunk = 0 -> out = (Raise zero_step, w))
  /\ (0 < chunk -> total = 0 -> out = (Raise no_objects, w))
  /\ (0 < chunk -> 0 < total ->
      call_ready ds chunk total save_to_path w = true ->
      fst out = Raise not_fitted)
  /\ (0 < chunk -> 0 < total ->
      call_ready ds chunk total save_to_path w = false ->
      exists e, fst out = Raise e /\ In e loop_errors).
Proof.
  intros Hnone out. unfold out, transform.
  destruct (call_cases ds chunk total save_to_path w)
    as [-> | [[Hc ->] | [[Hc [Ht Hr]] | [Hc [Ht Hr]]]]].
  - rewrite transform_data_zero_step by auto.
    repeat split; try reflexivity; intros; lia.
  - rewrite transform_data_no_batch by auto.
    repeat split; try reflexivity; intros; lia.
  - destruct (call_stuck ds chunk total "transform" save_to_path w
                (or_intror eq_refl) Hc Ht Hr)
      as [e [done [step [rest [_ [He [Hin _]]]]]]].
    rewrite He. simpl.
    split; [reflexivity|]. split; [lia|]. split; [lia|].
    split; [congruence|]. intros _ _ _. eauto.
  - fold (transform ds chunk total save_to_path w).
    rewrite (transform_run ds chunk total save_to_path w Hc Ht Hr), Hnone.
    simpl.
    split; [reflexivity|]. split; [lia|]. split; [lia|].
    split; [reflexivity | congruence].
Qed.

Lemma unfitted_transform_raises_witness :
  encoded_features (self fresh) = None
  /\ fst (transform toy 1 2 None fresh)
     = Raise (AssertionError "Transformer not fitted")
  /\ transform toy 0 2 None fresh
     = (Raise (ValueError "range() arg 3 must not be zero"), fresh)
  /\ transform toy 1 0 None fresh
     = (Raise (ValueError "No objects to concatenate"), fresh)
  /\ fst (transform toy_clash 1 1 None fresh) = Raise KeyError
  /\ fst (transform toy_bare 1 1 None fresh)
     = Raise (ValueError "No objects to concatenate")
  /\ fst (transform toy 1 3 None fresh) = Raise missing_partition
  /\ fst (transform toy 1 2 (Some "nowhere"%string) fresh)
     = Raise missing_directory
  /\ missing_partition <> missing_directory.
Proof.
  pose proof (unfitted_transform_raises toy 1 2 None fresh eq_refl) as H.
  cbv zeta in H. destruct H as [_ [_ [_ [H _]]]].
  split; [reflexivity|].
  split; [apply H; [lia | lia | reflexivity]|].
  repeat split; try reflexivity. discriminate.
Defined.

(** ** Counts *)

Lemma takes_spec (r : record) (l : label) :
  takes r l = true <-> cat_value (r_cats r) (l_column l) = Some (l_value l).
Proof.
  unfold takes. destruct (cat_value (r_cats r) (l_column l)) as [v|].
  - rewrite Z.eqb_eq. split; congruence.
  - split; discriminate.
Qed.

Lemma in_observed (rs : list record) (c : string) (v : Z) :
  In v (observed rs c) <-> exists r, In r rs /\ cat_value (r_cats r) c = Some v.
Proof.
  unfold observed. rewrite in_flat_map. split.
  - intros [r [Hr Hv]]. exists r. split; [assumption|].
    destruct (cat_value (r_cats r) c) as [v'|]; simpl in Hv; [|contradiction].
    destruct Hv as [->|[]]. reflexivity.
  - intros [r [Hr Hv]]. exists r. split; [assumption|].
    rewrite Hv. left; reflexivity.
Qed.

Lemma in_get_dummies_columns (df : DataFrame) (l : label) :
  In l (get_dummies_columns df) <->
  In (l_column l) (feature_columns df)
  /\ l_float l = has_missing (records df) (l_column l)
  /\ exists r, In r (records df) /\ takes r l = true.
Proof.
  unfold get_dummies_columns, levels. rewrite in_flat_map. split.
  - intros [c [Hc Hl]]. apply in_map_iff in Hl. destruct Hl as [v [<- Hv]].
    simpl. split; [assumption|]. split; [reflexivity|].
    apply sorted_unique_In, in_observed in Hv. destruct Hv as [r [Hr Hv]].
    exists r. split; [assumption|]. apply takes_spec. assumption.
  - intros [Hc [Hf [r [Hr Ht]]]]. exists (l_column l). split; [assumption|].
    apply in_map_iff. exists (l_value l). split.
    + destruct l as [c v f]. simpl in *. subst f. reflexivity.
    + apply sorted_unique_In, in_observed. exists r. split; [assumption|].
      apply takes_spec. assumption.
Qed.

(** The per-id sum of an indicator column counts the records. *)
Lemma group_sum_counts (rs : list record) (e : Z) (l : label) :
  group_sum rs e l = record_count rs e l.
Proof.
  unfold group_sum, record_count.
  induction rs as [|r rs IH]; simpl; [reflexivity|].
  destruct (Z.eqb (r_id r) e); simpl; [|assumption].
  unfold indicator at 1. destruct (takes r l); simpl; rewrite IH; reflexivity.
Qed.

Lemma record_count_app (rs rs' : list record) (e : Z) (l : label) :
  record_count (rs ++ rs') e l = record_count rs e l + record_count rs' e l.
Proof. unfold record_count. rewrite filter_app, length_app. reflexivity. Qed.

Lemma all_records_app (dfs dfs' : list DataFrame) :
  all_records (dfs ++ dfs') = all_records dfs ++ all_records dfs'.
Proof. unfold all_records. apply flat_map_app. Qed.

Lemma has_entity_false (e : Z) (rs : list record) :
  has_entity e rs = false <-> forall r, In r rs -> r_id r <> e.
Proof.
  unfold has_entity. split.
  - intros H r Hr Hid.
    assert (existsb (fun r => Z.eqb (r_id r) e) rs = true).
    { apply existsb_exists. exists r. split; [assumption | apply Z.eqb_eq; assumption]. }
    congruence.
  - intros H. destruct (existsb _ rs) eqn:Hex; [|reflexivity].
    apply existsb_exists in Hex. destruct Hex as [r [Hr Hid]].
    apply Z.eqb_eq in Hid. exfalso. eapply H; eauto.
Qed.

Lemma record_count_absent (rs : list record) (e : Z) (l : label) :
  has_entity e rs = false -> record_count rs e l = 0.
Proof.
  intros H. rewrite has_entity_false in H. unfold record_count.
  induction rs as [|r rs IH]; simpl; [reflexivity|].
  destruct (Z.eqb (r_id r) e) eqn:Hid.
  - apply Z.eqb_eq in Hid. exfalso. apply (H r); [left; reflexivity | assumption].
  - simpl. apply IH. intros r' Hr'. apply H; right; assumption.
Qed.

Lemma record_count_untaken (rs : list record) (e : Z) (l : label) :
  (forall r, In r rs -> takes r l = false) -> record_count rs e l = 0.
Proof.
  intros H. unfold record_count.
  induction rs as [|r rs IH]; simpl; [reflexivity|].
  rewrite (H r) by (left; reflexivity). rewrite andb_false_r.
  apply IH. intros r' Hr'. apply H; right; assumption.
Qed.

Lemma filter_eqb_NoDup (e : Z) (l : list Z) :
  NoDup l -> In e l -> filter (fun x => Z.eqb x e) l = [e].
Proof.
  induction 1 as [|x l Hx Hnd IH]; intros Hin; [contradiction|].
  simpl. destruct Hin as [->|Hin].
  - rewrite Z.eqb_refl. f_equal. apply filter_none.
    intros y Hy. apply Z.eqb_neq. intros ->. contradiction.
  - replace (Z.eqb x e) with false; [apply IH; assumption|].
    symmetry. apply Z.eqb_neq. intros ->. contradiction.
Qed.

Lemma aligned_rows_app (schema : list label) (dfs dfs' : list DataFrame) :
  aligned_rows schema (dfs ++ dfs')
  = aligned_rows schema dfs ++ aligned_rows schema dfs'.
Proof. unfold aligned_rows. apply flat_map_app. Qed.

Lemma aligned_rows_single (schema : list label) (df : DataFrame) :
  aligned_rows schema [df]
  = map (aligned_row schema df) (sorted_unique (map r_id (records df))).
Proof. unfold aligned_rows. simpl. apply app_nil_r. Qed.

Lemma all_records_single (df : DataFrame) : all_records [df] = records df.
Proof. unfold all_records. simpl. apply app_nil_r. Qed.

Lemma rows_of_absent (schema : list label) (dfs : list DataFrame) (e : Z) :
  has_entity e (all_records dfs) = false ->
  filter (fun row : Z * list nat => Z.eqb (fst row) e) (aligned_rows schema dfs) = [].
Proof.
  intros H. rewrite has_entity_false in H. apply filter_none.
  intros row Hrow. apply in_aligned_rows in Hrow.
  destruct Hrow as [df [e' [Hdf [He' ->]]]]. simpl.
  apply Z.eqb_neq. apply in_map_iff in He'. destruct He' as [r [<- Hr]].
  apply H. unfold all_records. apply in_flat_map. eauto.
Qed.

Lemma rows_of_batch (schema : list label) (df : DataFrame) (e : Z) :
  has_entity e (records df) = true ->
  filter (fun row : Z * list nat => Z.eqb (fst row) e)
         (map (aligned_row schema df) (sorted_unique (map r_id (records df))))
  = [aligned_row schema df e].
Proof.
  intros H. rewrite filter_map_swap. simpl.
  rewrite filter_eqb_NoDup; [reflexivity | apply sorted_unique_NoDup |].
  apply sorted_unique_In. unfold has_entity in H.
  apply existsb_exists in H. destruct H as [r [Hr Hid]].
  apply Z.eqb_eq in Hid. subst e. apply in_map. assumption.
Qed.

Lemma steps_of_nonempty (total chunk : nat) :
  steps_of total chunk <> [] -> 0 < chunk /\ 0 < total.
Proof.
  intros H. destruct chunk as [|c].
  - exfalso. apply H. unfold steps_of. simpl. reflexivity.
  - split; [lia|]. destruct total; [|lia].
    exfalso. apply H. apply steps_of_nil; lia.
Qed.

Lemma batches_columns (ds : dataset) (chunk : nat) (steps : list nat)
  (df : DataFrame) :
  In df (batches ds chunk steps) -> feature_columns df = ds_columns ds.
Proof.
  unfold batches. intros H. apply in_map_iff in H.
  destruct H as [step [<- _]]. reflexivity.
Qed.

(** The count table of a frame holds the frame's per-id counts. *)
Lemma count_table_aggregates (df : DataFrame) : aggregates df (count_table df).
Proof.
  unfold aggregates, count_table, ids, groupby_sum. simpl.
  rewrite map_map. simpl. rewrite map_id.
  split; [apply sorted_unique_NoDup|]. split; [|split].
  - intros e. rewrite sorted_unique_In, in_map_iff.
    split; intros [r [H1 H2]]; exists r; auto.
  - intros r c v Hr Hc Hv.
    exists (mkLabel c v (has_missing (records df) c)). split; [|auto].
    apply in_get_dummies_columns. simpl. split; [assumption|].
    split; [reflexivity|]. exists r. split; [assumption|].
    apply takes_spec. assumption.
  - intros row l Hrow Hl. apply in_map_iff in Hrow.
    destruct Hrow as [e [<- _]]. simpl. rewrite cell_at_map.
    replace (mem l (get_dummies_columns df)) with true
      by (symmetry; apply mem_In; assumption).
    rewrite group_sum_counts. reflexivity.
Qed.

Lemma call_ready_in_range (ds : dataset) (chunk total : nat)
  (save_to_path : option string) (w : world) (step : nat) :
  call_ready ds chunk total save_to_path w = true ->
  In step (steps_of total chunk) ->
  step + chunk <= length (partitions ds)
  /\ encodable (batch ds chunk step) = true.
Proof.
  unfold call_ready, step_ready, in_range. intros H Hstep.
  apply andb_true_iff in H. destruct H as [H _].
  rewrite forallb_forall in H. specialize (H step Hstep).
  apply andb_true_iff in H. destruct H as [Hin Henc].
  apply Nat.leb_le in Hin. auto.
Qed.

(** C10: on an unfitted aggregator the not-fitted error comes only at the
    end of the call: when it is raised every batch offset has been read,
    covering all [num_parts_total] partitions, each of them stored, and
    with a sink one file per batch has been written, holding the per-id
    counts of that batch; it is raised whenever every batch can be read,
    encoded and written.  The call fails in any case and leaves the
    aggregator as it was, its schema absent. *)
Theorem not_fitted_raised_late (ds : dataset) (chunk total : nat)
  (save_to_path : option string) (w : world) :
  encoded_features (self w) = None ->
  let out := transform ds chunk total save_to_path w in
  let steps := steps_of total chunk in
  (is_ok (fst out) = false
   /\ self (snd out) = self w
   /\ encoded_features (self (snd out)) = None)
  /\ (fst out = Raise not_fitted ->
      steps <> []
      /\ read_log (snd out)
         = read_log w ++ map (fun step => (step, chunk)) steps
      /\ (forall p, p < total ->
                    p < length (partitions ds)
                    /\ exists step, In (step, chunk) (read_log (snd out))
                                    /\ step <= p < step + chunk)
      /\ (truthy save_to_path = None -> sink (snd out) = sink w)
      /\ (forall dir,
            truthy save_to_path = Some dir ->
            exists files,
              sink (snd out) = sink w ++ files
              /\ map art_step files = steps
              /\ Forall (fun a => art_dir a = dir
                                  /\ aggregates (batch ds chunk (art_step a))
                                                (art_table a)) files))
  /\ (0 < chunk -> 0 < total ->
      call_ready ds chunk total save_to_path w = true ->
      fst out = Raise not_fitted).
Proof.
  intros Hnone out steps.
  assert (Hself : self (snd out) = self w) by apply transform_keeps.
  unfold out, transform in *.
  destruct (call_cases ds chunk total save_to_path w)
    as [-> | [[Hc ->] | [[Hc [Ht Hr]] | [Hc [Ht Hr]]]]].
  - rewrite transform_data_zero_step by auto. simpl.
    split; [auto|]. split; [discriminate | lia].
  - rewrite transform_data_no_batch by auto. simpl.
    split; [auto|]. split; [discriminate | lia].
  - destruct (call_stuck ds chunk total "transform" save_to_path w
                (or_intror eq_refl) Hc Ht Hr)
      as [e [done [step [rest [_ [He [Hin _]]]]]]].
    rewrite He. simpl. split; [auto|]. split; [|congruence].
    intros Heq. injection Heq as ->. exfalso.
    unfold loop_errors in Hin. simpl in Hin.
    intuition discriminate.
  - fold (transform ds chunk total save_to_path w).
    rewrite (transform_run ds chunk total save_to_path w Hc Ht Hr), Hnone.
    simpl. split; [auto|]. split; [|reflexivity].
    intros _. split; [|split; [reflexivity|split; [|split]]].
    + unfold steps. intros H. apply steps_of_nil in H; lia.
    + intros p Hp. destruct (steps_cover chunk total p Hc Hp) as [step [Hin Hle]].
      destruct (call_ready_in_range _ _ _ _ _ step Hr Hin) as [Hrange _].
      split; [lia|]. exists step. split; [|assumption].
      apply in_or_app. right. apply in_map_iff. exists step. auto.
    + intros Hdir. unfold artifacts. rewrite Hdir. apply app_nil_r.
    + intros dir Hdir. eexists. split; [reflexivity|].
      unfold artifacts. rewrite Hdir, map_map. simpl.
      split; [apply map_id|].
      apply Forall_forall. intros a Ha. apply in_map_iff in Ha.
      destruct Ha as [step [<- _]]. simpl.
      split; [reflexivity | apply count_table_aggregates].
Qed.

Lemma not_fitted_raised_late_witness :
  encoded_features (self fresh) = None
  /\ transform toy 1 2 (Some "out"%string) fresh
     = (Raise not_fitted,
        mkWorld init ["out"%string] [(0, 1); (1, 1)]
          [mkArtifact "out" 0
             (mkTable [onehot "a" 1; onehot "a" 2; onehot "b" 1; onehot "b" 2]
                      [(10%Z, [1; 1; 2; 0]); (11%Z, [1; 0; 0; 1])]);
           mkArtifact "out" 1
             (mkTable [onehot "a" 1; onehot "a" 2; onehot "b" 1; onehot "b" 2]
                      [(12%Z, [1; 2; 2; 1])])])
  /\ (forall p, p < 2 ->
        exists step,
          In (step, 1) (read_log (snd (transform toy 1 2 (Some "out"%string) fresh)))
          /\ step <= p < step + 1).
Proof.
  pose proof (not_fitted_raised_late toy 1 2 (Some "out"%string) fresh
                eq_refl) as H.
  cbv zeta in H. destruct H as [_ [H _]].
  destruct (H eq_refl) as [_ [_ [Hcover _]]].
  split; [reflexivity|]. split; [reflexivity|].
  intros p Hp. exact (proj2 (Hcover p Hp)).
Defined.

(** ** Completeness of the id column *)

Lemma entity_aligned_spec (parts : list (list record)) :
  entity_aligned parts = true ->
  forall i j p q r r',
    nth_error parts i = Some p -> nth_error parts j = Some q ->
    In r p -> In r' q -> r_id r = r_id r' -> i = j.
Proof.
  induction parts as [|p0 rest IH]; intros Hal i j p q r r' Hi Hj Hr Hr' Hid.
  - destruct i; discriminate.
  - simpl in Hal. apply andb_true_iff in Hal. destruct Hal as [Hhead Hrest].
    rewrite forallb_forall in Hhead.
    destruct i as [|i], j as [|j]; simpl in Hi, Hj.
    + reflexivity.
    + exfalso. injection Hi as <-.
      specialize (Hhead r Hr). rewrite forallb_forall in Hhead.
      assert (Hin : In r' (List.concat rest)).
      { apply in_concat. exists q. split; [eapply nth_error_In; eauto | auto]. }
      specialize (Hhead r' Hin). rewrite Hid, Z.eqb_refl in Hhead. discriminate.
    + exfalso. injection Hj as <-.
      specialize (Hhead r' Hr'). rewrite forallb_forall in Hhead.
      assert (Hin : In r (List.concat rest)).
      { apply in_concat. exists p. split; [eapply nth_error_In; eauto | auto]. }
      specialize (Hhead r Hin). rewrite Hid, Z.eqb_refl in Hhead. discriminate.
    + f_equal. eapply IH; eauto.
Qed.

Lemma in_batch (ds : dataset) (chunk step : nat) (r : record) :
  In r (records (batch ds chunk step)) <->
  exists j p, step <= j < step + chunk
              /\ nth_error (partitions ds) j = Some p /\ In r p.
Proof.
  unfold batch. simpl. rewrite in_concat. split.
  - intros [p [Hp Hr]]. apply In_nth_error in Hp. destruct Hp as [k Hk].
    rewrite nth_error_firstn in Hk.
    destruct (Nat.ltb k chunk) eqn:Hlt; [|discriminate].
    apply Nat.ltb_lt in Hlt. rewrite nth_error_skipn in Hk.
    exists (step + k), p. split; [lia | auto].
  - intros [j [p [Hj [Hp Hr]]]]. exists p. split; [|assumption].
    apply (nth_error_In _ (j - step)).
    rewrite nth_error_firstn.
    replace (Nat.ltb (j - step) chunk) with true
      by (symmetry; apply Nat.ltb_lt; lia).
    rewrite nth_error_skipn. replace (step + (j - step)) with j by lia.
    assumption.
Qed.

Lemma steps_of_NoDup (total chunk : nat) : 0 < chunk -> NoDup (steps_of total chunk).
Proof.
  intros Hc. unfold steps_of.
  apply NoDup_map_NoDup_ForallPairs; [|apply seq_NoDup].
  intros x y _ _ H. nia.
Qed.

Lemma steps_of_multiple (total chunk step : nat) :
  In step (steps_of total chunk) -> exists k, step = k * chunk.
Proof.
  unfold steps_of. intros H. apply in_map_iff in H.
  destruct H as [k [<- _]]. eauto.
Qed.

Lemma ids_aligned_rows (schema : list label) (dfs : list DataFrame) :
  map fst (aligned_rows schema dfs)
  = flat_map (fun df => sorted_unique (map r_id (records df))) dfs.
Proof.
  unfold aligned_rows. rewrite map_flat_map.
  apply flat_map_ext_in. intros df _. rewrite map_map. simpl. apply map_id.
Qed.

Lemma batches_disjoint (ds : dataset) (chunk total s1 s2 : nat) (r1 r2 : record) :
  entity_aligned (partitions ds) = true -> 0 < chunk ->
  In s1 (steps_of total chunk) -> In s2 (steps_of total chunk) ->
  In r1 (records (batch ds chunk s1)) ->
  In r2 (records (batch ds chunk s2)) ->
  r_id r1 = r_id r2 -> s1 = s2.
Proof.
  intros Hal Hc Hs1 Hs2 Hr1 Hr2 Hid.
  apply in_batch in Hr1. destruct Hr1 as [j1 [p1 [Hj1 [Hp1 Hin1]]]].
  apply in_batch in Hr2. destruct Hr2 as [j2 [p2 [Hj2 [Hp2 Hin2]]]].
  assert (j1 = j2) by (eapply (entity_aligned_spec _ Hal); eauto).
  subst j2.
  apply steps_of_multiple in Hs1. destruct Hs1 as [k1 ->].
  apply steps_of_multiple in Hs2. destruct Hs2 as [k2 ->].
  assert (k1 = k2) by nia. subst; reflexivity.
Qed.

(** Whatever the layout, the id column lists every id of the partitions
    read once, provided no id spans two partitions. *)
Lemma aligned_rows_each_id_once (ds : dataset) (chunk total : nat)
  (schema : list label) :
  entity_aligned (partitions ds) = true -> 0 < chunk ->
  each_id_once ds total
    (mkTable schema (aligned_rows schema (batches ds chunk (steps_of total chunk)))).
Proof.
  intros Hal Hc.
  assert (Hnd : NoDup (ids (mkTable schema
                              (aligned_rows schema
                                 (batches ds chunk (steps_of total chunk)))))).
  { unfold ids. simpl. rewrite ids_aligned_rows. unfold batches.
    rewrite flat_map_map. apply NoDup_flat_map.
    - apply steps_of_NoDup; assumption.
    - intros step _. apply sorted_unique_NoDup.
    - intros s1 s2 e Hs1 Hs2 He1 He2.
      rewrite sorted_unique_In in He1, He2.
      apply in_map_iff in He1. destruct He1 as [r1 [Hid1 Hr1]].
      apply in_map_iff in He2. destruct He2 as [r2 [Hid2 Hr2]].
      eapply (batches_disjoint ds chunk total); eauto. congruence. }
  split; [exact Hnd|].
  intros i p r Hi Hp Hr.
  apply (proj1 (NoDup_count_occ' Z.eq_dec _) Hnd).
  unfold ids. simpl. rewrite ids_aligned_rows. unfold batches.
  rewrite flat_map_map. apply in_flat_map.
  destruct (steps_cover chunk total i Hc Hi) as [step [Hstep Hrange]].
  exists step. split; [assumption|].
  apply sorted_unique_In. apply in_map. apply in_batch. eauto.
Qed.



(** ** Counts of one entity *)

Lemma no_missing_spec (cols : list string) (rs : list record) :
  no_missing cols rs = true ->
  forall r c, In r rs -> In c cols -> exists v, cat_value (r_cats r) c = Some v.
Proof.
  unfold no_missing. intros H r c Hr Hc.
  rewrite forallb_forall in H. specialize (H r Hr).
  rewrite forallb_forall in H. specialize (H c Hc).
  destruct (cat_value (r_cats r) c) as [v|]; [eauto | discriminate].
Qed.

Lemma no_missing_batch (cols : list string) (dfs : list DataFrame) (df : DataFrame) :
  no_missing cols (all_records dfs) = true -> In df dfs ->
  no_missing cols (records df) = true.
Proof.
  unfold no_missing. intros H Hdf. rewrite forallb_forall in H |- *.
  intros r Hr. apply H. unfold all_records. apply in_flat_map. eauto.
Qed.

(** A column without missing value is read as integers. *)
Lemma has_missing_false (cols : list string) (rs : list record) (c : string) :
  no_missing cols rs = true -> In c cols -> has_missing rs c = false.
Proof.
  intros Hnm Hc. unfold has_missing.
  destruct (existsb _ rs) eqn:Hex; [|reflexivity].
  apply existsb_exists in Hex. destruct Hex as [r [Hr Hv]].
  destruct (no_missing_spec _ _ Hnm r c Hr Hc) as [v Hsome].
  rewrite Hsome in Hv. discriminate.
Qed.




(** ** Row sums *)

(** One record switches on exactly one indicator of a column whose
    levels contain its value. *)
Lemma indicator_sum (r : record) (c : string) (f : bool) (v0 : Z) (L : list Z) :
  NoDup L -> In v0 L -> cat_value (r_cats r) c = Some v0 ->
  list_sum (map (fun v => indicator r (mkLabel c v f)) L) = 1.
Proof.
  intros Hnd Hin Hv.
  assert (Hind : forall v, indicator r (mkLabel c v f)
                           = if Z.eqb v0 v then 1 else 0).
  { intros v. unfold indicator, takes. simpl. rewrite Hv. reflexivity. }
  rewrite (map_ext _ _ Hind). clear Hind Hv.
  induction Hnd as [|x L Hx Hnd IH]; [contradiction|]. simpl.
  destruct Hin as [->|Hin].
  - rewrite Z.eqb_refl. rewrite list_sum_map_zero; [reflexivity|].
    intros y Hy. replace (Z.eqb v0 y) with false; [reflexivity|].
    symmetry. apply Z.eqb_neq. intros ->. contradiction.
  - replace (Z.eqb v0 x) with false; [simpl; apply IH; assumption|].
    symmetry. apply Z.eqb_neq. intros ->. contradiction.
Qed.

Lemma group_sum_cons (r : record) (rs : list record) (e : Z) (l : label) :
  group_sum (r :: rs) e l
  = (if Z.eqb (r_id r) e then indicator r l else 0) + group_sum rs e l.
Proof.
  unfold group_sum. simpl. destruct (Z.eqb (r_id r) e); reflexivity.
Qed.

(** Over the levels of one column the counts of an entity add up to the
    length of its history. *)
Lemma column_sum (rs : list record) (e : Z) (c : string) (f : bool) (L : list Z) :
  NoDup L ->
  (forall r, In r rs -> exists v, cat_value (r_cats r) c = Some v /\ In v L) ->
  list_sum (map (fun v => group_sum rs e (mkLabel c v f)) L) = history_length rs e.
Proof.
  intros Hnd. unfold history_length.
  induction rs as [|r rs IH]; intros Hval.
  - simpl. apply list_sum_map_zero. reflexivity.
  - rewrite (map_ext _ _ (fun v => group_sum_cons r rs e (mkLabel c v f))).
    rewrite list_sum_map_add.
    rewrite IH by (intros r' Hr'; apply Hval; right; assumption).
    simpl. destruct (Z.eqb (r_id r) e).
    + destruct (Hval r (or_introl eq_refl)) as [v0 [Hv0 Hin]].
      rewrite (indicator_sum r c f v0 L Hnd Hin Hv0). reflexivity.
    + rewrite list_sum_map_zero by reflexivity. reflexivity.
Qed.

(** Within one batch, the one-hot counts of an entity add up to its
    history length once per categorical column. *)
Lemma batch_row_sum (df : DataFrame) (e : Z) :
  no_missing (feature_columns df) (records df) = true ->
  list_sum (map (group_sum (records df) e) (get_dummies_columns df))
  = length (feature_columns df) * history_length (records df) e.
Proof.
  intros Hnm. pose proof (no_missing_spec _ _ Hnm) as Hval. clear Hnm.
  unfold get_dummies_columns.
  revert Hval. generalize (feature_columns df) as cols.
  induction cols as [|c cols IH]; intros Hval; [reflexivity|].
  cbn [flat_map length]. rewrite map_app, list_sum_app, map_map.
  specialize (IH (fun r c' Hr Hc' => Hval r c' Hr (or_intror Hc'))).
  cbn [Nat.mul]. rewrite <- IH. f_equal.
  apply column_sum; [apply sorted_unique_NoDup|].
  intros r Hr. destruct (Hval r c Hr (or_introl eq_refl)) as [v Hv].
  exists v. split; [assumption|].
  unfold levels. apply sorted_unique_In, in_observed. eauto.
Qed.

Lemma get_dummies_columns_NoDup (df : DataFrame) :
  NoDup (feature_columns df) -> NoDup (get_dummies_columns df).
Proof.
  intros Hnd. unfold get_dummies_columns. apply NoDup_flat_map.
  - assumption.
  - intros c _. apply NoDup_map_NoDup_ForallPairs; [|apply sorted_unique_NoDup].
    intros x y _ _ H. congruence.
  - intros c c' l _ _ Hl Hl'.
    apply in_map_iff in Hl. destruct Hl as [v [<- _]].
    apply in_map_iff in Hl'. destruct Hl' as [v' [Heq _]]. congruence.
Qed.

(** Laid out on the union of the batches' columns, the row keeps its sum. *)
Lemma aligned_row_sum (dfs : list DataFrame) (df : DataFrame) (e : Z) :
  In df dfs -> NoDup (feature_columns df) ->
  no_missing (feature_columns df) (records df) = true ->
  list_sum (snd (aligned_row (observed_columns dfs) df e))
  = length (feature_columns df) * history_length (records df) e.
Proof.
  intros Hdf Hnd Hnm. unfold aligned_row. simpl.
  rewrite (list_sum_map_filter (fun l => mem l (get_dummies_columns df))).
  rewrite <- batch_row_sum by assumption.
  apply list_sum_permutation, Permutation_map, NoDup_Permutation.
  - apply NoDup_filter. unfold observed_columns. apply union_columns_NoDup.
  - apply get_dummies_columns_NoDup; assumption.
  - intros l. rewrite filter_In, mem_In. split; [tauto|].
    intros Hl. split; [|assumption].
    apply (batch_columns_observed dfs df); assumption.
Qed.

Lemma history_length_flat_map {A} (f : A -> list record) (l : list A) (e : Z) :
  history_length (flat_map f l) e
  = list_sum (map (fun x => history_length (f x) e) l).
Proof.
  unfold history_length. induction l as [|x l IH]; simpl; [reflexivity|].
  rewrite filter_app, length_app, IH. reflexivity.
Qed.

Lemma history_length_absent (rs : list record) (e : Z) :
  (forall r, In r rs -> r_id r <> e) -> history_length rs e = 0.
Proof.
  intros H. unfold history_length. rewrite filter_none; [reflexivity|].
  intros r Hr. apply Z.eqb_neq. auto.
Qed.

(** With entities kept within partitions, the history an entity has in
    its batch is its whole history. *)
Lemma history_length_batches (ds : dataset) (chunk total step : nat) (r : record) :
  entity_aligned (partitions ds) = true -> 0 < chunk ->
  In step (steps_of total chunk) ->
  In r (records (batch ds chunk step)) ->
  history_length (all_records (batches ds chunk (steps_of total chunk))) (r_id r)
  = history_length (records (batch ds chunk step)) (r_id r).
Proof.
  intros Hal Hc Hstep Hr. unfold all_records, batches.
  rewrite flat_map_map, history_length_flat_map.
  apply (list_sum_single
           (fun s => history_length (records (batch ds chunk s)) (r_id r))).
  - apply steps_of_NoDup; assumption.
  - assumption.
  - intros s Hs Hne. apply history_length_absent. intros r' Hr' Hid.
    apply Hne. eapply batches_disjoint; eauto.
Qed.

Lemma get_dummies_columns_length (df : DataFrame) :
  length (get_dummies_columns df)
  = list_sum (map (fun c => length (levels (records df) c)) (feature_columns df)).
Proof.
  unfold get_dummies_columns. rewrite length_flat_map.
  f_equal. apply map_ext. intros c. apply length_map.
Qed.

(** Without missing values the schema is, up to order, the one-hot
    expansion of all batches taken as one frame. *)
Lemma observed_columns_permutation (dfs : list DataFrame) (cols : list string) :
  (forall df, In df dfs -> feature_columns df = cols) -> NoDup cols ->
  no_missing cols (all_records dfs) = true ->
  Permutation (observed_columns dfs)
              (get_dummies_columns (mkDataFrame cols (all_records dfs))).
Proof.
  intros Hcols Hnd Hnm. apply NoDup_Permutation.
  - apply union_columns_NoDup.
  - apply get_dummies_columns_NoDup. assumption.
  - intros l. unfold observed_columns.
    rewrite union_columns_In, in_flat_map, in_get_dummies_columns. simpl.
    split.
    + intros [[df [Hdf Hl]] _]. apply in_get_dummies_columns in Hl.
      destruct Hl as [Hc [Hf [r [Hr Ht]]]]. rewrite (Hcols df Hdf) in Hc.
      split; [assumption|]. split.
      * rewrite Hf.
        rewrite (has_missing_false cols (records df)); try assumption.
        -- symmetry. apply (has_missing_false cols); assumption.
        -- apply (no_missing_batch _ dfs); assumption.
      * exists r. split; [|assumption].
        unfold all_records. apply in_flat_map. eauto.
    + intros [Hc [Hf [r [Hr Ht]]]]. split; [|intros []].
      unfold all_records in Hr.
      apply in_flat_map in Hr. destruct Hr as [df [Hdf Hr]].
      exists df. split; [assumption|]. apply in_get_dummies_columns.
      rewrite (Hcols df Hdf). split; [assumption|]. split; [|eauto].
      rewrite Hf.
      rewrite (has_missing_false cols (records df)); try assumption.
      * apply (has_missing_false cols); assumption.
      * apply (no_missing_batch _ dfs); assumption.
Qed.

(** The general form of the row-sum property: every row of the
    [fit_transform] table sums to the entity's history length times the
    number of categorical columns, and the schema has one column per
    observed (column, value) pair. *)
Lemma fit_transform_row_sums (ds : dataset) (chunk total : nat)
  (save_to_path : option string) (w w' : world) (t : Table nat) :
  let dfs := batches ds chunk (steps_of total chunk) in
  NoDup (ds_columns ds) ->
  no_missing (ds_columns ds) (all_records dfs) = true ->
  entity_aligned (partitions ds) = true ->
  fit_transform ds chunk total save_to_path w = (Ok t, w') ->
  length (columns t)
  = list_sum (map (fun c => length (levels (all_records dfs) c))
                  (ds_columns ds))
  /\ forall row, In row (rows t) ->
                 list_sum (snd row)
                 = length (ds_columns ds)
                   * history_length (all_records dfs) (fst row).
Proof.
  intros dfs Hnd Hnm Hal Hrun.
  apply fit_transform_inv in Hrun. destruct Hrun as [Hc [Ht [_ [-> _]]]].
  fold dfs. simpl. split.
  - rewrite (Permutation_length
               (observed_columns_permutation dfs (ds_columns ds)
                  (batches_columns ds chunk (steps_of total chunk)) Hnd Hnm)).
    apply get_dummies_columns_length.
  - intros row Hrow. apply in_aligned_rows in Hrow.
    destruct Hrow as [df [e [Hdf [He ->]]]].
    pose proof (batches_columns ds chunk _ df Hdf) as Hcols.
    rewrite aligned_row_sum; try assumption.
    + rewrite Hcols. simpl. f_equal.
      apply in_map_iff in He. destruct He as [r [<- Hr]].
      unfold dfs, batches in Hdf. apply in_map_iff in Hdf.
      destruct Hdf as [step [<- Hstep]].
      symmetry. apply history_length_batches; assumption.
    + rewrite Hcols. assumption.
    + rewrite Hcols. eapply no_missing_batch; eauto.
Qed.

(** ** The toy scenario *)

Lemma toy_batches_records (ds : dataset) (chunk : nat) (p0 p1 : list record) :
  partitions ds = [p0; p1] -> 0 < chunk ->
  all_records (batches ds chunk (steps_of 2 chunk)) = p0 ++ p1.
Proof.
  intros Hparts Hc. unfold all_records, batches, steps_of.
  destruct chunk as [|[|c]]; [lia| |].
  - simpl. unfold batch. rewrite Hparts. simpl.
    rewrite !app_nil_r. reflexivity.
  - replace ((2 + S (S c) - 1) / S (S c)) with 1.
    2:{ apply (Nat.div_unique _ _ 1 1); lia. }
    simpl. unfold batch. rewrite Hparts. simpl.
    rewrite firstn_nil. simpl. rewrite !app_nil_r. reflexivity.
Qed.

Lemma toy_shaped_spec (ds : dataset) :
  toy_shaped ds = true ->
  exists p0 p1 c1 c2,
    partitions ds = [p0; p1]
    /\ ds_columns ds = [c1; c2] /\ c1 <> c2
    /\ length (sorted_unique (map r_id (p0 ++ p1))) = 3
    /\ length (levels (p0 ++ p1) c1) = 2
    /\ length (levels (p0 ++ p1) c2) = 2
    /\ no_missing [c1; c2] (p0 ++ p1) = true
    /\ entity_aligned [p0; p1] = true.
Proof.
  unfold toy_shaped. intros H.
  apply andb_true_iff in H. destruct H as [H Hal].
  apply andb_true_iff in H. destruct H as [H Hnm].
  apply andb_true_iff in H. destruct H as [H Hlev].
  apply andb_true_iff in H. destruct H as [H Hcols].
  apply andb_true_iff in H. destruct H as [Hparts Hids].
  destruct (partitions ds) as [|p0 [|p1 [|p2 rest]]]; try discriminate.
  destruct (ds_columns ds) as [|c1 [|c2 [|c3 cols]]]; try discriminate.
  cbn [List.concat] in *. rewrite app_nil_r in *.
  exists p0, p1, c1, c2.
  cbn [forallb] in Hlev.
  apply andb_true_iff in Hlev. destruct Hlev as [Hl1 Hl2].
  apply andb_true_iff in Hl2. destruct Hl2 as [Hl2 _].
  apply Nat.eqb_eq in Hl1, Hl2, Hids.
  apply negb_true_iff, String.eqb_neq in Hcols.
  repeat split; assumption.
Qed.

(** C9, as stated: on a toy dataset the row of every entity sums to the
    entity's number of records.  With two categorical columns every
    record is counted twice, once per column. *)
Lemma toy_row_sum_is_not_history_length :
  ~ (forall (ds : dataset) (chunk : nat) (save_to_path : option string)
            (w w' : world) (t : Table nat),
        toy_shaped ds = true ->
        fit_transform ds chunk 2 save_to_path w = (Ok t, w') ->
        length (header t) = 1 + 4
        /\ forall row, In row (rows t) ->
                       list_sum (snd row)
                       = history_length (List.concat (partitions ds)) (fst row)).
Proof.
  intros H.
  destruct (H toy 1 None fresh
              (mkWorld (mkAggregator (Some [onehot "a" 1; onehot "a" 2;
                                            onehot "b" 1; onehot "b" 2]))
                       ["out"%string] [(0, 1); (1, 1)] [])
              (mkTable [onehot "a" 1; onehot "a" 2; onehot "b" 1; onehot "b" 2]
                       [(10%Z, [1; 1; 2; 0]); (11%Z, [1; 0; 0; 1]);
                        (12%Z, [1; 2; 2; 1])])
              eq_refl eq_refl) as [_ Hrow].
  specialize (Hrow (10%Z, [1; 1; 2; 0]) (or_introl eq_refl)).
  vm_compute in Hrow. discriminate.
Qed.

(** C9, amended: on a toy dataset of 2 partitions, 3 entities and 2
    categorical columns with 2 categories each and no missing value, the
    table [fit_transform] returns has 1 id column and 4 one-hot columns,
    one row per entity, and the row of every entity sums to twice the
    entity's number of records: each record is counted once in each of
    the two columns. *)
Theorem toy_fit_transform (ds : dataset) (chunk : nat)
  (save_to_path : option string) (w w' : world) (t : Table nat) :
  toy_shaped ds = true ->
  fit_transform ds chunk 2 save_to_path w = (Ok t, w') ->
  length (header t) = 1 + 4
  /\ length (rows t) = 3
  /\ forall row, In row (rows t) ->
                 list_sum (snd row)
                 = 2 * history_length (List.concat (partitions ds)) (fst row).
Proof.
  intros Htoy Hrun.
  destruct (toy_shaped_spec ds Htoy)
    as [p0 [p1 [c1 [c2 [Hparts [Hcols [Hne [Hids [Hl1 [Hl2 [Hnm Hal]]]]]]]]]]].
  pose proof (fit_transform_inv _ _ _ _ _ _ _ Hrun) as Hinv.
  cbv zeta in Hinv. destruct Hinv as [Hc [_ [_ [Ht _]]]].
  pose proof (toy_batches_records ds chunk p0 p1 Hparts Hc) as Hall.
  assert (Hnd : NoDup (ds_columns ds)).
  { rewrite Hcols. constructor; [|constructor; [intros []|constructor]].
    intros [H|[]]. congruence. }
  destruct (fit_transform_row_sums ds chunk 2 save_to_path w w' t)
    as [Hlen Hsum]; try assumption.
  { rewrite Hall, Hcols. assumption. }
  { rewrite Hparts. assumption. }
  rewrite Hall, Hcols in Hlen, Hsum.
  split; [|split].
  - unfold header. simpl. rewrite length_map, Hlen. simpl.
    rewrite Hl1, Hl2. reflexivity.
  - rewrite Ht.
    destruct (aligned_rows_each_id_once ds chunk 2
                (observed_columns (batches ds chunk (steps_of 2 chunk)))
                ltac:(rewrite Hparts; exact Hal) Hc) as [Hnodup _].
    rewrite <- (length_map fst), <- Hids.
    apply Permutation_length, NoDup_Permutation;
      [exact Hnodup | apply sorted_unique_NoDup |].
    intros e. rewrite sorted_unique_In, <- Hall.
    simpl. rewrite ids_aligned_rows.
    unfold all_records. rewrite in_flat_map, in_map_iff. split.
    + intros [df [Hdf He]]. apply sorted_unique_In, in_map_iff in He.
      destruct He as [r [<- Hr]]. exists r. split; [reflexivity|].
      apply in_flat_map. eauto.
    + intros [r [<- Hr]]. apply in_flat_map in Hr. destruct Hr as [df [Hdf Hr]].
      exists df. split; [assumption|]. apply sorted_unique_In, in_map. assumption.
  - intros row Hrow. rewrite (Hsum row Hrow). rewrite Hparts. simpl.
    rewrite app_nil_r. reflexivity.
Qed.

Lemma toy_fit_transform_witness :
  toy_shaped toy = true
  /\ exists t w',
       fit_transform toy 1 2 None fresh = (Ok t, w')
       /\ length (header t) = 1 + 4
       /\ length (rows t) = 3
       /\ forall row, In row (rows t) ->
                      list_sum (snd row)
                      = 2 * history_length (List.concat (partitions toy)) (fst row).
Proof.
  split; [reflexivity|].
  exists (mkTable [onehot "a" 1; onehot "a" 2; onehot "b" 1; onehot "b" 2]
                  [(10%Z, [1; 1; 2; 0]); (11%Z, [1; 0; 0; 1]);
                   (12%Z, [1; 2; 2; 1])]),
         (mkWorld (mkAggregator (Some [onehot "a" 1; onehot "a" 2;
                                       onehot "b" 1; onehot "b" 2]))
                  ["out"%string] [(0, 1); (1, 1)] []).
  split; [reflexivity|].
  exact (toy_fit_transform toy 1 None fresh _ _ eq_refl eq_refl).
Defined.

End AggregatorSpec.

(* ================================================================== *)
(** * Facts about K-fold splitting *)

Module KFoldFacts.
Import KFold ListFacts.

Lemma indicator_prefix_sum (m k : nat) :
  list_sum (map (fun i => if i <? m then 1 else 0) (seq 0 k)) = Nat.min k m.
Proof.
  induction k as [|k IH]; [reflexivity|].
  rewrite seq_S, map_app, list_sum_app, IH. cbn [map list_sum fold_right Nat.add].
  destruct (k <? m) eqn:H; [apply Nat.ltb_lt in H | apply Nat.ltb_ge in H]; lia.
Qed.

Lemma fold_sizes_sum (n k : nat) : 0 < k -> list_sum (fold_sizes n k) = n.
Proof.
  intros Hk. unfold fold_sizes.
  rewrite list_sum_map_add, list_sum_map_const.
  rewrite indicator_prefix_sum, length_seq.
  pose proof (Nat.mod_upper_bound n k ltac:(lia)) as Hmod.
  pose proof (Nat.div_mod_eq n k) as Hdm.
  rewrite Nat.min_r by lia. lia.
Qed.

Lemma fold_sizes_length (n k : nat) : length (fold_sizes n k) = k.
Proof. unfold fold_sizes. rewrite length_map. apply length_seq. Qed.

Lemma iter_test_indices_length (indices sizes : list nat) :
  length (iter_test_indices indices sizes) = length sizes.
Proof.
  revert indices. induction sizes as [|s sizes IH]; intros indices; simpl;
    [reflexivity | rewrite IH; reflexivity].
Qed.

(** The slices, put end to end, are the shuffled indices. *)
Lemma iter_test_indices_concat (indices sizes : list nat) :
  list_sum sizes = length indices ->
  List.concat (iter_test_indices indices sizes) = indices.
Proof.
  revert indices. induction sizes as [|s sizes IH]; intros indices Hsum; simpl.
  - simpl in Hsum. destruct indices; [reflexivity | discriminate].
  - simpl in Hsum. rewrite IH.
    + apply firstn_skipn.
    + rewrite length_skipn. lia.
Qed.

Lemma in_fold_In (test_index : list nat) (i : nat) :
  in_fold test_index i = true <-> In i test_index.
Proof.
  unfold in_fold. rewrite existsb_exists. split.
  - intros [x [Hx Heq]]. apply Nat.eqb_eq in Heq. subst; assumption.
  - intros H. exists i. split; [assumption | apply Nat.eqb_refl].
Qed.

Lemma in_fold_not_In (test_index : list nat) (i : nat) :
  in_fold test_index i = false <-> ~ In i test_index.
Proof.
  rewrite <- in_fold_In. destruct (in_fold test_index i); split; congruence.
Qed.

(** In a duplicate-free concatenation an element sits in one slice. *)
Lemma one_slice (chunks : list (list nat)) (e : nat) :
  NoDup (List.concat chunks) -> In e (List.concat chunks) ->
  length (filter (fun c => in_fold c e) chunks) = 1.
Proof.
  induction chunks as [|c chunks IH]; intros Hnd Hin; [contradiction|].
  simpl in *. destruct (in_fold c e) eqn:Hc.
  - simpl. f_equal. rewrite filter_none; [reflexivity|].
    intros c' Hc'. apply in_fold_not_In. intros He.
    apply in_fold_In in Hc.
    apply (NoDup_app_disjoint _ _ e Hnd Hc). apply in_concat. eauto.
  - apply IH.
    + eapply NoDup_app_remove_l; eassumption.
    + apply in_app_or in Hin. destruct Hin as [Hin|Hin]; [|assumption].
      apply in_fold_In in Hin. congruence.
Qed.

Lemma count_occ_NoDup (l : list nat) (e : nat) :
  NoDup l -> count_occ Nat.eq_dec l e = if in_fold l e then 1 else 0.
Proof.
  intros Hnd. destruct (in_fold l e) eqn:H.
  - apply in_fold_In in H. apply (proj1 (NoDup_count_occ' Nat.eq_dec l) Hnd e H).
  - apply in_fold_not_In in H. apply count_occ_not_In. assumption.
Qed.

Lemma count_occ_flat_map {A} (f : A -> list nat) (l : list A) (e : nat) :
  (forall x, In x l -> NoDup (f x)) ->
  count_occ Nat.eq_dec (flat_map f l) e
  = length (filter (fun x => in_fold (f x) e) l).
Proof.
  induction l as [|x l IH]; intros Hnd; simpl; [reflexivity|].
  rewrite count_occ_app, IH by (intros y Hy; apply Hnd; right; assumption).
  rewrite count_occ_NoDup by (apply Hnd; left; reflexivity).
  destruct (in_fold (f x) e); reflexivity.
Qed.

(** What [split] returns, with the slices named. *)
Lemma split_ok (n k : nat) (shuffled : list nat)
  (folds : list (list nat * list nat)) :
  split n k shuffled = Ok folds ->
  2 <= k <= n
  /\ folds = map (fun test_index =>
                    (filter (fun i => negb (in_fold test_index i)) (seq 0 n),
                     filter (in_fold test_index) (seq 0 n)))
                 (iter_test_indices shuffled (fold_sizes n k)).
Proof.
  unfold split. intros H.
  destruct (k <=? 1) eqn:Hk; [discriminate|].
  destruct (n <? k) eqn:Hn; [discriminate|].
  apply Nat.leb_gt in Hk. apply Nat.ltb_ge in Hn.
  injection H as <-. split; [lia | reflexivity].
Qed.

Lemma split_total (n k : nat) (shuffled : list nat) :
  2 <= k <= n -> exists folds, split n k shuffled = Ok folds.
Proof.
  intros [Hk Hn]. unfold split.
  replace (k <=? 1) with false by (symmetry; apply Nat.leb_gt; lia).
  replace (n <? k) with false by (symmetry; apply Nat.ltb_ge; lia).
  eauto.
Qed.

End KFoldFacts.

(* ================================================================== *)
(** * The trainer's contract *)

Module TrainerSpec.
Import KFold KFoldFacts Array Trainer ListFacts.

Lemma in_fold_mask (test_index : list nat) (n e : nat) :
  in_fold (filter (in_fold test_index) (seq 0 n)) e
  = in_fold test_index e && (e <? n).
Proof.
  destruct (in_fold (filter _ _) e) eqn:H.
  - apply in_fold_In, filter_In in H. destruct H as [Hseq Hin].
    apply in_seq in Hseq. rewrite Hin. symmetry. apply Nat.ltb_lt. lia.
  - apply in_fold_not_In in H. rewrite filter_In, in_seq in H.
    destruct (in_fold test_index e) eqn:Hin; [|reflexivity].
    destruct (e <? n) eqn:Hlt; [|reflexivity].
    apply Nat.ltb_lt in Hlt. exfalso. apply H. split; [lia | reflexivity].
Qed.

Lemma in_fold_unmask (test_index : list nat) (n e : nat) :
  in_fold (filter (fun i => negb (in_fold test_index i)) (seq 0 n)) e
  = negb (in_fold test_index e) && (e <? n).
Proof.
  destruct (in_fold (filter _ _) e) eqn:H.
  - apply in_fold_In, filter_In in H. destruct H as [Hseq Hin].
    apply in_seq in Hseq. rewrite Hin. symmetry. apply Nat.ltb_lt. lia.
  - apply in_fold_not_In in H. rewrite filter_In, in_seq in H.
    destruct (negb (in_fold test_index e)) eqn:Hin; [|reflexivity].
    destruct (e <? n) eqn:Hlt; [|reflexivity].
    apply Nat.ltb_lt in Hlt. exfalso. apply H. split; [lia | reflexivity].
Qed.

Lemma slices_of_permutation (n k : nat) (shuffled : list nat) :
  Permutation (seq 0 n) shuffled -> 0 < k ->
  List.concat (iter_test_indices shuffled (fold_sizes n k)) = shuffled
  /\ NoDup shuffled
  /\ forall e, In e shuffled <-> e < n.
Proof.
  intros Hperm Hk. split; [|split].
  - apply iter_test_indices_concat. rewrite fold_sizes_sum by assumption.
    rewrite <- (Permutation_length Hperm). symmetry. apply length_seq.
  - eapply Permutation_NoDup; [exact Hperm | apply seq_NoDup].
  - intros e. split.
    + intros H. apply (Permutation_in _ (Permutation_sym Hperm)) in H.
      apply in_seq in H. lia.
    + intros H. apply (Permutation_in _ Hperm). apply in_seq. lia.
Qed.

Lemma toy_shuffle : Permutation (seq 0 7) [3; 1; 6; 0; 2; 5; 4].
Proof.
  apply NoDup_Permutation.
  - apply seq_NoDup.
  - repeat (constructor; [simpl; intuition discriminate|]). constructor.
  - intros x. simpl. intuition lia.
Qed.

(** The validation folds of [split] partition the row positions. *)
Lemma validation_folds_partition (n k : nat) (shuffled : list nat) :
  Permutation (seq 0 n) shuffled ->
  (forall folds,
      split n k shuffled = Ok folds ->
      length folds = k
      /\ (forall e, e < n ->
                    length (filter (fun fold => in_fold (snd fold) e) folds) = 1)
      /\ (forall e, In e (flat_map snd folds) <-> e < n)
      /\ (forall e, e < n ->
                    count_occ Nat.eq_dec (oof_assignments folds) e = 1))
  /\ (2 <= k <= n -> exists folds, split n k shuffled = Ok folds).
Proof.
  intros Hperm. split; [|apply split_total].
  intros folds Hsplit. apply split_ok in Hsplit. destruct Hsplit as [Hk ->].
  destruct (slices_of_permutation n k shuffled Hperm ltac:(lia))
    as [Hcat [Hnd Hmem]].
  set (chunks := iter_test_indices shuffled (fold_sizes n k)) in *.
  assert (Hone : forall e, e < n ->
            length (filter (fun fold : list nat * list nat => in_fold (snd fold) e)
                      (map (fun test_index =>
                              (filter (fun i => negb (in_fold test_index i)) (seq 0 n),
                               filter (in_fold test_index) (seq 0 n))) chunks)) = 1).
  { intros e He. rewrite filter_map_swap, length_map. simpl.
    rewrite (filter_ext _ (fun c => in_fold c e)).
    - apply one_slice; rewrite Hcat; [assumption | apply Hmem; assumption].
    - intros c. rewrite in_fold_mask.
      replace (e <? n) with true by (symmetry; apply Nat.ltb_lt; assumption).
      apply andb_true_r. }
  split; [|split; [exact Hone|split]].
  - rewrite length_map. unfold chunks.
    rewrite iter_test_indices_length. apply fold_sizes_length.
  - intros e. rewrite flat_map_map. simpl.
    rewrite in_flat_map. split.
    + intros [c [_ H]]. apply filter_In in H. destruct H as [H _].
      apply in_seq in H. lia.
    + intros He. assert (Hin : In e (List.concat chunks))
        by (rewrite Hcat; apply Hmem; assumption).
      apply in_concat in Hin. destruct Hin as [c [Hc Hec]].
      exists c. split; [assumption|]. apply filter_In. split.
      * apply in_seq. lia.
      * apply in_fold_In. assumption.
  - intros e He. unfold oof_assignments.
    rewrite count_occ_flat_map; [apply Hone; assumption|].
    intros fold Hfold. apply in_map_iff in Hfold.
    destruct Hfold as [c [<- _]]. simpl.
    apply NoDup_filter, seq_NoDup.
Qed.

(** ** Index arrays *)

Lemma length_set_nth {T} (i : nat) (v : T) (l : list T) :
  length (set_nth i v l) = length l.
Proof.
  revert i. induction l as [|x l IH]; intros [|i]; simpl; auto.
Qed.

Lemma nth_set_nth {T} (i j : nat) (v d : T) (l : list T) :
  nth j (set_nth i v l) d
  = if (i =? j) && (i <? length l) then v else nth j l d.
Proof.
  revert i j. induction l as [|x l IH]; intros i j.
  - simpl. rewrite andb_false_r. destruct i; reflexivity.
  - destruct i as [|i], j as [|j]; simpl; try reflexivity.
    rewrite IH. reflexivity.
Qed.

Lemma zip_with_map {T B C D} (f : B -> C -> D) (p : T -> B) (g : T -> C)
  (l : list T) :
  zip_with f (map p l) (map g l) = map (fun i => f (p i) (g i)) l.
Proof. induction l as [|x l IH]; simpl; [reflexivity | rewrite IH; reflexivity]. Qed.

Lemma length_assign {T} (a : list T) (idx : list nat) (vals : list T) :
  length (assign a idx vals) = length a.
Proof.
  unfold assign. revert a. generalize (combine idx vals) as ivs.
  induction ivs as [|iv ivs IH]; intros a; simpl; [reflexivity|].
  rewrite IH. apply length_set_nth.
Qed.

(** Assigning [h i] at every index [i]: the indexed positions hold [h],
    the others are untouched. *)
Lemma assign_map_nth {T} (h : nat -> T) (idx : list nat) (a : list T)
  (e : nat) (d : T) :
  nth e (assign a idx (map h idx)) d
  = if in_fold idx e && (e <? length a) then h e else nth e a d.
Proof.
  unfold assign. revert a. induction idx as [|i idx IH]; intros a; simpl.
  - reflexivity.
  - rewrite IH, length_set_nth, nth_set_nth.
    unfold in_fold. simpl. fold (in_fold idx e).
    destruct (in_fold idx e); simpl.
    + rewrite orb_true_r. simpl. destruct (e <? length a) eqn:He; [reflexivity|].
      destruct (i =? e) eqn:Hie; [|reflexivity].
      apply Nat.eqb_eq in Hie. subst i. rewrite He. reflexivity.
    + rewrite orb_false_r, (Nat.eqb_sym e i).
      destruct (i =? e) eqn:Hie; [|reflexivity].
      apply Nat.eqb_eq in Hie. subst i. simpl.
      destruct (e <? length a); reflexivity.
Qed.

Lemma add_at_map_nth (A : Arith) (g : nat -> num A) (idx : list nat)
  (a : list (num A)) (e : nat) :
  nth e (add_at A a idx (map g idx)) (zero A)
  = if in_fold idx e && (e <? length a)
    then add A (nth e a (zero A)) (g e) else nth e a (zero A).
Proof.
  unfold add_at, take. rewrite zip_with_map.
  apply (assign_map_nth (fun i => add A (nth i a (zero A)) (g i))).
Qed.

Lemma length_add_at (A : Arith) (a : list (num A)) (idx : list nat)
  (vals : list (num A)) :
  length (add_at A a idx vals) = length a.
Proof. unfold add_at. apply length_assign. Qed.

Lemma nth_error_zip_with {T} (f : T -> T -> T) (xs ys : list T) (i : nat)
  (a b : T) :
  nth_error xs i = Some a -> nth_error ys i = Some b ->
  nth_error (zip_with f xs ys) i = Some (f a b).
Proof.
  revert xs ys. induction i as [|i IH]; intros [|x xs] [|y ys] Ha Hb;
    simpl in *; try discriminate.
  - congruence.
  - apply IH; assumption.
Qed.

Lemma fold_left_Qplus (l : list Q) (a : Q) :
  (fold_left Qplus l a == a + fold_left Qplus l 0)%Q.
Proof.
  revert a. induction l as [|x l IH]; intros a; simpl.
  - ring.
  - rewrite (IH (a + x)%Q), (IH (0 + x)%Q). ring.
Qed.

Lemma fold_left_scaled_sum {T} (p : T -> Q) (q : Q) (ms : list T) (a : Q) :
  (fold_left (fun acc m => acc + p m / q) ms a
   == a + fold_left Qplus (map p ms) 0 / q)%Q.
Proof.
  revert a. induction ms as [|m ms IH]; intros a; simpl.
  - unfold Qdiv. ring.
  - rewrite IH, (fold_left_Qplus _ (0 + p m)%Q). unfold Qdiv. ring.
Qed.

Section Run.

Variable A : Arith.
Variable sample : Type.
Variable model : Type.
Variable fit : list sample -> list sample -> model.
Variable predict_proba1 : model -> sample -> num A.

Lemma iloc_map (f : sample -> num A) (data : list sample) (idx : list nat) :
  (forall i, In i idx -> i < length data) ->
  map f (iloc data idx)
  = map (fun i => match nth_error data i with
                  | Some x => f x
                  | None => zero A
                  end) idx.
Proof.
  unfold iloc. induction idx as [|i idx IH]; intros Hin; simpl.
  - reflexivity.
  - destruct (nth_error data i) as [x|] eqn:Hx.
    + simpl. f_equal. apply IH. intros j Hj. apply Hin; right; assumption.
    + exfalso. apply nth_error_None in Hx.
      specialize (Hin i (or_introl eq_refl)). lia.
Qed.

(** What the loop leaves in [train_preds] at one position. *)
Lemma fold_left_train_preds (data : list sample) (k : nat)
  (folds : list (list nat * list nat)) (st : run A model) (e : nat) (x : sample) :
  (forall fold i, In fold folds -> In i (fst fold) -> i < length data) ->
  length (train_preds st) = length data ->
  nth_error data e = Some x ->
  nth e (train_preds (fold_left (fold_step fit predict_proba1 data k) folds st))
      (zero A)
  = fold_left (fun acc fold =>
                 add A acc (div A (predict_proba1 (model_of fit data fold) x)
                                  (of_nat A (k - 1))))
              (filter (fun fold => in_fold (fst fold) e) folds)
              (nth e (train_preds st) (zero A)).
Proof.
  revert st. induction folds as [|fold folds IH]; intros st Hrange Hlen Hx.
  - reflexivity.
  - simpl fold_left at 1.
    assert (He : e < length data).
    { apply nth_error_Some. congruence. }
    rewrite IH; try assumption.
    + destruct fold as [train_idx val_idx]. simpl.
      rewrite (iloc_map _ data train_idx)
        by (intros i Hi; apply (Hrange (train_idx, val_idx)); [left; reflexivity | assumption]).
      rewrite add_at_map_nth, Hx, Hlen.
      replace (e <? length data) with true by (symmetry; apply Nat.ltb_lt; assumption).
      rewrite andb_true_r.
      destruct (in_fold train_idx e); reflexivity.
    + intros fold' i Hf Hi. apply (Hrange fold' i); [right; assumption | assumption].
    + destruct fold as [train_idx val_idx]. simpl.
      rewrite length_add_at. assumption.
Qed.

Lemma fold_left_train_preds_length (data : list sample) (k : nat)
  (folds : list (list nat * list nat)) (st : run A model) :
  length (train_preds (fold_left (fold_step fit predict_proba1 data k) folds st))
  = length (train_preds st).
Proof.
  revert st. induction folds as [|[train_idx val_idx] folds IH]; intros st.
  - reflexivity.
  - simpl. rewrite IH. simpl. apply length_add_at.
Qed.

Lemma fold_left_oof_length (data : list sample) (k : nat)
  (folds : list (list nat * list nat)) (st : run A model) :
  length (oof (fold_left (fold_step fit predict_proba1 data k) folds st))
  = length (oof st).
Proof.
  revert st. induction folds as [|[train_idx val_idx] folds IH]; intros st.
  - reflexivity.
  - simpl. rewrite IH. simpl. apply length_assign.
Qed.

(** What the loop leaves in [oof] at one position: the value of the last
    fold that validates on it. *)
Lemma fold_left_oof (data : list sample) (k : nat)
  (folds : list (list nat * list nat)) (st : run A model) (e : nat) (x : sample) :
  (forall fold i, In fold folds -> In i (snd fold) -> i < length data) ->
  length (oof st) = length data ->
  nth_error data e = Some x ->
  nth e (oof (fold_left (fold_step fit predict_proba1 data k) folds st)) (zero A)
  = fold_left (fun _ fold => predict_proba1 (model_of fit data fold) x)
              (filter (fun fold => in_fold (snd fold) e) folds)
              (nth e (oof st) (zero A)).
Proof.
  revert st. induction folds as [|fold folds IH]; intros st Hrange Hlen Hx.
  - reflexivity.
  - simpl fold_left at 1.
    assert (He : e < length data).
    { apply nth_error_Some. congruence. }
    rewrite IH; try assumption.
    + destruct fold as [train_idx val_idx]. simpl.
      rewrite (iloc_map _ data val_idx)
        by (intros i Hi; apply (Hrange (train_idx, val_idx)); [left; reflexivity | assumption]).
      rewrite assign_map_nth, Hx, Hlen.
      replace (e <? length data) with true by (symmetry; apply Nat.ltb_lt; assumption).
      rewrite andb_true_r.
      destruct (in_fold val_idx e); reflexivity.
    + intros fold' i Hf Hi. apply (Hrange fold' i); [right; assumption | assumption].
    + destruct fold as [train_idx val_idx]. simpl.
      rewrite length_assign. assumption.
Qed.



(** ** Scoring *)

Lemma score_fold (g : model -> sample -> num A) (data : list sample)
  (ms : list model) (sc : list (num A)) (i : nat) (a : num A) (x : sample) :
  nth_error sc i = Some a -> nth_error data i = Some x ->
  nth_error (fold_left (fun score m => zip_with (add A) score (map (g m) data))
                       ms sc) i
  = Some (fold_left (fun acc m => add A acc (g m x)) ms a).
Proof.
  revert sc a. induction ms as [|m ms IH]; intros sc a Ha Hx; simpl.
  - assumption.
  - apply IH; [|assumption].
    apply nth_error_zip_with; [assumption|].
    rewrite nth_error_map, Hx. reflexivity.
Qed.

(** The score of a row, as the loop computes it. *)
Lemma score_at (ms : list model) (test_data : list sample) (i : nat)
  (x : sample) :
  nth_error test_data i = Some x ->
  nth_error (score predict_proba1 ms test_data) i
  = Some (fold_left
            (fun acc m => add A acc (div A (predict_proba1 m x)
                                           (of_nat A (length ms))))
            ms (zero A)).
Proof.
  intros Hx. unfold score.
  assert (Hz : nth_error (zeros A (length test_data)) i = Some (zero A)).
  { unfold zeros. rewrite nth_error_repeat; [reflexivity|].
    apply nth_error_Some. congruence. }
  exact (score_fold
           (fun m x => div A (predict_proba1 m x) (of_nat A (length ms)))
           test_data ms _ i (zero A) x Hz Hx).
Qed.

End Run.



(** C8, as stated: the score of a row is the mean of the models'
    probabilities for it.  The loop adds the probabilities divided by
    the number of models one by one, and each division and addition
    rounds: with nine models that all predict 1.0, whose mean is 1.0
    however it is taken, the score is 1.0000000000000002. *)
Lemma rounded_score_is_not_the_mean :
  ~ (forall (sample model : Type)
            (predict_proba1 : model -> sample -> num binary64)
            (ms : list model) (test_data : list sample) (i : nat) (x : sample),
        ms <> [] ->
        nth_error test_data i = Some x ->
        nth_error (score predict_proba1 ms test_data) i
        = Some (mean binary64 (map (fun m => predict_proba1 m x) ms))).
Proof.
  intros H.
  specialize (H unit unit (sure binary64) (repeat tt 9) [tt] 0 tt
                ltac:(discriminate) eq_refl).
  apply (f_equal (fun o => match o with
                           | Some f => PrimFloat.eqb f PrimFloat.one
                           | None => false
                           end)) in H.
  vm_compute in H. discriminate.
Qed.

(** C8, amended: the score of a row is the sum the loop computes: from
    zero, in the order of the model list, each model's probability for
    the row divided by the number of models, every operation in the
    arithmetic of the arrays (binary64 in numpy).  It is determined by
    the models' probabilities for the row, and in exact arithmetic it is
    the unweighted mean of these probabilities. *)
Theorem score_is_scaled_sum (sample model : Type) (ms : list model)
  (test_data : list sample) (i : nat) (x : sample) :
  nth_error test_data i = Some x ->
  (forall (A : Arith) (predict_proba1 : model -> sample -> num A),
      nth_error (score predict_proba1 ms test_data) i
      = Some (fold_left
                (fun acc m => add A acc (div A (predict_proba1 m x)
                                               (of_nat A (length ms))))
                ms (zero A)))
  /\ (forall (A : Arith) (predict_proba1 predict_proba1' : model -> sample -> num A),
        map (fun m => predict_proba1 m x) ms
        = map (fun m => predict_proba1' m x) ms ->
        nth_error (score predict_proba1 ms test_data) i
        = nth_error (score predict_proba1' ms test_data) i)
  /\ (forall predict_proba1 : model -> sample -> num exact,
        ms <> [] ->
        exists s,
          nth_error (score predict_proba1 ms test_data) i = Some s
          /\ (s == mean exact (map (fun m => predict_proba1 m x) ms))%Q).
Proof.
  intros Hx. split; [|split].
  - intros A predict_proba1. apply score_at. assumption.
  - intros A p p' Heq. rewrite !(score_at _ _ _ _ _ _ _ x Hx). f_equal.
    generalize (of_nat A (length ms)) as q. generalize (zero A) as a.
    induction ms as [|m ms' IH]; intros a q; [reflexivity|].
    simpl in Heq |- *. injection Heq as Hm Heq. rewrite Hm.
    apply IH. assumption.
  - intros predict_proba1 _. rewrite (score_at _ _ _ _ _ _ _ x Hx).
    eexists. split; [reflexivity|].
    unfold mean, sum. simpl.
    rewrite (fold_left_scaled_sum (fun m => predict_proba1 m x)).
    rewrite length_map. ring.
Qed.

Lemma score_is_scaled_sum_witness :
  nth_error [0; 1] 1 = Some 1
  /\ nth_error (score (A := exact) (fun (m : Q) (x : nat) => m)
                      [1 # 2; 1 # 4] [0; 1]) 1
     = Some (0 + (1 # 2) / 2 + (1 # 4) / 2)%Q
  /\ nth_error (score (sure binary64) (repeat tt 9) [tt; tt]) 1
     = Some (fold_left (fun acc _ => PrimFloat.add acc
                                       (PrimFloat.div PrimFloat.one
                                                      (of_nat binary64 9)))
                       (repeat tt 9) PrimFloat.zero).
Proof.
  split; [reflexivity|]. split.
  - exact (proj1 (score_is_scaled_sum nat Q [1 # 2; 1 # 4] [0; 1] 1 1 eq_refl)
             exact (fun (m : Q) (x : nat) => m)).
  - exact (proj1 (score_is_scaled_sum unit unit (repeat tt 9) [tt; tt] 1 tt eq_refl)
             binary64 (sure binary64)).
Defined.

End TrainerSpec.

(* ================================================================== *)
(** * Further laws of the aggregator *)

Module AggregatorLaws.
Import Frame Reader Aggregator Schema Measures.
Import ListFacts FrameFacts AggregatorFacts AggregatorSpec.

(** X1: [fit_transform] returns a table exactly when the batch size and
    the partition count are positive, every batch can be read and
    encoded (its partitions are stored, there is a categorical column, no
    one-hot name is the name of a categorical column) and the sink, if
    any, is an existing directory; [transform] exactly when, in
    addition, the aggregator is fitted.  A failed [fit_transform] leaves
    the aggregator as it was. *)
Theorem call_outcomes (ds : dataset) (chunk total : nat)
  (save_to_path : option string) (w : world) :
  (is_ok (fst (fit_transform ds chunk total save_to_path w)) = true
   <-> 0 < chunk /\ 0 < total
       /\ call_ready ds chunk total save_to_path w = true)
  /\ (is_ok (fst (transform ds chunk total save_to_path w)) = true
      <-> 0 < chunk /\ 0 < total
          /\ call_ready ds chunk total save_to_path w = true
          /\ encoded_features (self w) <> None)
  /\ (is_ok (fst (fit_transform ds chunk total save_to_path w)) = false ->
      self (snd (fit_transform ds chunk total save_to_path w)) = self w).
Proof.
  unfold fit_transform, transform.
  destruct (call_cases ds chunk total save_to_path w)
    as [-> | [[Hc ->] | [[Hc [Ht Hr]] | [Hc [Ht Hr]]]]].
  - rewrite !transform_data_zero_step by auto. simpl.
    repeat split; try discriminate; intros; lia.
  - rewrite !transform_data_no_batch by auto. simpl.
    repeat split; try discriminate; intros; lia.
  - destruct (call_stuck ds chunk total "fit_transform" save_to_path w
                (or_introl eq_refl) Hc Ht Hr)
      as [e1 [done1 [step1 [rest1 [_ [He1 _]]]]]].
    destruct (call_stuck ds chunk total "transform" save_to_path w
                (or_intror eq_refl) Hc Ht Hr)
      as [e2 [done2 [step2 [rest2 [_ [He2 _]]]]]].
    rewrite He1, He2. simpl.
    repeat split; try discriminate; try (intros [_ [_ [H _]]]; congruence).
    intros [_ [_ H]]; congruence.
  - fold (fit_transform ds chunk total save_to_path w).
    fold (transform ds chunk total save_to_path w).
    rewrite (fit_transform_run ds chunk total save_to_path w Hc Ht Hr).
    rewrite (transform_run ds chunk total save_to_path w Hc Ht Hr). simpl.
    destruct (encoded_features (self w)) as [enc|]; simpl.
    + repeat split; try discriminate; auto.
    + repeat split; try discriminate; auto.
      intros [_ [_ [_ H]]]. congruence.
Qed.

(** X2: after a successful [fit_transform] the schema is the column list
    of the returned table; no column and no column name occurs twice in
    it; it holds a one-hot column exactly when the column is a column of
    the dataset and, in some batch that reads the column in the column's
    number format, a record holds the value; every row has one cell per
    schema column. *)
Theorem fit_transform_schema (ds : dataset) (chunk total : nat)
  (save_to_path : option string) (w w' : world) (t : Table nat) :
  fit_transform ds chunk total save_to_path w = (Ok t, w') ->
  encoded_features (self w') = Some (columns t)
  /\ NoDup (columns t)
  /\ NoDup (map name (columns t))
  /\ well_formed t
  /\ forall l,
       In l (columns t) <->
       In (l_column l) (ds_columns ds)
       /\ exists df,
            In df (batches ds chunk (steps_of total chunk))
            /\ l_float l = has_missing (records df) (l_column l)
            /\ exists r, In r (records df) /\ takes r l = true.
Proof.
  intros Hrun. apply fit_transform_inv in Hrun.
  destruct Hrun as [_ [_ [_ [-> ->]]]]. simpl.
  split; [reflexivity|]. split; [apply union_columns_NoDup|].
  split; [apply names_NoDup, union_columns_NoDup|].
  split; [apply aligned_rows_well_formed|].
  intros l. unfold observed_columns.
  rewrite union_columns_In, in_flat_map. split.
  - intros [[df [Hdf Hl]] _]. apply in_get_dummies_columns in Hl.
    destruct Hl as [Hc [Hf Hr]].
    rewrite (batches_columns _ _ _ _ Hdf) in Hc. split; [assumption|].
    exists df. auto.
  - intros [Hc [df [Hdf [Hf Hr]]]]. split; [|intros []].
    exists df. split; [assumption|]. apply in_get_dummies_columns.
    rewrite (batches_columns _ _ _ _ Hdf). auto.
Qed.

Lemma fit_transform_schema_witness :
  fit_transform toy_missing 1 2 None fresh
  = (Ok (mkTable [onehot "a" 1; onehot_float "b" 1; onehot "b" 1]
                 [(10%Z, [2; 1; 0]); (11%Z, [1; 0; 1])]),
     mkWorld (mkAggregator (Some [onehot "a" 1; onehot_float "b" 1; onehot "b" 1]))
             ["out"%string] [(0, 1); (1, 1)] [])
  /\ map name [onehot "a" 1; onehot_float "b" 1; onehot "b" 1]
     = ["a_1"; "b_1.0"; "b_1"]%string
  /\ NoDup (map name [onehot "a" 1; onehot_float "b" 1; onehot "b" 1]).
Proof.
  split; [reflexivity|]. split; [reflexivity|].
  exact (proj1 (proj2 (proj2
           (fit_transform_schema toy_missing 1 2 None fresh _ _ eq_refl)))).
Defined.

(** X3: [fit_transform] does not look at an earlier fit: in a session
    with given directories, from any two states of the aggregator, of
    the read log and of the sink, the same call returns the same result,
    and where it succeeds it leaves the same schema. *)
Theorem refit_replaces_schema (ds : dataset) (chunk total : nat)
  (save_to_path : option string) (session : list string)
  (self1 self2 : CountAggregator) (reads1 reads2 : list (nat * nat))
  (sink1 sink2 : list artifact) :
  let w1 := mkWorld self1 session reads1 sink1 in
  let w2 := mkWorld self2 session reads2 sink2 in
  fst (fit_transform ds chunk total save_to_path w1)
  = fst (fit_transform ds chunk total save_to_path w2)
  /\ (is_ok (fst (fit_transform ds chunk total save_to_path w1)) = true ->
      self (snd (fit_transform ds chunk total save_to_path w1))
      = self (snd (fit_transform ds chunk total save_to_path w2))).
Proof.
  intros w1 w2.
  assert (Hdirs : dirs w1 = dirs w2) by reflexivity.
  pose proof (call_ready_dirs ds chunk total save_to_path w1 w2 Hdirs) as Hready.
  unfold fit_transform.
  destruct (call_cases ds chunk total save_to_path w1)
    as [-> | [[Hc ->] | [[Hc [Ht Hr]] | [Hc [Ht Hr]]]]].
  - rewrite !transform_data_zero_step by auto. split; [reflexivity | discriminate].
  - rewrite !transform_data_no_batch by auto. split; [reflexivity | discriminate].
  - destruct (call_stuck ds chunk total "fit_transform" save_to_path w1
                (or_introl eq_refl) Hc Ht Hr)
      as [e1 [done1 [step1 [rest1 [_ [He1 [_ Hl1]]]]]]].
    rewrite Hready in Hr.
    destruct (call_stuck ds chunk total "fit_transform" save_to_path w2
                (or_introl eq_refl) Hc Ht Hr)
      as [e2 [done2 [step2 [rest2 [_ [He2 [_ Hl2]]]]]]].
    rewrite He1, He2. simpl.
    pose proof (batch_loop_ext ds chunk "fit_transform" save_to_path
                  (steps_of total chunk) w1 w2 Hdirs) as Hloop.
    rewrite Hl1, Hl2 in Hloop. injection Hloop as ->.
    split; [reflexivity | discriminate].
  - fold (fit_transform ds chunk total save_to_path w1).
    fold (fit_transform ds chunk total save_to_path w2).
    rewrite (fit_transform_run ds chunk total save_to_path w1 Hc Ht Hr).
    rewrite Hready in Hr.
    rewrite (fit_transform_run ds chunk total save_to_path w2 Hc Ht Hr).
    split; reflexivity.
Qed.

Lemma refit_replaces_schema_witness :
  fst (fit_transform toy 1 2 None fitted)
  = fst (fit_transform toy 1 2 None fresh)
  /\ encoded_features (self (snd (fit_transform toy 1 2 None fitted)))
     = Some [onehot "a" 1; onehot "a" 2; onehot "b" 1; onehot "b" 2].
Proof.
  split; [|reflexivity].
  exact (proj1 (refit_replaces_schema toy 1 2 None ["out"%string]
                  (mkAggregator (Some toy_schema)) init [] [] [] [])).
Defined.

(** X4: [transform] after [fit_transform], on the same data with the same
    batching, returns the table [fit_transform] returned; the one thing
    that can stop it is a sink directory that does not exist. *)
Theorem transform_after_fit_same_data (ds : dataset) (chunk total : nat)
  (save1 save2 : option string) (w w1 w2 : world) (t : Table nat) :
  fit_transform ds chunk total save1 w = (Ok t, w1) ->
  self w2 = self w1 ->
  fst (transform ds chunk total save2 w2)
  = if writable save2 w2 then Ok t else Raise missing_directory.
Proof.
  intros Hfit Hself. apply fit_transform_inv in Hfit.
  destruct Hfit as [Hc [Ht [Hr [-> ->]]]].
  unfold call_ready in Hr. apply andb_true_iff in Hr. destruct Hr as [Hr _].
  destruct (writable save2 w2) eqn:Hw.
  - assert (Hr2 : call_ready ds chunk total save2 w2 = true).
    { unfold call_ready. rewrite Hr, Hw. reflexivity. }
    rewrite (transform_run ds chunk total save2 w2 Hc Ht Hr2), Hself.
    reflexivity.
  - apply call_unwritable; auto.
Qed.

Lemma transform_after_fit_same_data_witness :
  fst (transform toy 1 2 (Some "out"%string)
                 (snd (fit_transform toy 1 2 None fresh)))
  = fst (fit_transform toy 1 2 None fresh)
  /\ fst (transform toy 1 2 (Some "nowhere"%string)
                    (snd (fit_transform toy 1 2 None fresh)))
     = Raise missing_directory.
Proof.
  pose proof (fun save2 =>
    transform_after_fit_same_data toy 1 2 None save2 fresh
      (snd (fit_transform toy 1 2 None fresh))
      (snd (fit_transform toy 1 2 None fresh))
      (mkTable [onehot "a" 1; onehot "a" 2; onehot "b" 1; onehot "b" 2]
               [(10%Z, [1; 1; 2; 0]); (11%Z, [1; 0; 0; 1]);
                (12%Z, [1; 2; 2; 1])])
      eq_refl eq_refl) as H.
  split.
  - exact (H (Some "out"%string)).
  - exact (H (Some "nowhere"%string)).
Defined.

(** A table returned by [transform] after a fit is laid out on the
    columns of the fit table. *)
Lemma transform_after_fit (ds1 ds2 : dataset)
  (chunk1 total1 chunk2 total2 : nat) (save1 save2 : option string)
  (w w1 w2 w3 : world) (t1 t2 : Table nat) :
  fit_transform ds1 chunk1 total1 save1 w = (Ok t1, w1) ->
  self w2 = self w1 ->
  transform ds2 chunk2 total2 save2 w2 = (Ok t2, w3) ->
  t2 = mkTable (columns t1)
         (aligned_rows (columns t1)
            (batches ds2 chunk2 (steps_of total2 chunk2))).
Proof.
  intros Hfit Hself Htr.
  apply fit_transform_inv in Hfit. destruct Hfit as [_ [_ [_ [-> ->]]]].
  apply transform_inv in Htr. destruct Htr as [_ [_ [_ [schema [Hs [-> _]]]]]].
  rewrite Hself in Hs. simpl in Hs. injection Hs as <-. reflexivity.
Qed.

(** X5: a table [transform] returns after a [fit_transform] has the
    header of the table that fit returned, and selecting the fit table's
    columns from it succeeds and gives it back: the scoring cell's
    [test_data[feature_cols]] cannot miss a column. *)
Theorem transform_matches_fit_header (ds1 ds2 : dataset)
  (chunk1 total1 chunk2 total2 : nat) (save1 save2 : option string)
  (w w1 w2 w3 : world) (t1 t2 : Table nat) :
  fit_transform ds1 chunk1 total1 save1 w = (Ok t1, w1) ->
  self w2 = self w1 ->
  transform ds2 chunk2 total2 save2 w2 = (Ok t2, w3) ->
  header t2 = header t1
  /\ well_formed t2
  /\ select t2 (columns t1) = Ok t2.
Proof.
  intros Hfit Hself Htr.
  rewrite (transform_after_fit _ _ _ _ _ _ _ _ _ _ _ _ _ _ Hfit Hself Htr).
  split; [reflexivity|]. split.
  - apply aligned_rows_well_formed.
  - simpl. apply select_aligned. auto.
Qed.

(** A second dataset whose column [a] shows a value the toy data lacks,
    and lacks the value 2. *)
Lemma transform_matches_fit_header_witness :
  exists t1 w1 t2 w3,
    fit_transform toy 1 2 None fresh = (Ok t1, w1)
    /\ transform (mkDataset ["a"%string; "b"%string]
                    [[rec 20 0 1 1; rec 20 1 3 1]]) 1 1 None w1 = (Ok t2, w3)
    /\ rows t2 = [(20%Z, [1; 0; 2; 0])]
    /\ header t2 = header t1
    /\ select t2 (columns t1) = Ok t2.
Proof.
  exists (mkTable [onehot "a" 1; onehot "a" 2; onehot "b" 1; onehot "b" 2]
                  [(10%Z, [1; 1; 2; 0]); (11%Z, [1; 0; 0; 1]);
                   (12%Z, [1; 2; 2; 1])]),
         (mkWorld (mkAggregator (Some [onehot "a" 1; onehot "a" 2;
                                       onehot "b" 1; onehot "b" 2]))
                  ["out"%string] [(0, 1); (1, 1)] []),
         (mkTable [onehot "a" 1; onehot "a" 2; onehot "b" 1; onehot "b" 2]
                  [(20%Z, [1; 0; 2; 0])]),
         (mkWorld (mkAggregator (Some [onehot "a" 1; onehot "a" 2;
                                       onehot "b" 1; onehot "b" 2]))
                  ["out"%string] [(0, 1); (1, 1); (0, 1)] []).
  split; [reflexivity|]. split; [reflexivity|]. split; [reflexivity|].
  pose proof (transform_matches_fit_header toy
                (mkDataset ["a"%string; "b"%string]
                   [[rec 20 0 1 1; rec 20 1 3 1]])
                1 2 1 1 None None fresh _ _ _ _ _ eq_refl eq_refl eq_refl) as H.
  destruct H as [Hh [_ Hs]]. split; [exact Hh | exact Hs].
Defined.

(** ** What a call reads *)

Lemma firstn_add_skipn {A} (a b : nat) (l : list A) :
  firstn (a + b) l = firstn a l ++ firstn b (skipn a l).
Proof.
  revert l. induction a as [|a IH]; intros l; [reflexivity|].
  destruct l as [|x l]; simpl.
  - rewrite firstn_nil. reflexivity.
  - rewrite IH. reflexivity.
Qed.

Lemma chunked_firstn {A} (chunk : nat) (l : list A) (m : nat) :
  flat_map (fun k => firstn chunk (skipn (k * chunk) l)) (seq 0 m)
  = firstn (m * chunk) l.
Proof.
  induction m as [|m IH]; [reflexivity|].
  rewrite seq_S, flat_map_app, IH. simpl.
  rewrite app_nil_r, (Nat.add_comm chunk).
  symmetry. apply firstn_add_skipn.
Qed.

Lemma concat_flat_map {A B} (f : A -> list (list B)) (l : list A) :
  List.concat (flat_map f l) = flat_map (fun x => List.concat (f x)) l.
Proof.
  induction l as [|x l IH]; simpl; [reflexivity|].
  rewrite concat_app, IH. reflexivity.
Qed.

Lemma batch_count_bounds (total chunk : nat) :
  0 < chunk ->
  total <= batch_count total chunk * chunk
  /\ batch_count total chunk * chunk < total + chunk.
Proof.
  intros Hc. unfold batch_count.
  pose proof (Nat.div_mod_eq (total + chunk - 1) chunk) as Hdm.
  pose proof (Nat.mod_upper_bound (total + chunk - 1) chunk ltac:(lia)) as Hmod.
  nia.
Qed.

Lemma all_records_batches (ds : dataset) (chunk total : nat) :
  all_records (batches ds chunk (steps_of total chunk))
  = List.concat (firstn (batch_count total chunk * chunk) (partitions ds)).
Proof.
  unfold all_records, batches, steps_of. rewrite !flat_map_map.
  unfold batch. simpl.
  rewrite <- (concat_flat_map
                (fun k => firstn chunk (skipn (k * chunk) (partitions ds)))).
  rewrite chunked_firstn. reflexivity.
Qed.

Lemma ids_of_returned (schema : list label) (dfs : list DataFrame) (e : Z) :
  In e (map fst (aligned_rows schema dfs))
  <-> exists r, In r (all_records dfs) /\ r_id r = e.
Proof.
  rewrite ids_aligned_rows, in_flat_map. unfold all_records. split.
  - intros [df [Hdf He]]. apply sorted_unique_In, in_map_iff in He.
    destruct He as [r [Hid Hr]]. exists r. split; [|assumption].
    apply in_flat_map. eauto.
  - intros [r [Hr Hid]]. apply in_flat_map in Hr. destruct Hr as [df [Hdf Hr]].
    exists df. split; [assumption|]. apply sorted_unique_In.
    rewrite <- Hid. apply in_map. assumption.
Qed.

(** X6: a call that returns a table has read [ceil(total / chunk)]
    whole batches at the offsets 0, chunk, 2 chunk, ...: the records of
    the first [ceil(total / chunk) * chunk] partitions, which the dataset
    must store, so when the batch size does not divide [num_parts_total]
    the call reads up to [chunk - 1] partitions beyond it; the ids of
    the table are the ids of these records. *)
Theorem records_read (ds : dataset) (chunk total : nat)
  (save_to_path : option string) (w w' : world) (t : Table nat) :
  fit_transform ds chunk total save_to_path w = (Ok t, w')
  \/ transform ds chunk total save_to_path w = (Ok t, w') ->
  let read := batch_count total chunk * chunk in
  total <= read < total + chunk
  /\ read <= length (partitions ds)
  /\ read_log w'
     = read_log w
       ++ map (fun k => (k * chunk, chunk)) (seq 0 (batch_count total chunk))
  /\ forall e,
       In e (ids t)
       <-> exists r, In r (List.concat (firstn read (partitions ds)))
                     /\ r_id r = e.
Proof.
  intros Hrun read.
  assert (H : 0 < chunk /\ 0 < total
              /\ call_ready ds chunk total save_to_path w = true
              /\ read_log w'
                 = read_log w
                   ++ map (fun step => (step, chunk)) (steps_of total chunk)
              /\ exists schema,
                   t = mkTable schema
                         (aligned_rows schema
                            (batches ds chunk (steps_of total chunk)))).
  { destruct Hrun as [Hrun|Hrun].
    - apply fit_transform_inv in Hrun.
      destruct Hrun as [Hc [Ht [Hr [-> ->]]]]. simpl. eauto 8.
    - apply transform_inv in Hrun.
      destruct Hrun as [Hc [Ht [Hr [schema [_ [-> ->]]]]]]. simpl. eauto 8. }
  destruct H as [Hc [Ht [Hr [Hlog [schema ->]]]]].
  pose proof (batch_count_bounds total chunk Hc) as Hb.
  split; [exact Hb|]. split; [|split].
  - assert (Hm : 0 < batch_count total chunk).
    { destruct (batch_count total chunk); [simpl in Hb; lia | lia]. }
    destruct (call_ready_in_range ds chunk total save_to_path w
                ((batch_count total chunk - 1) * chunk) Hr) as [Hin _].
    { unfold steps_of. apply in_map_iff.
      exists (batch_count total chunk - 1). split; [reflexivity|].
      apply in_seq. unfold batch_count in *. lia. }
    unfold read. nia.
  - rewrite Hlog. unfold steps_of, batch_count. rewrite map_map. reflexivity.
  - intros e. unfold ids. simpl. rewrite ids_of_returned.
    rewrite all_records_batches. reflexivity.
Qed.

Lemma records_read_witness :
  exists t w',
    fit_transform (mkDataset ["a"%string; "b"%string]
                     [[rec 10 0 1 1]; [rec 11 0 1 2]; [rec 12 0 2 2];
                      [rec 13 0 2 1]])
                  2 3 None fresh = (Ok t, w')
    /\ batch_count 3 2 * 2 = 4
    /\ read_log w' = [(0, 2); (2, 2)]
    /\ ids t = [10%Z; 11%Z; 12%Z; 13%Z].
Proof.
  exists (mkTable [onehot "a" 1; onehot "b" 1; onehot "b" 2; onehot "a" 2]
                  [(10%Z, [1; 1; 0; 0]); (11%Z, [1; 0; 1; 0]);
                   (12%Z, [0; 0; 1; 1]); (13%Z, [0; 1; 0; 1])]),
         (mkWorld (mkAggregator (Some [onehot "a" 1; onehot "b" 1;
                                       onehot "b" 2; onehot "a" 2]))
                  ["out"%string] [(0, 2); (2, 2)] []).
  split; [reflexivity|]. split; [reflexivity|].
  pose proof (records_read
                (mkDataset ["a"%string; "b"%string]
                   [[rec 10 0 1 1]; [rec 11 0 1 2]; [rec 12 0 2 2];
                    [rec 13 0 2 1]])
                2 3 None fresh _ _ (or_introl eq_refl)) as H.
  cbv zeta in H. destruct H as [_ [_ [Hlog _]]].
  split; [exact Hlog | reflexivity].
Defined.

(** ** Rows per entity *)

Lemma count_occ_sorted_unique (rs : list record) (e : Z) :
  count_occ Z.eq_dec (sorted_unique (map r_id rs)) e
  = if has_entity e rs then 1 else 0.
Proof.
  destruct (has_entity e rs) eqn:H.
  - apply (proj1 (NoDup_count_occ' Z.eq_dec _) (sorted_unique_NoDup _)).
    apply sorted_unique_In. unfold has_entity in H.
    apply existsb_exists in H. destruct H as [r [Hr Hid]].
    apply Z.eqb_eq in Hid. subst e. apply in_map. assumption.
  - apply count_occ_not_In. rewrite sorted_unique_In, in_map_iff.
    intros [r [Hid Hr]]. rewrite has_entity_false in H.
    apply (H r Hr Hid).
Qed.

Lemma count_occ_ids (schema : list label) (dfs : list DataFrame) (e : Z) :
  count_occ Z.eq_dec (map fst (aligned_rows schema dfs)) e
  = length (batches_with e dfs).
Proof.
  rewrite ids_aligned_rows. unfold batches_with.
  induction dfs as [|df dfs IH]; simpl; [reflexivity|].
  rewrite count_occ_app, IH, count_occ_sorted_unique.
  destruct (has_entity e (records df)); reflexivity.
Qed.

(** X7: in the table either mode returns, an entity has one row per
    batch that holds records of it: an id whose records are spread over
    several batches appears that many times, and an id in no batch read
    does not appear. *)
Theorem rows_per_entity (ds : dataset) (chunk total : nat)
  (save_to_path : option string) (w w' : world) (t : Table nat) (e : Z) :
  fit_transform ds chunk total save_to_path w = (Ok t, w')
  \/ transform ds chunk total save_to_path w = (Ok t, w') ->
  count_occ Z.eq_dec (ids t) e
  = length (batches_with e (batches ds chunk (steps_of total chunk))).
Proof.
  intros Hrun. destruct (returned_table _ _ _ _ _ _ _ Hrun) as [schema ->].
  apply count_occ_ids.
Qed.

(** Entity 10 has records in both partitions. *)
Lemma rows_per_entity_witness :
  exists t w',
    fit_transform (mkDataset ["a"%string; "b"%string]
                     [[rec 10 0 1 1]; [rec 10 1 2 1; rec 11 0 1 2]])
                  1 2 None fresh = (Ok t, w')
    /\ ids t = [10%Z; 10%Z; 11%Z]
    /\ count_occ Z.eq_dec (ids t) 10%Z = 2.
Proof.
  exists (mkTable [onehot "a" 1; onehot "b" 1; onehot "a" 2; onehot "b" 2]
                  [(10%Z, [1; 1; 0; 0]); (10%Z, [0; 1; 1; 0]);
                   (11%Z, [1; 0; 0; 1])]),
         (mkWorld (mkAggregator (Some [onehot "a" 1; onehot "b" 1;
                                       onehot "a" 2; onehot "b" 2]))
                  ["out"%string] [(0, 1); (1, 1)] []).
  split; [reflexivity|]. split; [reflexivity|].
  exact (eq_trans
           (rows_per_entity
              (mkDataset ["a"%string; "b"%string]
                         [[rec 10 0 1 1]; [rec 10 1 2 1; rec 11 0 1 2]])
              1 2 None fresh
              (mkWorld (mkAggregator (Some [onehot "a" 1; onehot "b" 1;
                                            onehot "a" 2; onehot "b" 2]))
                       ["out"%string] [(0, 1); (1, 1)] [])
              (mkTable [onehot "a" 1; onehot "b" 1; onehot "a" 2; onehot "b" 2]
                       [(10%Z, [1; 1; 0; 0]); (10%Z, [0; 1; 1; 0]);
                        (11%Z, [1; 0; 0; 1])])
              10%Z (or_introl eq_refl))
           eq_refl).
Defined.

(** ** Column totals *)

(** Summed over the ids of a batch, the counts of a label are the
    records of the batch that take it. *)
Lemma group_sum_total (rs : list record) (l : label) (L : list Z) :
  NoDup L -> (forall r, In r rs -> In (r_id r) L) ->
  list_sum (map (fun e => group_sum rs e l) L) = length (taking l rs).
Proof.
  intros Hnd. unfold taking. induction rs as [|r rs IH]; intros Hin.
  - simpl. apply list_sum_map_zero. reflexivity.
  - rewrite (map_ext _ _ (fun e => group_sum_cons r rs e l)).
    rewrite list_sum_map_add.
    rewrite IH by (intros r' Hr'; apply Hin; right; assumption).
    rewrite (list_sum_single _ L (r_id r)); try assumption.
    + rewrite Z.eqb_refl. simpl. unfold indicator.
      destruct (takes r l); reflexivity.
    + apply Hin. left; reflexivity.
    + intros y _ Hy. replace (Z.eqb (r_id r) y) with false; [reflexivity|].
      symmetry. apply Z.eqb_neq. congruence.
Qed.

Lemma untaken_outside_dummies (df : DataFrame) (l : label) :
  In (l_column l) (feature_columns df) -> ~ In l (get_dummies_columns df) ->
  counted_under l df = [].
Proof.
  intros Hc Hn. unfold counted_under.
  destruct (Bool.eqb (l_float l) (has_missing (records df) (l_column l))) eqn:Hf;
    [|reflexivity].
  apply Bool.eqb_prop in Hf.
  unfold taking. apply filter_none. intros r Hr.
  destruct (takes r l) eqn:Ht; [|reflexivity].
  exfalso. apply Hn. apply in_get_dummies_columns. eauto.
Qed.

Lemma counted_in_dummies (df : DataFrame) (l : label) :
  In l (get_dummies_columns df) -> counted_under l df = taking l (records df).
Proof.
  intros Hl. apply in_get_dummies_columns in Hl. destruct Hl as [_ [Hf _]].
  unfold counted_under. rewrite Hf, Bool.eqb_reflx. reflexivity.
Qed.

Lemma column_total_aligned (cols : list string) (schema : list label)
  (dfs : list DataFrame) (l : label) :
  (forall df, In df dfs -> feature_columns df = cols) ->
  In l schema -> In (l_column l) cols ->
  list_sum (column_of (mkTable schema (aligned_rows schema dfs)) l)
  = list_sum (map (fun df => length (counted_under l df)) dfs).
Proof.
  intros Hcols Hl Hc. unfold column_of. simpl.
  induction dfs as [|df dfs IH].
  - reflexivity.
  - change (df :: dfs) with ([df] ++ dfs).
    rewrite aligned_rows_app, !map_app, !list_sum_app.
    rewrite IH by (intros df' Hdf'; apply Hcols; right; assumption).
    f_equal. rewrite aligned_rows_single, map_map.
    unfold aligned_row. simpl.
    rewrite (map_ext _ (fun e => if mem l (get_dummies_columns df)
                                 then group_sum (records df) e l else 0)).
    2:{ intros e. rewrite cell_at_map.
        replace (mem l schema) with true by (symmetry; apply mem_In; assumption).
        reflexivity. }
    rewrite Nat.add_0_r.
    destruct (mem l (get_dummies_columns df)) eqn:Hm.
    + apply mem_In in Hm. rewrite (counted_in_dummies _ _ Hm).
      apply group_sum_total; [apply sorted_unique_NoDup|].
      intros r Hr. apply sorted_unique_In, in_map. assumption.
    + rewrite list_sum_map_zero by reflexivity.
      apply mem_not_In in Hm.
      rewrite untaken_outside_dummies; [reflexivity| |assumption].
      rewrite (Hcols df) by (left; reflexivity). assumption.
Qed.

(** X8: aggregation keeps the totals, per column name: in the table
    either mode returns, a one-hot column of a dataset column sums, over
    all rows, to the number of records that hold the value in the batches
    that read the column in the number format of the name ([b_1] counts
    the batches where [b] has no missing value, [b_1.0] the others),
    whether or not entities stay within one batch. *)
Theorem column_totals (ds : dataset) (chunk total : nat)
  (save_to_path : option string) (w w' : world) (t : Table nat) (l : label) :
  fit_transform ds chunk total save_to_path w = (Ok t, w')
  \/ transform ds chunk total save_to_path w = (Ok t, w') ->
  In l (columns t) -> In (l_column l) (ds_columns ds) ->
  list_sum (column_of t l)
  = list_sum (map (fun df => length (counted_under l df))
                  (batches ds chunk (steps_of total chunk))).
Proof.
  intros Hrun Hl Hc.
  destruct (returned_table _ _ _ _ _ _ _ Hrun) as [schema ->]. simpl in Hl.
  apply (column_total_aligned (ds_columns ds)); try assumption.
  apply batches_columns.
Qed.

Lemma column_totals_witness :
  exists t w',
    fit_transform toy_missing 1 2 None fresh = (Ok t, w')
    /\ list_sum (column_of t (onehot "b" 1)) = 1
    /\ list_sum (column_of t (onehot_float "b" 1)) = 1
    /\ list_sum (column_of t (onehot "a" 1)) = 3.
Proof.
  exists (mkTable [onehot "a" 1; onehot_float "b" 1; onehot "b" 1]
                  [(10%Z, [2; 1; 0]); (11%Z, [1; 0; 1])]),
         (mkWorld (mkAggregator
                     (Some [onehot "a" 1; onehot_float "b" 1; onehot "b" 1]))
                  ["out"%string] [(0, 1); (1, 1)] []).
  split; [reflexivity|].
  split; [|split; reflexivity].
  exact (eq_trans
           (column_totals toy_missing 1 2 None fresh
              (mkWorld (mkAggregator
                          (Some [onehot "a" 1; onehot_float "b" 1; onehot "b" 1]))
                       ["out"%string] [(0, 1); (1, 1)] [])
              (mkTable [onehot "a" 1; onehot_float "b" 1; onehot "b" 1]
                       [(10%Z, [2; 1; 0]); (11%Z, [1; 0; 1])])
              (onehot "b" 1) (or_introl eq_refl)
              (or_intror (or_intror (or_introl eq_refl)))
              (or_intror (or_introl eq_refl)))
           eq_refl).
Defined.

(** ** Entities without values *)

Lemma all_missing_spec (cols : list string) (e : Z) (rs : list record) :
  all_missing cols e rs = true ->
  forall r c, In r rs -> r_id r = e -> In c cols ->
              cat_value (r_cats r) c = None.
Proof.
  unfold all_missing. intros H r c Hr Hid Hc.
  rewrite forallb_forall in H. specialize (H r Hr).
  rewrite Hid, Z.eqb_refl in H. simpl in H.
  rewrite forallb_forall in H. specialize (H c Hc).
  destruct (cat_value (r_cats r) c); [discriminate | reflexivity].
Qed.

Lemma group_sum_untaken (rs : list record) (e : Z) (l : label) :
  (forall r, In r rs -> r_id r = e -> takes r l = false) ->
  group_sum rs e l = 0.
Proof.
  intros H. induction rs as [|r rs IH]; [reflexivity|].
  rewrite group_sum_cons.
  rewrite IH by (intros r' Hr'; apply H; right; assumption).
  destruct (Z.eqb (r_id r) e) eqn:Hid; [|reflexivity].
  apply Z.eqb_eq in Hid. unfold indicator.
  rewrite (H r (or_introl eq_refl) Hid). reflexivity.
Qed.

(** X9: an entity none of whose records has a value in any categorical
    column is not dropped: in the table either mode returns it has its
    rows (one per batch holding it), and every cell of them is 0. *)
Theorem entity_without_values (ds : dataset) (chunk total : nat)
  (save_to_path : option string) (w w' : world) (t : Table nat) (e : Z) :
  fit_transform ds chunk total save_to_path w = (Ok t, w')
  \/ transform ds chunk total save_to_path w = (Ok t, w') ->
  has_entity e (all_records (batches ds chunk (steps_of total chunk))) = true ->
  all_missing (ds_columns ds) e
              (all_records (batches ds chunk (steps_of total chunk))) = true ->
  rows_of t e <> []
  /\ forall row, In row (rows_of t e) -> Forall (fun c => c = 0) (snd row).
Proof.
  intros Hrun Hhas Hmiss.
  set (dfs := batches ds chunk (steps_of total chunk)) in *.
  destruct (returned_table _ _ _ _ _ _ _ Hrun) as [schema ->].
  fold dfs. unfold rows_of. simpl. split.
  - unfold has_entity in Hhas. apply existsb_exists in Hhas.
    destruct Hhas as [r [Hr Hid]]. apply Z.eqb_eq in Hid.
    unfold all_records in Hr. apply in_flat_map in Hr.
    destruct Hr as [df [Hdf Hr]].
    assert (Hin : In (aligned_row schema df e)
                     (filter (fun row : Z * list nat => Z.eqb (fst row) e)
                             (aligned_rows schema dfs))).
    { apply filter_In. split; [|simpl; apply Z.eqb_refl].
      unfold aligned_rows. apply in_flat_map. exists df. split; [assumption|].
      apply in_map. apply sorted_unique_In. subst e. apply in_map. assumption. }
    intros Hnil. rewrite Hnil in Hin. contradiction.
  - intros row Hrow. apply filter_In in Hrow. destruct Hrow as [Hrow Hid].
    apply Z.eqb_eq in Hid. apply in_aligned_rows in Hrow.
    destruct Hrow as [df [e' [Hdf [_ ->]]]]. simpl in Hid. subst e'.
    simpl. apply Forall_forall. intros c Hc. apply in_map_iff in Hc.
    destruct Hc as [l [<- _]].
    destruct (mem l (get_dummies_columns df)) eqn:Hm; [|reflexivity].
    apply group_sum_untaken. intros r Hr Hrid.
    apply mem_In, in_get_dummies_columns in Hm. destruct Hm as [Hcol _].
    rewrite (batches_columns _ _ _ _ Hdf) in Hcol.
    assert (Hnone : cat_value (r_cats r) (l_column l) = None).
    { apply (all_missing_spec _ _ _ Hmiss r (l_column l)); try assumption.
      unfold all_records. apply in_flat_map. eauto. }
    unfold takes. rewrite Hnone. reflexivity.
Qed.

(** Entity 30 has two records, both without values. *)
Lemma entity_without_values_witness :
  exists t w',
    fit_transform (mkDataset ["a"%string; "b"%string]
                     [[rec 10 0 1 1; mkRecord 30 0 []; mkRecord 30 1 []]])
                  1 1 None fresh = (Ok t, w')
    /\ rows_of t 30%Z = [(30%Z, [0; 0])].
Proof.
  exists (mkTable [onehot_float "a" 1; onehot_float "b" 1]
                  [(10%Z, [1; 1]); (30%Z, [0; 0])]),
         (mkWorld (mkAggregator (Some [onehot_float "a" 1; onehot_float "b" 1]))
                  ["out"%string] [(0, 1)] []).
  split; [reflexivity|].
  pose proof (entity_without_values
                (mkDataset ["a"%string; "b"%string]
                           [[rec 10 0 1 1; mkRecord 30 0 []; mkRecord 30 1 []]])
                1 1 None fresh
                (mkWorld (mkAggregator
                            (Some [onehot_float "a" 1; onehot_float "b" 1]))
                         ["out"%string] [(0, 1)] [])
                (mkTable [onehot_float "a" 1; onehot_float "b" 1]
                         [(10%Z, [1; 1]); (30%Z, [0; 0])])
                30%Z (or_introl eq_refl) eq_refl eq_refl) as [_ Hzero].
  specialize (Hzero (30%Z, [0; 0]) (or_introl eq_refl)).
  simpl in Hzero. inversion Hzero as [|c cs Hc _]. subst.
  reflexivity.
Defined.

(** ** The per-batch files *)

Lemma steps_of_distinct (total chunk : nat) : NoDup (steps_of total chunk).
Proof.
  destruct chunk as [|c]; [constructor|].
  apply steps_of_NoDup. lia.
Qed.

(** The batches written by the end of a call: all of them when the loop
    completes, those before the failing batch otherwise. *)
Lemma written_batches (ds : dataset) (chunk total : nat) (mode : string)
  (save_to_path : option string) (w : world) :
  mode = "fit_transform"%string \/ mode = "transform"%string ->
  let out := transform_data ds chunk total mode save_to_path w in
  exists done rest,
    steps_of total chunk = done ++ rest
    /\ sink (snd out) = sink w ++ artifacts save_to_path ds chunk done
    /\ (rest = [] <-> (fst out = Raise not_fitted \/ is_ok (fst out) = true)
                      \/ steps_of total chunk = []).
Proof.
  intros Hmode out. unfold out.
  assert (Hnil : artifacts save_to_path ds chunk [] = []).
  { unfold artifacts. destruct (truthy save_to_path); reflexivity. }
  destruct (call_cases ds chunk total save_to_path w)
    as [-> | [[Hc ->] | [[Hc [Ht Hr]] | [Hc [Ht Hr]]]]].
  - rewrite transform_data_zero_step by assumption. exists [], []. simpl.
    rewrite Hnil, app_nil_r. intuition.
  - rewrite transform_data_no_batch by assumption. exists [], [].
    replace (steps_of 0 chunk) with (@nil nat)
      by (symmetry; apply steps_of_nil; lia).
    simpl. rewrite Hnil, app_nil_r. intuition.
  - destruct (call_stuck ds chunk total mode save_to_path w Hmode Hc Ht Hr)
      as [e [done [step [rest [Hsteps [He [Hin _]]]]]]].
    exists done, (step :: rest). rewrite He. simpl.
    split; [assumption|]. split; [reflexivity|].
    split; [discriminate|].
    intros [[Heq|Heq]|Heq].
    + injection Heq as ->. exfalso. unfold loop_errors in Hin. simpl in Hin.
      intuition discriminate.
    + discriminate.
    + rewrite Heq in Hsteps. destruct done; discriminate.
  - exists (steps_of total chunk), []. rewrite app_nil_r.
    split; [reflexivity|].
    destruct Hmode as [-> | ->].
    + fold (fit_transform ds chunk total save_to_path w).
      rewrite (fit_transform_run ds chunk total save_to_path w Hc Ht Hr).
      simpl. intuition.
    + fold (transform ds chunk total save_to_path w).
      rewrite (transform_run ds chunk total save_to_path w Hc Ht Hr).
      simpl. split; [reflexivity|].
      destruct (encoded_features (self w)); simpl; intuition.
Qed.

(** X10: in either mode a call with no sink (none, or the empty path)
    writes nothing.  With a sink it writes one file per processed batch,
    in order, named by the batch's offset, the offsets pairwise distinct,
    each holding the per-id counts of that batch alone, whatever the
    schema: every batch when the call returns a table or ends in the
    not-fitted assertion, and the batches before the failing one when a
    batch cannot be processed.  The id column of a returned table is the
    id columns of the files, end to end. *)
Theorem files_written (ds : dataset) (chunk total : nat) (mode : string)
  (save_to_path : option string) (w : world) :
  mode = "fit_transform"%string \/ mode = "transform"%string ->
  let out := transform_data ds chunk total mode save_to_path w in
  let steps := steps_of total chunk in
  (truthy save_to_path = None -> sink (snd out) = sink w)
  /\ (forall dir,
        truthy save_to_path = Some dir ->
        exists done rest files,
          steps = done ++ rest
          /\ sink (snd out) = sink w ++ files
          /\ map art_step files = done
          /\ NoDup (map art_step files)
          /\ Forall (fun a => art_dir a = dir
                              /\ aggregates (batch ds chunk (art_step a))
                                            (art_table a)) files
          /\ (fst out = Raise not_fitted \/ is_ok (fst out) = true ->
              rest = [])
          /\ forall t, fst out = Ok t ->
                       ids t = flat_map (fun a => ids (art_table a)) files).
Proof.
  intros Hmode out steps.
  destruct (written_batches ds chunk total mode save_to_path w Hmode)
    as [done [rest [Hsteps [Hsink Hrest]]]].
  fold out in Hsink, Hrest. fold steps in Hsteps, Hrest.
  split.
  - intros Hnone. rewrite Hsink. unfold artifacts. rewrite Hnone.
    apply app_nil_r.
  - intros dir Hdir.
    assert (Hfiles : artifacts save_to_path ds chunk done
                     = map (fun step =>
                              mkArtifact dir step
                                (count_table (batch ds chunk step))) done).
    { unfold artifacts. rewrite Hdir. reflexivity. }
    assert (Hdone : map art_step (artifacts save_to_path ds chunk done) = done).
    { rewrite Hfiles, map_map. simpl. apply map_id. }
    exists done, rest, (artifacts save_to_path ds chunk done).
    split; [assumption|]. split; [assumption|]. split; [assumption|].
    split; [|split; [|split]].
    + rewrite Hdone. pose proof (steps_of_distinct total chunk) as Hnd.
      fold steps in Hnd. rewrite Hsteps in Hnd.
      eapply NoDup_app_remove_r; eassumption.
    + rewrite Hfiles. apply Forall_forall. intros a Ha.
      apply in_map_iff in Ha. destruct Ha as [step [<- _]]. simpl.
      split; [reflexivity | apply count_table_aggregates].
    + intros H. apply Hrest. left. assumption.
    + intros t Hok.
      assert (Hnil : rest = []).
      { apply Hrest. left. right. rewrite Hok. reflexivity. }
      subst rest. rewrite app_nil_r in Hsteps. subst done.
      assert (Ht : exists schema,
                 t = mkTable schema (aligned_rows schema (batches ds chunk steps))).
      { unfold out in Hok. destruct Hmode as [-> | ->].
        - fold (fit_transform ds chunk total save_to_path w) in Hok.
          destruct (fit_transform ds chunk total save_to_path w) as [r w'] eqn:Hrun.
          simpl in Hok. subst r.
          apply (returned_table _ _ _ _ _ _ _ (or_introl Hrun)).
        - fold (transform ds chunk total save_to_path w) in Hok.
          destruct (transform ds chunk total save_to_path w) as [r w'] eqn:Hrun.
          simpl in Hok. subst r.
          apply (returned_table _ _ _ _ _ _ _ (or_intror Hrun)). }
      destruct Ht as [schema ->]. unfold ids at 1. simpl.
      rewrite ids_aligned_rows, Hfiles. unfold batches.
      rewrite !flat_map_map. apply flat_map_ext_in. intros step _.
      unfold ids, count_table, groupby_sum. simpl.
      rewrite map_map. simpl. symmetry. apply map_id.
Qed.

Lemma files_written_witness :
  sink (snd (transform_data toy 1 3 "transform" (Some "out"%string) fitted))
  = [mkArtifact "out" 0
       (mkTable [onehot "a" 1; onehot "a" 2; onehot "b" 1; onehot "b" 2]
                [(10%Z, [1; 1; 2; 0]); (11%Z, [1; 0; 0; 1])]);
     mkArtifact "out" 1
       (mkTable [onehot "a" 1; onehot "a" 2; onehot "b" 1; onehot "b" 2]
                [(12%Z, [1; 2; 2; 1])])]
  /\ fst (transform_data toy 1 3 "transform" (Some "out"%string) fitted)
     = Raise missing_partition
  /\ sink (snd (transform_data toy 1 2 "transform" (Some EmptyString) fitted)) = [].
Proof.
  pose proof (files_written toy 1 2 "transform" (Some EmptyString) fitted
                (or_intror eq_refl)) as H.
  cbv zeta in H. destruct H as [Hnone _].
  split; [reflexivity|]. split; [reflexivity|].
  exact (Hnone eq_refl).
Defined.

End AggregatorLaws.

(* ================================================================== *)
(** * Further laws of training and scoring *)

Module TrainerLaws.
Import KFold KFoldFacts Array Trainer ListFacts TrainerSpec.

Lemma length_zip_with {T B C} (f : T -> B -> C) (xs : list T) (ys : list B) :
  length xs = length ys -> length (zip_with f xs ys) = length xs.
Proof.
  revert ys. induction xs as [|x xs IH]; intros [|y ys] H; simpl in *;
    try discriminate; [reflexivity|].
  f_equal. apply IH. lia.
Qed.

(** ** The folds *)

Lemma slice_lengths (indices sizes : list nat) :
  list_sum sizes = length indices ->
  Forall2 (fun c s => length c = s) (iter_test_indices indices sizes) sizes.
Proof.
  revert indices. induction sizes as [|s sizes IH]; intros indices H; simpl.
  - constructor.
  - simpl in H. constructor.
    + rewrite length_firstn. lia.
    + apply IH. rewrite length_skipn. lia.
Qed.

Lemma slice_sublist (indices sizes : list nat) (c : list nat) :
  In c (iter_test_indices indices sizes) -> forall i, In i c -> In i indices.
Proof.
  revert indices. induction sizes as [|s sizes IH]; intros indices Hc i Hi.
  - contradiction.
  - simpl in Hc. destruct Hc as [<-|Hc].
    + rewrite <- (firstn_skipn s indices). apply in_or_app. left; assumption.
    + rewrite <- (firstn_skipn s indices). apply in_or_app. right.
      eapply IH; eassumption.
Qed.

Lemma slice_NoDup (indices sizes : list nat) (c : list nat) :
  NoDup indices -> In c (iter_test_indices indices sizes) -> NoDup c.
Proof.
  revert indices. induction sizes as [|s sizes IH]; intros indices Hnd Hc.
  - contradiction.
  - simpl in Hc. rewrite <- (firstn_skipn s indices) in Hnd.
    destruct Hc as [<-|Hc].
    + eapply NoDup_app_remove_r; eassumption.
    + eapply IH; [|eassumption]. eapply NoDup_app_remove_l; eassumption.
Qed.

Lemma Forall2_in_l {A B} (R : A -> B -> Prop) (l : list A) (l' : list B) (x : A) :
  Forall2 R l l' -> In x l -> exists y, In y l' /\ R x y.
Proof.
  induction 1 as [|a b l l' Hab _ IH]; intros Hin; [contradiction|].
  destruct Hin as [<-|Hin].
  - exists b. split; [left; reflexivity | assumption].
  - destruct (IH Hin) as [y [Hy Hr]]. exists y. split; [right; assumption | assumption].
Qed.

Lemma ascending_filter (f : nat -> bool) (n : nat) :
  StronglySorted lt (filter f (seq 0 n)).
Proof.
  generalize 0%nat as start. induction n as [|n IH]; intros start; simpl.
  - constructor.
  - destruct (f start).
    + constructor; [apply IH|].
      apply Forall_forall. intros i Hi. apply filter_In in Hi.
      destruct Hi as [Hi _]. apply in_seq in Hi. lia.
    + apply IH.
Qed.

(** X11: every fold [split] yields trains on exactly the rows it does
    not validate on; its validation part has [n // k] or [n // k + 1]
    rows and is not empty, its training part is not empty, the two
    together are the [n] rows, and both index arrays are ascending. *)
Theorem fold_structure (n k : nat) (shuffled : list nat)
  (folds : list (list nat * list nat)) (fold : list nat * list nat) :
  Permutation (seq 0 n) shuffled ->
  split n k shuffled = Ok folds ->
  In fold folds ->
  (forall i, i < n -> (In i (fst fold) <-> ~ In i (snd fold)))
  /\ (length (snd fold) = n / k \/ length (snd fold) = n / k + 1)
  /\ 0 < length (snd fold)
  /\ 0 < length (fst fold)
  /\ length (fst fold) + length (snd fold) = n
  /\ StronglySorted lt (fst fold)
  /\ StronglySorted lt (snd fold).
Proof.
  intros Hperm Hsplit Hfold.
  apply split_ok in Hsplit. destruct Hsplit as [Hk ->].
  apply in_map_iff in Hfold. destruct Hfold as [c [<- Hc]]. simpl.
  destruct (slices_of_permutation n k shuffled Hperm ltac:(lia))
    as [_ [Hnd Hmem]].
  assert (Hsum : list_sum (fold_sizes n k) = length shuffled).
  { rewrite fold_sizes_sum by lia.
    rewrite <- (Permutation_length Hperm). symmetry. apply length_seq. }
  assert (Hlen : length (filter (in_fold c) (seq 0 n)) = length c).
  { apply Permutation_length, NoDup_Permutation.
    - apply NoDup_filter, seq_NoDup.
    - eapply slice_NoDup; eassumption.
    - intros i. rewrite filter_In, in_seq, in_fold_In. split; [tauto|].
      intros Hi. split; [|assumption].
      apply (slice_sublist _ _ _ Hc), Hmem in Hi. lia. }
  destruct (Forall2_in_l _ _ _ c (slice_lengths shuffled _ Hsum) Hc)
    as [size [Hsize Hcs]].
  unfold fold_sizes in Hsize. apply in_map_iff in Hsize.
  destruct Hsize as [j [Hj Hjin]]. apply in_seq in Hjin.
  pose proof (Nat.div_mod_eq n k) as Hdm.
  pose proof (Nat.mod_upper_bound n k ltac:(lia)) as Hmod.
  assert (Hq : (1 <= n / k)) by (apply Nat.div_le_lower_bound; lia).
  pose proof (filter_length (in_fold c) (seq 0 n)) as Hfl.
  rewrite length_seq in Hfl.
  split; [|split; [|split; [|split; [|split; [|split]]]]].
  - intros i Hi. rewrite !filter_In, in_seq, negb_true_iff.
    destruct (in_fold c i); split; intros H.
    + destruct H as [_ H]. discriminate.
    + exfalso. apply H. split; [lia | reflexivity].
    + intros [_ H']. discriminate.
    + split; [lia | reflexivity].
  - rewrite Hlen, Hcs, <- Hj. destruct (j <? n mod k); lia.
  - rewrite Hlen, Hcs, <- Hj. lia.
  - rewrite Hlen, Hcs, <- Hj in Hfl.
    destruct (j <? n mod k) eqn:Hlt.
    + apply Nat.ltb_lt in Hlt. nia.
    + nia.
  - lia.
  - apply ascending_filter.
  - apply ascending_filter.
Qed.

Lemma fold_structure_witness :
  split 7 3 [3; 1; 6; 0; 2; 5; 4]
  = Ok [([0; 2; 4; 5], [1; 3; 6]); ([1; 3; 4; 5; 6], [0; 2]);
        ([0; 1; 2; 3; 6], [4; 5])]
  /\ (length [1; 3; 6] = 7 / 3 \/ length [1; 3; 6] = 7 / 3 + 1).
Proof.
  split; [reflexivity|].
  exact (proj1 (proj2 (fold_structure 7 3 [3; 1; 6; 0; 2; 5; 4] _
                         ([0; 2; 4; 5], [1; 3; 6])
                         toy_shuffle eq_refl (or_introl eq_refl)))).
Defined.

(** ** The run *)

Section RunLaws.

Variable A : Arith.
Variable sample : Type.
Variable model : Type.
Variable fit : list sample -> list sample -> model.
Variable predict_proba1 : model -> sample -> num A.

Lemma score_fold_length (g : model -> sample -> num A) (data : list sample)
  (ms : list model) (sc : list (num A)) :
  length sc = length data ->
  length (fold_left (fun score m => zip_with (add A) score (map (g m) data)) ms sc)
  = length data.
Proof.
  revert sc. induction ms as [|m ms IH]; intros sc H; simpl; [assumption|].
  apply IH. rewrite length_zip_with; [assumption|].
  rewrite length_map. assumption.
Qed.

Lemma score_length (ms : list model) (test_data : list sample) :
  length (score predict_proba1 ms test_data) = length test_data.
Proof.
  unfold score. apply score_fold_length. unfold zeros. apply repeat_length.
Qed.

Lemma fold_left_models (data : list sample) (k : nat)
  (folds : list (list nat * list nat)) (st : run A model) :
  models (fold_left (fold_step fit predict_proba1 data k) folds st)
  = models st ++ map (model_of fit data) folds.
Proof.
  revert st. induction folds as [|[train_idx val_idx] folds IH]; intros st.
  - simpl. rewrite app_nil_r. reflexivity.
  - simpl. rewrite IH. simpl. rewrite <- app_assoc. reflexivity.
Qed.


End RunLaws.

End TrainerLaws.

(* ================================================================== *)
(** * Laws of the join and of the submission *)

Module PipelineLaws.
Import Frame Reader Aggregator Schema Measures Array Trainer Pipeline.
Import ListFacts FrameFacts AggregatorFacts AggregatorLaws TrainerLaws.

Lemma count_occ_matching_rows (rows : list (Z * list nat)) (e : Z) :
  length (filter (fun row => Z.eqb (fst row) e) rows)
  = count_occ Z.eq_dec (map fst rows) e.
Proof.
  induction rows as [|row rows IH]; simpl; [reflexivity|].
  destruct (Z.eq_dec (fst row) e) as [Heq|Hne].
  - rewrite Heq, Z.eqb_refl. simpl. rewrite IH. reflexivity.
  - replace (Z.eqb (fst row) e) with false
      by (symmetry; apply Z.eqb_neq; assumption).
    assumption.
Qed.

Lemma count_occ_constant (a e : Z) {A} (l : list A) :
  count_occ Z.eq_dec (map (fun _ => a) l) e
  = if Z.eqb a e then length l else 0.
Proof.
  induction l as [|x l IH]; simpl.
  - destruct (Z.eqb a e); reflexivity.
  - destruct (Z.eq_dec a e) as [Heq|Hne].
    + rewrite IH. subst. rewrite Z.eqb_refl. reflexivity.
    + rewrite IH. replace (Z.eqb a e) with false
        by (symmetry; apply Z.eqb_neq; assumption).
      reflexivity.
Qed.

Lemma merge_cons (tr : Z * Z) (train_target : list (Z * Z)) (train_data : Table nat) :
  merge (tr :: train_target) train_data
  = map (fun row => mkSample (fst tr) (snd tr) (snd row))
        (filter (fun row => Z.eqb (fst row) (fst tr)) (rows train_data))
    ++ merge train_target train_data.
Proof. reflexivity. Qed.

(** X15: the join follows SQL multiplicities: an id occurs in
    [train_data_target] as often as in the label table times as often as
    in the feature table, so an id missing on either side is dropped and ids
    unique on both sides stay unique; every joined row carries a label row's
    flag and a feature row's cells of the same id. *)
Theorem merge_multiplicity (train_target : list (Z * Z)) (train_data : Table nat) :
  (forall e,
      count_occ Z.eq_dec (map s_id (merge train_target train_data)) e
      = count_occ Z.eq_dec (map fst train_target) e
        * count_occ Z.eq_dec (ids train_data) e)
  /\ (forall s, In s (merge train_target train_data) ->
                In (s_id s, s_flag s) train_target
                /\ In (s_id s, s_cells s) (rows train_data))
  /\ (NoDup (map fst train_target) -> NoDup (ids train_data) ->
      NoDup (map s_id (merge train_target train_data))).
Proof.
  assert (Hcount : forall e,
      count_occ Z.eq_dec (map s_id (merge train_target train_data)) e
      = count_occ Z.eq_dec (map fst train_target) e
        * count_occ Z.eq_dec (ids train_data) e).
  { intros e. induction train_target as [|tr target IH]; [reflexivity|].
    rewrite merge_cons, map_app, count_occ_app, IH, map_map. simpl s_id.
    rewrite count_occ_constant, count_occ_matching_rows. fold (ids train_data).
    simpl. destruct (Z.eq_dec (fst tr) e) as [Heq|Hne].
    - rewrite Heq, Z.eqb_refl. lia.
    - replace (Z.eqb (fst tr) e) with false
        by (symmetry; apply Z.eqb_neq; assumption).
      lia. }
  split; [exact Hcount|]. split.
  - intros s Hs. unfold merge in Hs. apply in_flat_map in Hs.
    destruct Hs as [tr [Htr Hs]]. apply in_map_iff in Hs.
    destruct Hs as [row [<- Hrow]]. apply filter_In in Hrow.
    destruct Hrow as [Hrow Hid]. apply Z.eqb_eq in Hid. simpl.
    split.
    + destruct tr; assumption.
    + rewrite <- Hid. destruct row; assumption.
  - intros Ht Hd. apply (NoDup_count_occ Z.eq_dec). intros e.
    rewrite Hcount.
    pose proof (proj1 (NoDup_count_occ Z.eq_dec _) Ht e).
    pose proof (proj1 (NoDup_count_occ Z.eq_dec _) Hd e).
    nia.
Qed.

(** [feature_cols] is the schema of the feature table, in order:
    removing [id] and [flag] from the joined table's columns succeeds and
    leaves neither among the features. *)
Lemma feature_cols_are_schema (train_data : Table nat) :
  feature_cols train_data = Ok (map MFeature (columns train_data))
  /\ forall fc, feature_cols train_data = Ok fc -> ~ In MId fc /\ ~ In MFlag fc.
Proof.
  assert (H : feature_cols train_data = Ok (map MFeature (columns train_data)))
    by reflexivity.
  split; [exact H|]. intros fc Hfc. rewrite H in Hfc. injection Hfc as <-.
  split; intros Hin; apply in_map_iff in Hin; destruct Hin as [l [Hl _]];
    discriminate.
Qed.

Section Submission.

Variable A : Arith.
Variable model : Type.
Variable predict_proba1 : model -> list nat -> num A.

Lemma map_fst_combine {T B} (xs : list T) (ys : list B) :
  length xs = length ys -> map fst (combine xs ys) = xs.
Proof.
  revert ys. induction xs as [|x xs IH]; intros [|y ys] H; simpl in *;
    try discriminate; [reflexivity|].
  f_equal. apply IH. lia.
Qed.

Lemma map_snd_combine {T B} (xs : list T) (ys : list B) :
  length xs = length ys -> map snd (combine xs ys) = ys.
Proof.
  revert ys. induction xs as [|x xs IH]; intros [|y ys] H; simpl in *;
    try discriminate; [reflexivity|].
  f_equal. apply IH. lia.
Qed.

Lemma select_inv (t X : Table nat) (cols : list label) :
  select t cols = Ok X ->
  (forall l, In l cols -> In l (columns t))
  /\ length (rows X) = length (rows t).
Proof.
  unfold select. intros H.
  destruct (forallb (fun l => mem l (columns t)) cols) eqn:Hall; [|discriminate].
  injection H as <-. simpl. split.
  - intros l Hl. rewrite forallb_forall in Hall. apply mem_In, Hall. assumption.
  - apply length_map.
Qed.

Lemma select_cases (t : Table nat) (cols : list label) :
  ((forall l, In l cols -> In l (columns t))
   /\ exists X, select t cols = Ok X)
  \/ (~ (forall l, In l cols -> In l (columns t))
      /\ select t cols = Raise KeyError).
Proof.
  unfold select.
  destruct (forallb (fun l => mem l (columns t)) cols) eqn:Hall.
  - left. split; [|eauto]. intros l Hl.
    rewrite forallb_forall in Hall. apply mem_In, Hall. assumption.
  - right. split; [|reflexivity]. intros H.
    assert (forallb (fun l => mem l (columns t)) cols = true).
    { apply forallb_forall. intros l Hl. apply mem_In. auto. }
    congruence.
Qed.

(** With the columns present, the loop of cell 33 is the scoring loop
    over the selected rows. *)
Lemma score_steps_selected (ms0 ms : list model) (fc : list label)
  (test_data X : Table nat) (sc : list (num A)) :
  select test_data fc = Ok X ->
  fold_left (score_step predict_proba1 ms0 fc test_data) ms (Ok sc)
  = Ok (fold_left
          (fun score m =>
             zip_with (add A) score
               (map (fun x => div A (predict_proba1 m x)
                                    (of_nat A (length ms0)))
                    (map snd (rows X))))
          ms sc).
Proof.
  intros Hsel. revert sc. induction ms as [|m ms IH]; intros sc; [reflexivity|].
  simpl. rewrite Hsel, map_map. apply IH.
Qed.

Lemma score_steps_raise (ms0 ms : list model) (fc : list label)
  (test_data : Table nat) (e : exn) :
  fold_left (score_step predict_proba1 ms0 fc test_data) ms (Raise e) = Raise e.
Proof. induction ms as [|m ms IH]; [reflexivity | exact IH]. Qed.

Lemma score_steps_missing (ms0 ms : list model) (fc : list label)
  (test_data : Table nat) (sc : list (num A)) (e : exn) :
  select test_data fc = Raise e -> ms <> [] ->
  fold_left (score_step predict_proba1 ms0 fc test_data) ms (Ok sc) = Raise e.
Proof.
  intros Hsel Hne. destruct ms as [|m ms]; [congruence|].
  simpl. rewrite Hsel. apply score_steps_raise.
Qed.

(** The submission when the selection succeeds. *)
Lemma submission_selected (ms : list model) (fc : list label)
  (test_data X : Table nat) :
  select test_data fc = Ok X ->
  submission predict_proba1 ms fc test_data
  = Ok (combine (ids test_data) (score predict_proba1 ms (map snd (rows X)))).
Proof.
  intros Hsel. unfold submission.
  rewrite (score_steps_selected ms ms fc test_data X _ Hsel).
  unfold score. rewrite length_map.
  rewrite (proj2 (select_inv _ _ _ Hsel)). reflexivity.
Qed.

(** X16: cell 33 selects the feature columns once per model, inside
    its loop: the submission is written exactly when there is no model
    or every feature column is a column of the scored table, and fails
    with [KeyError] otherwise; it has one line per row of the table, with
    the table's ids in order; beside them stand zeros when there is no
    model, and the scores of the selected rows otherwise. *)
Theorem submission_rows (ms : list model) (fc : list label) (test_data : Table nat) :
  (is_ok (submission predict_proba1 ms fc test_data) = true
   <-> ms = [] \/ forall l, In l fc -> In l (columns test_data))
  /\ (is_ok (submission predict_proba1 ms fc test_data) = false ->
      submission predict_proba1 ms fc test_data = Raise KeyError)
  /\ forall sub,
       submission predict_proba1 ms fc test_data = Ok sub ->
       length sub = length (rows test_data)
       /\ map fst sub = ids test_data
       /\ (ms = [] -> map snd sub = zeros A (length (rows test_data)))
       /\ (forall X, select test_data fc = Ok X ->
                     map snd sub = score predict_proba1 ms (map snd (rows X))).
Proof.
  assert (Hids : length (ids test_data) = length (rows test_data))
    by (unfold ids; apply length_map).
  destruct (select_cases test_data fc) as [[Hall [X Hsel]]|[Hnot Hsel]].
  - rewrite (submission_selected ms fc test_data X Hsel).
    destruct (select_inv _ _ _ Hsel) as [_ Hlen].
    assert (Hscore : length (ids test_data)
                     = length (score predict_proba1 ms (map snd (rows X)))).
    { rewrite score_length, length_map. congruence. }
    simpl. split; [split; auto|]. split; [discriminate|].
    intros sub Hsub. injection Hsub as <-.
    split; [|split; [apply map_fst_combine; assumption|split]].
    + rewrite length_combine, <- Hscore, Nat.min_id. assumption.
    + intros ->. rewrite map_snd_combine by assumption.
      unfold score. simpl. rewrite length_map, Hlen. reflexivity.
    + intros X' HX'. rewrite Hsel in HX'. injection HX' as <-.
      apply map_snd_combine. assumption.
  - destruct ms as [|m ms].
    + unfold submission. simpl.
      assert (Hz : length (ids test_data)
                   = length (zeros A (length (rows test_data)))).
      { unfold zeros. rewrite repeat_length. assumption. }
      split; [split; auto|]. split; [discriminate|].
      intros sub Hsub. injection Hsub as <-.
      split; [|split; [apply map_fst_combine; assumption|split]].
      * rewrite length_combine, <- Hz, Nat.min_id. assumption.
      * intros _. apply map_snd_combine. assumption.
      * intros X HX. rewrite Hsel in HX. discriminate.
    + unfold submission.
      rewrite (score_steps_missing (m :: ms) (m :: ms) fc test_data _ KeyError Hsel)
        by discriminate.
      simpl. split; [|split; [reflexivity | discriminate]].
      split; [discriminate|]. intros [H|H]; [discriminate | contradiction].
Qed.

End Submission.

Lemma submission_rows_witness :
  submission (A := exact) (fun (m : Q) (x : list nat) => (1 # 4)%Q) [0%Q; 1%Q]
        [onehot "a" 1]
        (mkTable [onehot "a" 1; onehot "b" 1] [(7%Z, [1; 2]); (8%Z, [0; 3])])
     = Ok [(7%Z, (16 # 64)%Q); (8%Z, (16 # 64)%Q)]
  /\ submission (A := exact) (fun (m : Q) (x : list nat) => (1 # 4)%Q) [0%Q; 1%Q]
        [onehot "c" 1]
        (mkTable [onehot "a" 1; onehot "b" 1] [(7%Z, [1; 2]); (8%Z, [0; 3])])
     = Raise KeyError
  /\ submission (A := exact) (fun (m : Q) (x : list nat) => (1 # 4)%Q) []
        [onehot "c" 1]
        (mkTable [onehot "a" 1; onehot "b" 1] [(7%Z, [1; 2]); (8%Z, [0; 3])])
     = Ok [(7%Z, 0%Q); (8%Z, 0%Q)]
  /\ map fst [(7%Z, (16 # 64)%Q); (8%Z, (16 # 64)%Q)] = [7%Z; 8%Z].
Proof.
  split; [reflexivity|]. split; [reflexivity|]. split; [reflexivity|].
  exact (proj1 (proj2 (proj2 (proj2 (submission_rows exact Q
                                (fun (m : Q) (x : list nat) => (1 # 4)%Q)
                                [0%Q; 1%Q] [onehot "a" 1]
                                (mkTable [onehot "a" 1; onehot "b" 1]
                                         [(7%Z, [1; 2]); (8%Z, [0; 3])])))
                      _ eq_refl))).
Defined.

(** X17: in the notebook's order of calls (fit on the training data,
    transform on the test data, score on the training table's columns) the
    submission is always written: it pairs every row id of the test table,
    in order, with the score of that row's own cells. *)
Theorem pipeline_submission (A : Arith) (model : Type)
  (predict_proba1 : model -> list nat -> num A) (ms : list model)
  (ds1 ds2 : dataset) (chunk1 total1 chunk2 total2 : nat)
  (save1 save2 : option string) (w w1 w2 w3 : world) (t1 t2 : Table nat) :
  fit_transform ds1 chunk1 total1 save1 w = (Ok t1, w1) ->
  self w2 = self w1 ->
  transform ds2 chunk2 total2 save2 w2 = (Ok t2, w3) ->
  submission predict_proba1 ms (columns t1) t2
  = Ok (combine (ids t2) (score predict_proba1 ms (map snd (rows t2)))).
Proof.
  intros Hfit Hself Htr.
  apply submission_selected.
  rewrite (transform_after_fit _ _ _ _ _ _ _ _ _ _ _ _ _ _ Hfit Hself Htr).
  simpl. apply select_aligned. auto.
Qed.

Lemma pipeline_submission_witness :
  exists t1 w1 t2 w3,
    fit_transform toy 1 2 None fresh = (Ok t1, w1)
    /\ transform (mkDataset ["a"%string; "b"%string]
                    [[rec 20 0 1 1; rec 20 1 3 1]]) 1 1 None w1 = (Ok t2, w3)
    /\ submission (A := exact)
                  (fun (m : Q) (x : list nat) => (inject_Z (Z.of_nat (list_sum x)) / 8)%Q)
                  [1%Q] (columns t1) t2
       = Ok [(20%Z, (3 # 8)%Q)].
Proof.
  exists (mkTable [onehot "a" 1; onehot "a" 2; onehot "b" 1; onehot "b" 2]
                  [(10%Z, [1; 1; 2; 0]); (11%Z, [1; 0; 0; 1]);
                   (12%Z, [1; 2; 2; 1])]),
         (mkWorld (mkAggregator (Some [onehot "a" 1; onehot "a" 2;
                                       onehot "b" 1; onehot "b" 2]))
                  ["out"%string] [(0, 1); (1, 1)] []),
         (mkTable [onehot "a" 1; onehot "a" 2; onehot "b" 1; onehot "b" 2]
                  [(20%Z, [1; 0; 2; 0])]),
         (mkWorld (mkAggregator (Some [onehot "a" 1; onehot "a" 2;
                                       onehot "b" 1; onehot "b" 2]))
                  ["out"%string] [(0, 1); (1, 1); (0, 1)] []).
  split; [reflexivity|]. split; [reflexivity|].
  exact (eq_trans
           (pipeline_submission exact Q
             (fun (m : Q) (x : list nat) => (inject_Z (Z.of_nat (list_sum x)) / 8)%Q)
             [1%Q] toy
             (mkDataset ["a"%string; "b"%string] [[rec 20 0 1 1; rec 20 1 3 1]])
             1 2 1 1 None None fresh
             (mkWorld (mkAggregator (Some [onehot "a" 1; onehot "a" 2;
                                           onehot "b" 1; onehot "b" 2]))
                      ["out"%string] [(0, 1); (1, 1)] [])
             (mkWorld (mkAggregator (Some [onehot "a" 1; onehot "a" 2;
                                           onehot "b" 1; onehot "b" 2]))
                      ["out"%string] [(0, 1); (1, 1)] [])
             (mkWorld (mkAggregator (Some [onehot "a" 1; onehot "a" 2;
                                           onehot "b" 1; onehot "b" 2]))
                      ["out"%string] [(0, 1); (1, 1); (0, 1)] [])
             (mkTable [onehot "a" 1; onehot "a" 2; onehot "b" 1; onehot "b" 2]
                      [(10%Z, [1; 1; 2; 0]); (11%Z, [1; 0; 0; 1]);
                       (12%Z, [1; 2; 2; 1])])
             (mkTable [onehot "a" 1; onehot "a" 2; onehot "b" 1; onehot "b" 2]
                      [(20%Z, [1; 0; 2; 0])])
             eq_refl eq_refl eq_refl)
           eq_refl).
Defined.

End PipelineLaws.
